(** * CacheLocalStorage: a shallow embedding of [src/worker.ts]

    The repository is a browser library: a storage facade
    ([CacheLocalStorage]) that validates, serialises, optionally
    compresses and encrypts a value and hands it to one of two backends,
    a service worker holding an in-memory map ([cls.js], the message
    handler) or the Cache API directly.

    The embedding has four layers.
    - [JS]: the JavaScript values the program manipulates and the
      ECMAScript built-ins it calls ([typeof], truthiness, property
      read, object spread, [JSON.stringify], [JSON.parse]).
    - [Platform]: the browser capabilities the program probes and calls
      (gzip streams, pako, base64, Web Crypto, service worker
      registration, Cache API faults).
    - the state: a [World] holding the Cache API contents, the worker's
      map and the mutable fields of one facade instance, threaded
      through a state-and-exception monad [M].
    - the program: every function of the worker and of the class, in
      source order and with the source's names. *)

From Stdlib Require Import ZArith String Ascii List QArith Lia.
From Stdlib Require Import DecimalString DecimalPos DecimalN DecimalZ DecimalFacts.
From Stdlib.Strings Require Import Byte.
From stdpp Require Import gmap strings list.
Import ListNotations.

#[local] Set Warnings "-register-all".
Local Open Scope string_scope.
Local Open Scope Z_scope.

(** ** JavaScript values and built-ins *)

Module JS.

(** Values.  Numbers are the integer-valued ones ([Z]); strings are
    sequences of UTF-8 code units, so that the byte length measured by
    [TextEncoder] and [Blob] is the length of the string.  [Bytes] is a
    [Uint8Array]. *)
Inductive value : Type :=
| Undefined
| Null
| Bool (b : bool)
| Num (n : Z)
| Str (s : string)
| Arr (elems : list value)
| Obj (props : list (string * value))
| Bytes (b : list byte).

(** Errors that can be thrown: [Error] is [new Error(message)] raised by
    the program itself, the others are raised by the platform. *)
Inductive JsError : Type :=
| Error (message : string)
| TypeError (message : string)
| SyntaxError (message : string)
| RangeError (message : string)
| DOMException (name : string).

(** The outcome of evaluating a piece of code. *)
Inductive Completion (A : Type) : Type :=
| Normal (a : A)
| Throw (e : JsError).
Arguments Normal {A} a.
Arguments Throw {A} e.

(** [typeof v] *)
Definition typeof (v : value) : string :=
  match v with
  | Undefined => "undefined"
  | Null => "object"
  | Bool _ => "boolean"
  | Num _ => "number"
  | Str _ => "string"
  | Arr _ => "object"
  | Obj _ => "object"
  | Bytes _ => "object"
  end.

(** ToBoolean: the test performed by [if (v)], [!v], [a || b]. *)
Definition truthy (v : value) : bool :=
  match v with
  | Undefined => false
  | Null => false
  | Bool b => b
  | Num n => negb (n =? 0)
  | Str s => negb (String.eqb s "")
  | Arr _ => true
  | Obj _ => true
  | Bytes _ => true
  end.

Definition is_undefined (v : value) : bool :=
  match v with Undefined => true | _ => false end.

Definition string_of_Z (n : Z) : string :=
  NilZero.string_of_int (Z.to_int n).

Definition string_of_nat (n : nat) : string :=
  NilZero.string_of_uint (Nat.to_uint n).

Definition byte_to_Z (b : byte) : Z := Z.of_N (Byte.to_N b).

Definition byte_of_Z (n : Z) : byte :=
  match Byte.of_N (Z.to_N (n mod 256)) with
  | Some b => b
  | None => x00
  end.

(** The byte length of a string ([new Blob([s]).size],
    [new TextEncoder().encode(s).length]). *)
Definition byteLength (s : string) : Z := Z.of_nat (String.length s).

(** A canonical array index: the decimal form of a natural number. *)
Definition array_index (k : string) : option nat :=
  match NilZero.uint_of_string k with
  | Some d =>
      if String.eqb (NilZero.string_of_uint d) k && negb (String.eqb k "")
      then Some (Nat.of_uint d) else None
  | None => None
  end.

Fixpoint assoc (k : string) (l : list (string * value)) : option value :=
  match l with
  | [] => None
  | (k', v) :: l' => if String.eqb k k' then Some v else assoc k l'
  end.

Definition char_at (s : string) (i : nat) : value :=
  match String.get i s with
  | Some c => Str (String c EmptyString)
  | None => Undefined
  end.

(** [v[k]] for own properties, [length] of arrays, strings and typed
    arrays included.  Reading a property of [undefined] or [null]
    throws.  Properties inherited from a prototype ([toString],
    [constructor], ...) are not modelled: the embedding is exact for
    keys that name no inherited property. *)
Definition get_prop (v : value) (k : string) : Completion value :=
  match v with
  | Undefined => Throw (TypeError "Cannot read properties of undefined")
  | Null => Throw (TypeError "Cannot read properties of null")
  | Bool _ => Normal Undefined
  | Num _ => Normal Undefined
  | Str s =>
      if String.eqb k "length" then Normal (Num (Z.of_nat (String.length s)))
      else match array_index k with
           | Some i => Normal (char_at s i)
           | None => Normal Undefined
           end
  | Arr l =>
      if String.eqb k "length" then Normal (Num (Z.of_nat (List.length l)))
      else match array_index k with
           | Some i => Normal (nth i l Undefined)
           | None => Normal Undefined
           end
  | Obj l => Normal (default Undefined (assoc k l))
  | Bytes b =>
      if String.eqb k "length" then Normal (Num (Z.of_nat (List.length b)))
      else match array_index k with
           | Some i => Normal (match nth_error b i with
                               | Some x => Num (byte_to_Z x)
                               | None => Undefined
                               end)
           | None => Normal Undefined
           end
  end.

(** Defining an own property: an existing key keeps its place and takes
    the new value, a new key goes to the end. *)
Fixpoint define_prop (k : string) (v : value) (l : list (string * value))
  : list (string * value) :=
  match l with
  | [] => [(k, v)]
  | (k', v') :: l' =>
      if String.eqb k k' then (k, v) :: l' else (k', v') :: define_prop k v l'
  end.

Fixpoint indexed {A} (f : A -> value) (i : nat) (l : list A)
  : list (string * value) :=
  match l with
  | [] => []
  | x :: l' => (string_of_nat i, f x) :: indexed f (S i) l'
  end.

Fixpoint chars (s : string) : list string :=
  match s with
  | EmptyString => []
  | String c s' => String c EmptyString :: chars s'
  end.

(** The own enumerable properties copied by an object spread [...v]. *)
Definition own_props (v : value) : list (string * value) :=
  match v with
  | Obj l => l
  | Arr l => indexed (fun x => x) 0 l
  | Str s => indexed Str 0 (chars s)
  | Bytes b => indexed (fun x => Num (byte_to_Z x)) 0 b
  | _ => []
  end.

(** [{ ...a, ...b }].  Keys keep their insertion order and a string is
    spread by bytes: exact for objects without integer-like keys, which
    JavaScript lists first, and for ASCII strings. *)
Definition spread2 (a b : value) : value :=
  Obj (fold_left (fun acc kv => define_prop (fst kv) (snd kv) acc)
         (own_props a ++ own_props b)%list []).

(** *** JSON.stringify *)

Definition dquote : ascii := ascii_of_nat 34.
Definition backslash : ascii := ascii_of_nat 92.

Definition hex_digit (n : nat) : ascii :=
  nth n (list_ascii_of_string "0123456789abcdef") "0"%char.

(** QuoteJSONString, one code unit at a time. *)
Definition escape_char (c : ascii) : string :=
  let n := nat_of_ascii c in
  if Nat.eqb n 34 then String backslash (String dquote "")
  else if Nat.eqb n 92 then String backslash (String backslash "")
  else if Nat.eqb n 8 then "\b"
  else if Nat.eqb n 12 then "\f"
  else if Nat.eqb n 10 then "\n"
  else if Nat.eqb n 13 then "\r"
  else if Nat.eqb n 9 then "\t"
  else if Nat.ltb n 32 then
    "\u00" +:+ String (hex_digit (n / 16)) (String (hex_digit (n mod 16)) "")
  else String c "".

Fixpoint escape (s : string) : string :=
  match s with
  | EmptyString => ""
  | String c s' => escape_char c +:+ escape s'
  end.

Definition quote (s : string) : string :=
  String dquote (escape s) +:+ String dquote "".

Fixpoint join (sep : string) (l : list string) : string :=
  match l with
  | [] => ""
  | [x] => x
  | x :: l' => x +:+ sep +:+ join sep l'
  end.

Definition member (k : string) (text : string) : string :=
  quote k +:+ ":" +:+ text.

Fixpoint stringify_members (f : value -> option string)
  (l : list (string * value)) : list string :=
  match l with
  | [] => []
  | (k, v) :: l' =>
      match f v with
      | Some t => member k t :: stringify_members f l'
      | None => stringify_members f l'
      end
  end.

(** [JSON.stringify(v)]; [None] is the result [undefined].  Inside an
    array [undefined] prints as [null], inside an object the property is
    dropped, and a typed array prints as the object of its indices.
    Numbers are integers printed in full and keys keep their insertion
    order: exact for integers below 10^21 in absolute value and for
    objects without integer-like keys. *)
Fixpoint stringify (v : value) : option string :=
  match v with
  | Undefined => None
  | Null => Some "null"
  | Bool true => Some "true"
  | Bool false => Some "false"
  | Num n => Some (string_of_Z n)
  | Str s => Some (quote s)
  | Arr l =>
      Some ("[" +:+ join "," (List.map (fun e => default "null" (stringify e)) l)
            +:+ "]")
  | Obj l => Some ("{" +:+ join "," (stringify_members stringify l) +:+ "}")
  | Bytes b =>
      Some ("{" +:+
            join "," (List.map (fun kv => member (fst kv) (string_of_Z (snd kv)))
                        (combine (List.map string_of_nat (seq 0 (List.length b)))
                                 (List.map byte_to_Z b)))
            +:+ "}")
  end.

(** *** JSON.parse

    A recursive-descent reader of JSON text.  Numbers are read in the
    integer form [stringify] prints; a fraction or an exponent lies
    outside the integer model and is refused, as is a surrogate
    escape. *)

Definition is_ws (c : ascii) : bool :=
  let n := nat_of_ascii c in
  Nat.eqb n 32 || Nat.eqb n 9 || Nat.eqb n 10 || Nat.eqb n 13.

Fixpoint skip_ws (s : string) : string :=
  match s with
  | String c s' => if is_ws c then skip_ws s' else s
  | EmptyString => s
  end.

Definition is_digit (c : ascii) : bool :=
  let n := nat_of_ascii c in Nat.leb 48 n && Nat.leb n 57.

Definition digit_value (c : ascii) : Z := Z.of_nat (nat_of_ascii c - 48).

Definition hex_value (c : ascii) : option N :=
  let n := N_of_ascii c in
  if N.leb 48 n && N.leb n 57 then Some (n - 48)%N
  else if N.leb 97 n && N.leb n 102 then Some (n - 87)%N
  else if N.leb 65 n && N.leb n 70 then Some (n - 55)%N
  else None.

Definition hex4 (a b c d : ascii) : option N :=
  match hex_value a, hex_value b, hex_value c, hex_value d with
  | Some x, Some y, Some z, Some w =>
      Some (((x * 16 + y) * 16 + z) * 16 + w)%N
  | _, _, _, _ => None
  end.

(** The UTF-8 form of a code point of the basic plane. *)
Definition utf8_encode (cp : N) : string :=
  if N.ltb cp 128 then String (ascii_of_N cp) ""
  else if N.ltb cp 2048 then
    String (ascii_of_N (192 + cp / 64))
      (String (ascii_of_N (128 + cp mod 64)) "")
  else
    String (ascii_of_N (224 + cp / 4096))
      (String (ascii_of_N (128 + (cp / 64) mod 64))
         (String (ascii_of_N (128 + cp mod 64)) "")).

Definition unescape (c : ascii) : option ascii :=
  let n := nat_of_ascii c in
  if Nat.eqb n 34 then Some dquote
  else if Nat.eqb n 92 then Some backslash
  else if Nat.eqb n 47 then Some "/"%char
  else if Nat.eqb n 98 then Some (ascii_of_nat 8)
  else if Nat.eqb n 102 then Some (ascii_of_nat 12)
  else if Nat.eqb n 110 then Some (ascii_of_nat 10)
  else if Nat.eqb n 114 then Some (ascii_of_nat 13)
  else if Nat.eqb n 116 then Some (ascii_of_nat 9)
  else None.

(** The characters of a string literal, after its opening quote. *)
Fixpoint parse_chars (s : string) : option (string * string) :=
  match s with
  | EmptyString => None
  | String c rest =>
      if Ascii.eqb c dquote then Some ("", rest)
      else if Ascii.eqb c backslash then
        match rest with
        | String e rest1 =>
            if Ascii.eqb e "u"%char then
              match rest1 with
              | String h1 (String h2 (String h3 (String h4 rest2))) =>
                  match hex4 h1 h2 h3 h4 with
                  | Some cp =>
                      if N.leb 55296 cp && N.leb cp 57343 then None
                      else match parse_chars rest2 with
                           | Some (t, r) => Some (utf8_encode cp +:+ t, r)
                           | None => None
                           end
                  | None => None
                  end
              | _ => None
              end
            else
              match unescape e, parse_chars rest1 with
              | Some ch, Some (t, r) => Some (String ch t, r)
              | _, _ => None
              end
        | EmptyString => None
        end
      else if Nat.ltb (nat_of_ascii c) 32 then None
      else match parse_chars rest with
           | Some (t, r) => Some (String c t, r)
           | None => None
           end
  end.

Fixpoint parse_digits (s : string) (acc : Z) : Z * string :=
  match s with
  | String c rest =>
      if is_digit c then parse_digits rest (10 * acc + digit_value c)
      else (acc, s)
  | EmptyString => (acc, s)
  end.

Definition starts_with (p : ascii -> bool) (s : string) : bool :=
  match s with
  | String c _ => p c
  | EmptyString => false
  end.

Definition parse_number (s : string) : option (Z * string) :=
  let (neg, s1) :=
    match s with
    | String c r => if Ascii.eqb c "-"%char then (true, r) else (false, s)
    | EmptyString => (false, s)
    end in
  match s1 with
  | String c rest =>
      if negb (is_digit c) then None
      else if Ascii.eqb c "0"%char && starts_with is_digit rest then None
      else
        let (n, r) := parse_digits s1 0 in
        if starts_with (fun x => Ascii.eqb x "."%char || Ascii.eqb x "e"%char
                                 || Ascii.eqb x "E"%char) r
        then None
        else Some (if neg then - n else n, r)
  | EmptyString => None
  end.

Fixpoint strip_prefix (p s : string) : option string :=
  match p, s with
  | EmptyString, _ => Some s
  | String a p', String b s' => if Ascii.eqb a b then strip_prefix p' s' else None
  | String _ _, EmptyString => None
  end.

Definition literal (word : string) (v : value) (s : string)
  : option (value * string) :=
  match strip_prefix word s with
  | Some r => Some (v, r)
  | None => None
  end.

(** The text after a closing bracket, when the text starts with it. *)
Definition closing (bracket : ascii) (s : string) : option string :=
  match s with
  | String c r => if Ascii.eqb c bracket then Some r else None
  | EmptyString => None
  end.

Definition build_object (members : list (string * value)) : value :=
  Obj (fold_left (fun acc kv => define_prop (fst kv) (snd kv) acc) members []).

Fixpoint parse_value (fuel : nat) (s : string) : option (value * string) :=
  match fuel with
  | O => None
  | S fuel' =>
      match skip_ws s with
      | EmptyString => None
      | String c rest as s0 =>
          if Ascii.eqb c "n"%char then literal "null" Null s0
          else if Ascii.eqb c "t"%char then literal "true" (Bool true) s0
          else if Ascii.eqb c "f"%char then literal "false" (Bool false) s0
          else if Ascii.eqb c dquote then
            match parse_chars rest with
            | Some (t, r) => Some (Str t, r)
            | None => None
            end
          else if Ascii.eqb c "["%char then
            match closing "]"%char (skip_ws rest) with
            | Some r => Some (Arr [], r)
            | None =>
                match parse_elements fuel' rest with
                | Some (l, r) => Some (Arr l, r)
                | None => None
                end
            end
          else if Ascii.eqb c "{"%char then
            match closing "}"%char (skip_ws rest) with
            | Some r => Some (Obj [], r)
            | None =>
                match parse_members fuel' rest with
                | Some (l, r) => Some (build_object l, r)
                | None => None
                end
            end
          else match parse_number s0 with
               | Some (n, r) => Some (Num n, r)
               | None => None
               end
      end
  end
with parse_elements (fuel : nat) (s : string)
  : option (list value * string) :=
  match fuel with
  | O => None
  | S fuel' =>
      match parse_value fuel' s with
      | Some (v, r) =>
          match skip_ws r with
          | String c r1 =>
              if Ascii.eqb c ","%char then
                match parse_elements fuel' r1 with
                | Some (l, r2) => Some (v :: l, r2)
                | None => None
                end
              else if Ascii.eqb c "]"%char then Some ([v], r1)
              else None
          | EmptyString => None
          end
      | None => None
      end
  end
with parse_members (fuel : nat) (s : string)
  : option (list (string * value) * string) :=
  match fuel with
  | O => None
  | S fuel' =>
      match skip_ws s with
      | String q r0 =>
          if negb (Ascii.eqb q dquote) then None
          else
            match parse_chars r0 with
            | Some (k, r1) =>
                match skip_ws r1 with
                | String colon r2 =>
                    if negb (Ascii.eqb colon ":"%char) then None
                    else
                      match parse_value fuel' r2 with
                      | Some (v, r3) =>
                          match skip_ws r3 with
                          | String c r4 =>
                              if Ascii.eqb c ","%char then
                                match parse_members fuel' r4 with
                                | Some (l, r5) => Some ((k, v) :: l, r5)
                                | None => None
                                end
                              else if Ascii.eqb c "}"%char then Some ([(k, v)], r4)
                              else None
                          | EmptyString => None
                          end
                      | None => None
                      end
                | EmptyString => None
                end
            | None => None
            end
      | EmptyString => None
      end
  end.

(** [JSON.parse(text)]; [None] is a thrown [SyntaxError]. *)
Definition parse (text : string) : option value :=
  match parse_value (2 * String.length text + 2) text with
  | Some (v, r) =>
      match skip_ws r with
      | EmptyString => Some v
      | String _ _ => None
      end
  | None => None
  end.

(** ToString, applied by [JSON.parse] to an argument that is not a
    string. *)
Definition to_string_prim (v : value) : string :=
  match v with
  | Undefined => "undefined"
  | Null => "null"
  | Bool true => "true"
  | Bool false => "false"
  | Num n => string_of_Z n
  | Str s => s
  | Arr _ => ""
  | Obj _ => "[object Object]"
  | Bytes b => join "," (List.map (fun x => string_of_Z (byte_to_Z x)) b)
  end.

Fixpoint to_string (v : value) : string :=
  match v with
  | Arr l =>
      join "," (List.map (fun e => match e with
                                   | Undefined => ""
                                   | Null => ""
                                   | _ => to_string e
                                   end) l)
  | _ => to_string_prim v
  end.

End JS.


Import JS.

(** ** The platform

    What the program probes ([... in window]) and calls but does not
    define.  A function returning [option] throws when it returns
    [None]. *)

(** The calls the facade makes to a storage backend, as they are
    counted by the instrumentation of [World]. *)
Inductive BackendCall : Type :=
| Register
| PostMessage (type : string) (key : option string)
| CachesOpen (namespace : string)
| CachesDelete (namespace : string)
| CacheKeys (namespace : string)
| CacheMatch (namespace url : string)
| CachePut (namespace url : string)
| CacheDelete (namespace url : string).

Record Platform : Type := {
  (** ["serviceWorker" in navigator] *)
  serviceWorker_in_navigator : bool;
  (** ["crypto" in window && "subtle" in window.crypto] *)
  subtle_in_crypto : bool;
  CompressionStream_in_window : bool;
  DecompressionStream_in_window : bool;
  pako_in_window : bool;
  (** [navigator.serviceWorker.register("/cls.js")], [ready] and the
      wait for a controller *)
  register_succeeds : bool;
  (** writing to and draining a [CompressionStream("gzip")] *)
  gzip_stream : list byte -> option (list byte);
  (** writing to and draining a [DecompressionStream("gzip")] *)
  gunzip_stream : list byte -> option (list byte);
  (** [pako.gzip(data, { level })] *)
  pako_gzip : value -> Z -> option (list byte);
  (** [pako.ungzip(data, { to: "string" })] *)
  pako_ungzip : value -> option string;
  (** [btoa(String.fromCharCode.apply(null, bytes))] *)
  btoa_fromCharCode : list byte -> option string;
  (** [atob(str)] read back with [charCodeAt] *)
  atob_charCodes : string -> option (list byte);
  (** [crypto.subtle.importKey("raw", key, { name: "AES-GCM" }, ...)] *)
  importKey : list byte -> option (list byte);
  (** [crypto.subtle.encrypt({ name: "AES-GCM", iv }, key, data)] *)
  subtle_encrypt : list byte -> list byte -> list byte -> option (list byte);
  (** [crypto.subtle.decrypt({ name: "AES-GCM", iv }, key, data)] *)
  subtle_decrypt : list byte -> list byte -> list byte -> option (list byte);
  (** the n-th draw of [crypto.getRandomValues(new Uint8Array(12))] *)
  getRandomValues : nat -> list byte;
  (** whether a Cache API call rejects *)
  cache_fault : BackendCall -> bool;
}.

(** ** Types ([types.ts]) *)

Record CompressionOptions : Type := {
  enabled : bool;
  level : option Z;
  threshold : option Z;
}.

Record StorageOptions : Type := {
  opt_maxSize : option Z;
  opt_encryptionKey : option string;
  opt_namespace : option string;
  opt_cacheDuration : option Z;
  opt_compression : option CompressionOptions;
}.

Record StorageStats : Type := {
  used : Z;
  total : Z;
  available : Z;
  (** [(used / total) * 100] as an exact ratio; [None] when [total] is
      zero *)
  percentUsed : option Q;
}.

Inductive SchemaType : Type :=
| TString | TNumber | TBoolean | TObject | TArray.

Definition SchemaType_name (t : SchemaType) : string :=
  match t with
  | TString => "string"
  | TNumber => "number"
  | TBoolean => "boolean"
  | TObject => "object"
  | TArray => "array"
  end.

Record SchemaDefinition : Type := {
  type : SchemaType;
  required : option bool;
  validate : option (value -> bool);
}.

(** [Record<string, SchemaDefinition>], in the order of
    [Object.entries]. *)
Definition Schema : Type := list (string * SchemaDefinition).

Record StorageResult : Type := {
  success : bool;
  data : option value;
  error : option JsError;
}.

(** An entry of the worker's map. *)
Record StorageData : Type := {
  sd_data : value;
  sd_size : Z;
  sd_timestamp : Z;
}.

(** What [getCompressionStats] returns when it does not return
    [null]. *)
Record CompressionStats : Type := {
  cs_compressed : value;
  cs_originalSize : value;
  cs_compressedSize : value;
  (** [None] when the quotient is not a finite number *)
  cs_savingsPercent : option Q;
}.

(** A [Response] held by the Cache API. *)
Record Response : Type := {
  body : string;
  contentType : string;
  cacheControl : string;
  lastModified : Z;
}.

(** ** The state *)

Inductive PromiseState : Type := Pending | Fulfilled.

(** [this.compression], every field filled in by the constructor. *)
Record Compression : Type := {
  c_enabled : bool;
  c_level : Z;
  c_threshold : Z;
}.

(** The fields of a [CacheLocalStorage] instance. *)
Record CacheLocalStorage : Type := {
  baseUrl : string;
  maxSize : Z;
  encryptionKey : option string;
  namespace : string;
  cacheDuration : Z;
  hasWebCrypto : bool;
  initPromise : PromiseState;
  cacheStore : gmap string value;
  compression : Compression;
  hasServiceWorker : bool;
  currentSize : Z;
}.

Record World : Type := {
  (** the facade instance *)
  this : CacheLocalStorage;
  (** the origin's [CacheStorage]: cache name, then URL *)
  caches : gmap string (gmap string Response);
  (** the worker's [storage] map *)
  storage : gmap string StorageData;
  (** [Date.now()] *)
  now : Z;
  (** how many times [getRandomValues] was called *)
  entropy : nat;
  (** the backend calls made by the facade, latest first *)
  calls : list BackendCall;
}.

Definition with_this (f : CacheLocalStorage -> CacheLocalStorage) (w : World)
  : World :=
  {| this := f (this w); caches := caches w; storage := storage w;
     now := now w; entropy := entropy w; calls := calls w |}.

Definition with_caches
  (f : gmap string (gmap string Response) -> gmap string (gmap string Response))
  (w : World) : World :=
  {| this := this w; caches := f (caches w); storage := storage w;
     now := now w; entropy := entropy w; calls := calls w |}.

Definition with_storage
  (f : gmap string StorageData -> gmap string StorageData) (w : World)
  : World :=
  {| this := this w; caches := caches w; storage := f (storage w);
     now := now w; entropy := entropy w; calls := calls w |}.

Definition with_entropy (f : nat -> nat) (w : World) : World :=
  {| this := this w; caches := caches w; storage := storage w;
     now := now w; entropy := f (entropy w); calls := calls w |}.

Definition with_calls (f : list BackendCall -> list BackendCall) (w : World)
  : World :=
  {| this := this w; caches := caches w; storage := storage w;
     now := now w; entropy := entropy w; calls := f (calls w) |}.

Definition set_hasServiceWorker (b : bool) (t : CacheLocalStorage)
  : CacheLocalStorage :=
  {| baseUrl := baseUrl t; maxSize := maxSize t;
     encryptionKey := encryptionKey t; namespace := namespace t;
     cacheDuration := cacheDuration t; hasWebCrypto := hasWebCrypto t;
     initPromise := initPromise t; cacheStore := cacheStore t;
     compression := compression t; hasServiceWorker := b;
     currentSize := currentSize t |}.

Definition set_currentSize (n : Z) (t : CacheLocalStorage)
  : CacheLocalStorage :=
  {| baseUrl := baseUrl t; maxSize := maxSize t;
     encryptionKey := encryptionKey t; namespace := namespace t;
     cacheDuration := cacheDuration t; hasWebCrypto := hasWebCrypto t;
     initPromise := initPromise t; cacheStore := cacheStore t;
     compression := compression t; hasServiceWorker := hasServiceWorker t;
     currentSize := n |}.

Definition set_cacheStore (m : gmap string value) (t : CacheLocalStorage)
  : CacheLocalStorage :=
  {| baseUrl := baseUrl t; maxSize := maxSize t;
     encryptionKey := encryptionKey t; namespace := namespace t;
     cacheDuration := cacheDuration t; hasWebCrypto := hasWebCrypto t;
     initPromise := initPromise t; cacheStore := m;
     compression := compression t; hasServiceWorker := hasServiceWorker t;
     currentSize := currentSize t |}.

Definition set_initPromise (p : PromiseState) (t : CacheLocalStorage)
  : CacheLocalStorage :=
  {| baseUrl := baseUrl t; maxSize := maxSize t;
     encryptionKey := encryptionKey t; namespace := namespace t;
     cacheDuration := cacheDuration t; hasWebCrypto := hasWebCrypto t;
     initPromise := p; cacheStore := cacheStore t;
     compression := compression t; hasServiceWorker := hasServiceWorker t;
     currentSize := currentSize t |}.

(** ** The monad: state with exceptions

    A computation takes the world and gives a completion and the world
    it leaves; what was done before a throw stays done. *)

Definition M (A : Type) : Type := World -> Completion A * World.

Definition ret {A} (a : A) : M A := fun w => (Normal a, w).

Definition throw {A} (e : JsError) : M A := fun w => (Throw e, w).

Definition bind {A B} (m : M A) (k : A -> M B) : M B :=
  fun w =>
    match m w with
    | (Normal a, w') => k a w'
    | (Throw e, w') => (Throw e, w')
    end.

(** [try { m } catch (error) { h error }] *)
Definition try_catch {A} (m : M A) (h : JsError -> M A) : M A :=
  fun w =>
    match m w with
    | (Normal a, w') => (Normal a, w')
    | (Throw e, w') => h e w'
    end.

Definition lift {A} (c : Completion A) : M A := fun w => (c, w).

Definition read {A} (f : World -> A) : M A := fun w => (Normal (f w), w).

Definition modify (f : World -> World) : M unit := fun w => (Normal tt, f w).

Notation "x <~ c1 ;; c2" := (bind c1 (fun x => c2))
  (at level 100, c1 at next level, right associativity).
Notation "c1 ;;; c2" := (bind c1 (fun _ => c2))
  (at level 100, right associativity).

Definition or_throw {A} (e : JsError) (o : option A) : M A :=
  match o with
  | Some a => ret a
  | None => throw e
  end.

Fixpoint foldM {A B} (f : A -> B -> M A) (a : A) (l : list B) : M A :=
  match l with
  | [] => ret a
  | x :: l' => a' <~ f a x ;; foldM f a' l'
  end.

(** Coercions the program relies on. *)

(** ToNumber on the numbers of the model. *)
Definition to_number (v : value) : Z :=
  match v with
  | Num n => n
  | Bool true => 1
  | _ => 0
  end.

(** [new Uint8Array(v)] for the array of numbers [Array.from] made. *)
Definition to_Uint8Array (v : value) : list byte :=
  match v with
  | Arr l => List.map (fun e => byte_of_Z (to_number e)) l
  | Bytes b => b
  | _ => []
  end.

(** [Array.from(new Uint8Array(buffer))] *)
Definition Array_from (b : list byte) : value :=
  Arr (List.map (fun x => Num (byte_to_Z x)) b).

(** [new TextEncoder().encode(v)]; the argument defaults to the empty
    string. *)
Definition TextEncoder_encode (v : value) : list byte :=
  match v with
  | Undefined => []
  | _ => list_byte_of_string (to_string v)
  end.

(** [new TextDecoder().decode(bytes)], on the bytes it returns as they
    are: well-formed UTF-8 that does not begin with U+FEFF (see
    [survives_TextDecoder]).  The decoder of the platform drops a leading
    byte order mark and replaces malformed sequences, so a statement
    about an arbitrary string assumes the string is of that kind; the
    JSON text and the base64 text the facade decodes always are. *)
Definition TextDecoder_decode (b : list byte) : string :=
  string_of_list_byte b.

(** [v instanceof Uint8Array] *)
Definition instanceof_Uint8Array (v : value) : bool :=
  match v with Bytes _ => true | _ => false end.

(** [new Blob([v]).size] *)
Definition Blob_size (v : value) : Z :=
  match v with
  | Bytes b => Z.of_nat (List.length b)
  | _ => byteLength (to_string v)
  end.

(** [a !== b] where one side is a string or [undefined]: a typed array
    is never identical to either. *)
Definition strict_neq (a b : value) : bool :=
  match a, b with
  | Undefined, Undefined => false
  | Null, Null => false
  | Bool x, Bool y => negb (Bool.eqb x y)
  | Num x, Num y => negb (x =? y)
  | Str x, Str y => negb (String.eqb x y)
  | _, _ => true
  end.

(** [JSON.stringify(v)] as a value. *)
Definition JSON_stringify (v : value) : value :=
  match stringify v with
  | Some s => Str s
  | None => Undefined
  end.

(** [JSON.parse(v)] *)
Definition JSON_parse (v : value) : Completion value :=
  match parse (to_string v) with
  | Some r => Normal r
  | None => Throw (SyntaxError "Unexpected token in JSON")
  end.

(** [a ?? b] *)
Definition nullish (a b : value) : value :=
  match a with
  | Undefined => b
  | Null => b
  | _ => a
  end.

Definition key_configured (k : option string) : bool :=
  match k with
  | Some s => negb (String.eqb s "")
  | None => false
  end.

(** [o || d] on an optional number and an optional string. *)
Definition or_number (o : option Z) (d : Z) : Z :=
  match o with
  | Some n => if n =? 0 then d else n
  | None => d
  end.

Definition or_string (o : option string) (d : string) : string :=
  match o with
  | Some s => if String.eqb s "" then d else s
  | None => d
  end.

(** ** The service worker ([cls.js]) *)

Module Worker.

Definition CACHE_NAME : string := "application".

Definition defaultCacheDuration : Z := 31536000.

Inductive Message : Type :=
| Store (key : string) (data : value) (size : Z)
        (namespace : string) (cacheDuration : Z)
| Retrieve (key : string) (namespace : string) (cacheDuration : Z)
| Delete (key : string) (namespace : string) (cacheDuration : Z)
| Clear (namespace : string) (cacheDuration : Z)
| GetSize.

Definition url_of (key : string) : string :=
  "/cache-local-storage/storage/" +:+ key.

Definition response_of (cacheDuration : Z) (v : StorageData) : Response :=
  {| body := default "" (stringify (sd_data v));
     contentType := "application/json";
     cacheControl := "max-age=" +:+ string_of_Z cacheDuration;
     lastModified := sd_timestamp v |}.

(** [persistToCache]: one [cache.put] per entry of [storage].  The
    handler does not await it; it is taken here to have landed when the
    reply is read.  A cache is keyed by the URL as a string, where the
    Cache API compares parsed URLs without the fragment: exact for plain
    keys (see [plain]), under which two keys never share a URL. *)
Definition persistToCache (namespace : string) (cacheDuration : Z) (w : World)
  : World :=
  let cacheDuration :=
    if cacheDuration =? 0 then defaultCacheDuration else cacheDuration in
  let namespace :=
    if String.eqb namespace "" then CACHE_NAME else namespace in
  with_caches
    (fun cs =>
       <[namespace :=
           foldr (fun kv cache =>
                    <[url_of (fst kv) := response_of cacheDuration (snd kv)]> cache)
                 (default ∅ (cs !! namespace))
                 (map_to_list (storage w))]> cs)
    w.

Definition success_reply : value := Obj [("success", Bool true)].

(** The [message] listener: the reply posted on the port and the world
    it leaves. *)
Definition onmessage (msg : Message) (w : World) : value * World :=
  match msg with
  | Store key data size namespace cacheDuration =>
      let w1 :=
        with_storage
          (fun m => <[key := {| sd_data := data; sd_size := size;
                                sd_timestamp := now w |}]> m) w in
      (success_reply, persistToCache namespace cacheDuration w1)
  | Retrieve key _ _ =>
      (match storage w !! key with
       | Some d => nullish (sd_data d) Null
       | None => Null
       end, w)
  | Delete key namespace cacheDuration =>
      let w1 := with_storage (fun m => delete key m) w in
      (success_reply, persistToCache namespace cacheDuration w1)
  | Clear namespace cacheDuration =>
      let w1 := with_storage (fun _ => ∅) w in
      (success_reply, persistToCache namespace cacheDuration w1)
  | GetSize =>
      (Obj [("size",
             Num (foldr (fun kv totalSize => totalSize + sd_size (snd kv)) 0
                    (map_to_list (storage w))))], w)
  end.

Definition type_of (msg : Message) : string :=
  match msg with
  | Store _ _ _ _ _ => "store"
  | Retrieve _ _ _ => "retrieve"
  | Delete _ _ _ => "delete"
  | Clear _ _ => "clear"
  | GetSize => "getSize"
  end.

Definition key_of (msg : Message) : option string :=
  match msg with
  | Store k _ _ _ _ => Some k
  | Retrieve k _ _ => Some k
  | Delete k _ _ => Some k
  | Clear _ _ => None
  | GetSize => None
  end.

End Worker.

(** ** The facade ([class CacheLocalStorage]) *)

Section Facade.

Context (P : Platform).

(** *** The Cache API as the facade calls it *)

Definition record_call (c : BackendCall) : M unit :=
  modify (with_calls (cons c)).

(** A call to the Cache API is recorded, and rejects when the platform
    says so.  Whether it rejects is a function of the call
    ([cache_fault P]), so the same call rejects alike wherever it is
    made; a statement about a read that follows a write names the calls
    of the read it needs to succeed. *)
Definition cache_call (c : BackendCall) : M unit :=
  record_call c ;;;
  if cache_fault P c then throw (DOMException "UnknownError") else ret tt.

Definition cache_of (w : World) (name : string) : gmap string Response :=
  default ∅ (caches w !! name).

(** [caches.open(name)]: the cache is created when it is missing. *)
Definition caches_open (name : string) : M string :=
  cache_call (CachesOpen name) ;;;
  modify (fun w => with_caches (fun cs => <[name := cache_of w name]> cs) w) ;;;
  ret name.

(** [caches.delete(name)] *)
Definition caches_delete (name : string) : M bool :=
  cache_call (CachesDelete name) ;;;
  found <~ read (fun w => bool_decide (is_Some (caches w !! name))) ;;
  modify (with_caches (fun cs => delete name cs)) ;;;
  ret found.

(** [cache.keys()] *)
Definition cache_keys (cache : string) : M (list string) :=
  cache_call (CacheKeys cache) ;;;
  read (fun w => List.map fst (map_to_list (cache_of w cache))).

(** [cache.match(url)], by the URL as a string.  The Cache API compares
    parsed URLs without the fragment: exact for a plain key and a cache
    of plain URLs (see [plain], [plain_cache]). *)
Definition cache_match (cache url : string) : M (option Response) :=
  cache_call (CacheMatch cache url) ;;;
  read (fun w => cache_of w cache !! url).

(** [cache.put(url, response)], by the URL as a string; see
    [cache_match]. *)
Definition cache_put (cache url : string) (response : Response) : M unit :=
  cache_call (CachePut cache url) ;;;
  modify (fun w =>
            with_caches
              (fun cs => <[cache := <[url := response]> (cache_of w cache)]> cs) w).

(** [cache.delete(url)], by the URL as a string; see [cache_match]. *)
Definition cache_delete (cache url : string) : M bool :=
  cache_call (CacheDelete cache url) ;;;
  found <~ read (fun w => bool_decide (is_Some (cache_of w cache !! url))) ;;
  modify (fun w =>
            with_caches
              (fun cs => match cs !! cache with
                         | Some c => <[cache := delete url c]> cs
                         | None => cs
                         end) w) ;;;
  ret found.

(** *** Construction and initialisation *)

Definition constructor (options : StorageOptions) : CacheLocalStorage :=
  {| maxSize := or_number (opt_maxSize options) (50 * 1024 * 1024);
     encryptionKey := opt_encryptionKey options;
     namespace := or_string (opt_namespace options) "application";
     cacheDuration := or_number (opt_cacheDuration options) 31536000;
     baseUrl := "/cache-local-storage/storage/";
     hasServiceWorker := serviceWorker_in_navigator P;
     hasWebCrypto := subtle_in_crypto P;
     currentSize := 0;
     cacheStore := ∅;
     compression :=
       {| c_enabled := match opt_compression options with
                       | Some c => enabled c
                       | None => false
                       end;
          c_level := match opt_compression options with
                     | Some c => default 6 (level c)
                     | None => 6
                     end;
          c_threshold := match opt_compression options with
                         | Some c => default 1024 (threshold c)
                         | None => 1024
                         end |};
     initPromise := Pending |}.

(** [postServiceWorkerMessage]: the message goes to the worker and the
    promise resolves with the reply.  This is the page that has a
    controller, which [initServiceWorker] waits for: on a worker-backed
    facade, once the initialisation has completed (see [answered]).
    Before that [controller?.postMessage] sends nothing and the promise
    never settles, which the embedding does not express. *)
Definition postServiceWorkerMessage (message : Worker.Message) : M value :=
  record_call (PostMessage (Worker.type_of message) (Worker.key_of message)) ;;;
  fun w => let (reply, w') := Worker.onmessage message w in (Normal reply, w').

Definition initServiceWorker : M unit :=
  try_catch
    (record_call Register ;;;
     if register_succeeds P then ret tt
     else throw (TypeError "Failed to register a ServiceWorker"))
    (fun _ => modify (with_this (set_hasServiceWorker false))).

Definition calculateCacheSize (cache : string) (keys : list string) : M Z :=
  foldM (fun size key =>
           response <~ cache_match cache key ;;
           match response with
           | Some r => ret (size + byteLength (body r))
           | None => ret size
           end)
        0 keys.

Definition calculateCurrentSize : M Z :=
  try_catch
    (t <~ read this ;;
     if hasServiceWorker t then
       response <~ postServiceWorkerMessage Worker.GetSize ;;
       size <~ lift (get_prop response "size") ;;
       modify (with_this (set_currentSize (to_number size)))
     else
       cache <~ caches_open (namespace t) ;;
       keys <~ cache_keys cache ;;
       size <~ calculateCacheSize cache keys ;;
       modify (with_this (set_currentSize size)))
    (fun _ => modify (with_this (set_currentSize 0))) ;;;
  read (fun w => currentSize (this w)).

Definition init : M unit :=
  try_catch
    (t <~ read this ;;
     (if hasServiceWorker t then initServiceWorker else ret tt) ;;;
     _ <~ calculateCurrentSize ;;
     ret tt)
    (fun _ => ret tt).

(** [await this.initPromise]: the operation resumes once [init] has run
    to its end.  The promise is created by the constructor and settles
    once. *)
Definition await_initPromise : M unit :=
  t <~ read this ;;
  match initPromise t with
  | Fulfilled => ret tt
  | Pending => init ;;; modify (with_this (set_initPromise Fulfilled))
  end.

(** *** The codec *)

(** [dataToString]; [data] is what [compress] returned: a string, a
    [Uint8Array], or [undefined] when there was nothing to serialise. *)
Definition dataToString (data : value) : M string :=
  match data with
  | Str s => ret s
  | Bytes b =>
      or_throw (RangeError "Maximum call stack size exceeded")
        (btoa_fromCharCode P b)
  | Undefined => ret ""
  | _ => throw (TypeError "CreateListFromArrayLike called on non-object")
  end.

Definition stringToData (str : string) (wasCompressed : value) : M value :=
  if negb (truthy wasCompressed) then ret (Str str)
  else
    bytes <~ or_throw (DOMException "InvalidCharacterError")
               (atob_charCodes P str) ;;
    ret (Bytes bytes).

Definition draw_iv : M (list byte) :=
  n <~ read entropy ;;
  modify (with_entropy S) ;;;
  ret (getRandomValues P n).

Definition encrypt (data : value) : M value :=
  t <~ read this ;;
  if negb (key_configured (encryptionKey t)) || negb (hasWebCrypto t) then
    throw (Error "Encryption not available")
  else
    try_catch
      (stringData <~ dataToString data ;;
       let dataBuffer := list_byte_of_string stringData in
       key <~ or_throw (DOMException "DataError")
                (importKey P (list_byte_of_string
                                (default "" (encryptionKey t)))) ;;
       iv <~ draw_iv ;;
       encrypted <~ or_throw (DOMException "OperationError")
                      (subtle_encrypt P key iv dataBuffer) ;;
       ret (Obj [("data", Array_from encrypted);
                 ("iv", Array_from iv);
                 ("wasCompressed", Bool (instanceof_Uint8Array data))]))
      (fun error => throw error).

Definition decrypt (encryptedData : value) : M value :=
  t <~ read this ;;
  if negb (key_configured (encryptionKey t)) || negb (hasWebCrypto t) then
    throw (Error "Decryption not available")
  else
    try_catch
      (key <~ or_throw (DOMException "DataError")
                (importKey P (list_byte_of_string
                                (default "" (encryptionKey t)))) ;;
       iv <~ lift (get_prop encryptedData "iv") ;;
       ciphertext <~ lift (get_prop encryptedData "data") ;;
       decrypted <~ or_throw (DOMException "OperationError")
                      (subtle_decrypt P key (to_Uint8Array iv)
                         (to_Uint8Array ciphertext)) ;;
       let decryptedString := TextDecoder_decode decrypted in
       wasCompressed <~ lift (get_prop encryptedData "wasCompressed") ;;
       stringToData decryptedString wasCompressed)
      (fun error => throw error).

Definition type_error (key : string) (def : SchemaDefinition) (v : value)
  : JsError :=
  Error ("Invalid type for " +:+ key +:+ ": expected "
         +:+ SchemaType_name (type def) +:+ ", got " +:+ typeof v).

(** The body of the loop of [validateSchema] for one schema entry. *)
Definition validateField (data : value) (key : string) (def : SchemaDefinition)
  : Completion unit :=
  match get_prop data key with
  | Throw e => Throw e
  | Normal v =>
      if default false (required def) && is_undefined v then
        Throw (Error ("Required field missing: " +:+ key))
      else if negb (is_undefined v) then
        if negb (String.eqb (typeof v) (SchemaType_name (type def))) then
          Throw (type_error key def v)
        else
          match validate def with
          | Some f =>
              if negb (f v) then Throw (Error ("Validation failed for " +:+ key))
              else Normal tt
          | None => Normal tt
          end
      else Normal tt
  end.

Fixpoint validateSchema (data : value) (schema : Schema) : Completion bool :=
  match schema with
  | [] => Normal true
  | (key, def) :: rest =>
      match validateField data key def with
      | Throw e => Throw e
      | Normal _ => validateSchema data rest
      end
  end.

Definition compress (data : value) : M value :=
  t <~ read this ;;
  if negb (c_enabled (compression t)) then ret data
  else
    let bytes := TextEncoder_encode data in
    if Z.of_nat (List.length bytes) <? c_threshold (compression t) then ret data
    else
      try_catch
        (if CompressionStream_in_window P then
           compressed <~ or_throw (TypeError "CompressionStream failed")
                           (gzip_stream P bytes) ;;
           ret (Bytes compressed)
         else if pako_in_window P then
           compressed <~ or_throw (Error "pako.gzip failed")
                           (pako_gzip P data (c_level (compression t))) ;;
           ret (Bytes compressed)
         else ret data)
        (fun _ => ret data).

Definition decompress (data : value) : M value :=
  t <~ read this ;;
  if negb (c_enabled (compression t)) || String.eqb (typeof data) "string"
  then ret data
  else
    try_catch
      (if DecompressionStream_in_window P then
         match data with
         | Bytes b =>
             decompressed <~ or_throw (TypeError "The compressed data was not valid")
                               (gunzip_stream P b) ;;
             ret (Str (TextDecoder_decode decompressed))
         | _ => throw (TypeError "The provided value is not of type BufferSource")
         end
       else if pako_in_window P then
         decompressed <~ or_throw (Error "incorrect header check")
                           (pako_ungzip P data) ;;
         ret (Str decompressed)
       else throw (Error "No decompression method available"))
      (fun error => throw error).

(** *** The public operations *)

(** [(num / den) * 100] *)
Definition percent (num den : Z) : option Q :=
  if den =? 0 then None
  else Some (Qmult (Qdiv (inject_Z num) (inject_Z den)) (inject_Z 100)).

Definition savings (originalSize compressedSize : value) : option Q :=
  match originalSize, compressedSize with
  | Num o, Num c => percent (o - c) o
  | _, _ => None
  end.

(** [v?.k] *)
Definition optional_prop (v : value) (k : string) : Completion value :=
  match v with
  | Undefined => Normal Undefined
  | Null => Normal Undefined
  | _ => get_prop v k
  end.

(** Reading an entry from the backend, as [getItem] and
    [getCompressionStats] both do: [None] is the early return taken
    when [cache.match] finds no response. *)
Definition retrieve (key : string) : M (option value) :=
  t <~ read this ;;
  if hasServiceWorker t then
    storedData <~ postServiceWorkerMessage
                    (Worker.Retrieve key (namespace t) (cacheDuration t)) ;;
    ret (Some storedData)
  else
    cache <~ caches_open (namespace t) ;;
    response <~ cache_match cache (baseUrl t +:+ key) ;;
    match response with
    | None => ret None
    | Some r =>
        storedData <~ lift (JSON_parse (Str (body r))) ;;
        ret (Some storedData)
    end.

Definition getCompressionStats (key : string) : M (option CompressionStats) :=
  try_catch
    (fetched <~ retrieve key ;;
     match fetched with
     | None => ret None
     | Some storedData =>
         metadata <~ lift (optional_prop storedData "metadata") ;;
         if negb (truthy metadata) then ret None
         else
           originalSize <~ lift (get_prop metadata "originalSize") ;;
           compressedSize <~ lift (get_prop metadata "compressedSize") ;;
           compressed <~ lift (get_prop metadata "compressed") ;;
           ret (Some {| cs_compressed := compressed;
                        cs_originalSize := originalSize;
                        cs_compressedSize := compressedSize;
                        cs_savingsPercent :=
                          savings originalSize compressedSize |})
     end)
    (fun _ => ret None).

Definition storeInCache (url : string) (data : value) : M unit :=
  t <~ read this ;;
  date <~ read now ;;
  let response :=
    {| body := default "" (stringify data);
       contentType := "application/json";
       cacheControl := "max-age=" +:+ string_of_Z (cacheDuration t);
       lastModified := date |} in
  cache <~ caches_open (namespace t) ;;
  cache_put cache url response.

Definition succeeded (data : value) : StorageResult :=
  {| success := true; data := Some data; error := None |}.

Definition failed (e : JsError) : StorageResult :=
  {| success := false; data := None; error := Some e |}.

(** [compressed instanceof Uint8Array ? compressed.length
                                      : new Blob([compressed]).size] *)
Definition size_of (compressed : value) : Z :=
  match compressed with
  | Bytes b => Z.of_nat (List.length b)
  | _ => Blob_size compressed
  end.

(** The [storageData] literal of [setItem]. *)
Definition storageData_of (payload compressed serialized : value) (size : Z)
  : value :=
  Obj [("data", payload);
       ("metadata",
        Obj [("compressed", Bool (strict_neq compressed serialized));
             ("originalSize", Num (Blob_size serialized));
             ("compressedSize", Num size)])].

Definition setItem (key : string) (data : value) (schema : option Schema)
  : M StorageResult :=
  try_catch
    (await_initPromise ;;;
     match schema with
     | Some s => _ <~ lift (validateSchema data s) ;; ret tt
     | None => ret tt
     end ;;;
     let serialized := JSON_stringify data in
     compressed <~ compress serialized ;;
     let size := size_of compressed in
     t <~ read this ;;
     if currentSize t + size >? maxSize t then
       throw (Error "Storage quota exceeded")
     else
       payload <~ (if key_configured (encryptionKey t) then encrypt compressed
                   else ret compressed) ;;
       let storageData := storageData_of payload compressed serialized size in
       (if hasServiceWorker t then
          _ <~ postServiceWorkerMessage
                 (Worker.Store key storageData size (namespace t)
                    (cacheDuration t)) ;;
          ret tt
        else storeInCache (baseUrl t +:+ key) storageData) ;;;
       modify (with_this (fun t => set_currentSize (currentSize t + size) t)) ;;;
       modify (with_this
                 (fun t => set_cacheStore (<[key := data]> (cacheStore t)) t)) ;;;
       ret (succeeded data))
    (fun error => ret (failed error)).

Definition not_found : StorageResult := failed (Error "Item not found").

Definition getItem (key : string) : M StorageResult :=
  try_catch
    (await_initPromise ;;;
     t <~ read this ;;
     let cachedData := default Undefined (cacheStore t !! key) in
     if truthy cachedData then ret (succeeded cachedData)
     else
       fetched <~ retrieve key ;;
       match fetched with
       | None => ret not_found
       | Some storedData =>
           if negb (truthy storedData) then ret not_found
           else
             data <~ lift (get_prop storedData "data") ;;
             if negb (truthy data) then ret not_found
             else
               metadata0 <~ lift (get_prop storedData "metadata") ;;
               let metadata :=
                 if is_undefined metadata0 then Obj [] else metadata0 in
               decrypted <~ (if key_configured (encryptionKey t)
                             then decrypt data else ret data) ;;
               flag <~ lift (get_prop metadata "compressed") ;;
               decrypted <~ (if truthy flag then decompress decrypted
                             else ret decrypted) ;;
               parsed <~ lift (JSON_parse decrypted) ;;
               modify (with_this
                         (fun t => set_cacheStore
                                     (<[key := parsed]> (cacheStore t)) t)) ;;;
               ret (succeeded parsed)
       end)
    (fun error => ret (failed error)).

Definition updateItem (key : string) (updates : value) (schema : option Schema)
  : M StorageResult :=
  try_catch
    (current <~ getItem key ;;
     if negb (success current) || negb (truthy (default Undefined (data current)))
     then throw (Error ("Item with key " +:+ key +:+ " not found"))
     else
       let updatedData := spread2 (default Undefined (data current)) updates in
       setItem key updatedData schema)
    (fun error => ret (failed error)).

Definition removeItem (key : string) : M bool :=
  try_catch
    (t <~ read this ;;
     cache <~ caches_open (namespace t) ;;
     _ <~ cache_delete cache (baseUrl t +:+ key) ;;
     modify (with_this (fun t => set_cacheStore (delete key (cacheStore t)) t)) ;;;
     ret true)
    (fun _ => ret false).

Definition clear : M bool :=
  try_catch
    (t <~ read this ;;
     _ <~ caches_delete (namespace t) ;;
     modify (with_this (set_cacheStore ∅)) ;;;
     ret true)
    (fun _ => ret false).

Definition getStats : M StorageStats :=
  _ <~ calculateCurrentSize ;;
  t <~ read this ;;
  ret {| used := currentSize t;
         total := maxSize t;
         available := maxSize t - currentSize t;
         percentUsed := percent (currentSize t) (maxSize t) |}.

(** The public surface as one family: a call and what it returned. *)
Inductive Operation : Type :=
| OpSetItem (key : string) (data : value) (schema : option Schema)
| OpGetItem (key : string)
| OpUpdateItem (key : string) (updates : value) (schema : option Schema)
| OpRemoveItem (key : string)
| OpClear
| OpGetStats
| OpGetCompressionStats (key : string).

Inductive Returned : Type :=
| RResult (r : StorageResult)
| RBoolean (b : bool)
| RStats (s : StorageStats)
| RCompressionStats (s : CompressionStats)
| RNull.

Definition perform (op : Operation) : M Returned :=
  match op with
  | OpSetItem key data schema => r <~ setItem key data schema ;; ret (RResult r)
  | OpGetItem key => r <~ getItem key ;; ret (RResult r)
  | OpUpdateItem key updates schema =>
      r <~ updateItem key updates schema ;; ret (RResult r)
  | OpRemoveItem key => b <~ removeItem key ;; ret (RBoolean b)
  | OpClear => b <~ clear ;; ret (RBoolean b)
  | OpGetStats => s <~ getStats ;; ret (RStats s)
  | OpGetCompressionStats key =>
      s <~ getCompressionStats key ;;
      ret (match s with
           | Some s => RCompressionStats s
           | None => RNull
           end)
  end.

End Facade.

(** ** A reference platform

    A concrete browser on which the program can be run: real base64, a
    gzip that stores its input behind the gzip magic number, and a
    stand-in for AES-GCM with its interface and its lengths (raw keys of
    16, 24 or 32 bytes, a 16-byte tag after the ciphertext, a tag check
    on decryption).  The theorems below that quantify over [Platform]
    do not depend on it; it serves to run the program on concrete
    inputs. *)

Module Browser.

Definition alphabet : string :=
  "ABCDEFGHIJKLMNOPQRSTUVWXYZabcdefghijklmnopqrstuvwxyz0123456789+/".

Definition sextet_char (n : N) : ascii :=
  default "A"%char (String.get (N.to_nat n) alphabet).

Fixpoint btoa (l : list byte) : string :=
  match l with
  | [] => ""
  | [a] =>
      let x := Byte.to_N a in
      String (sextet_char (x / 4)) (String (sextet_char ((x mod 4) * 16)) "==")
  | [a; b] =>
      let x := Byte.to_N a in
      let y := Byte.to_N b in
      String (sextet_char (x / 4))
        (String (sextet_char ((x mod 4) * 16 + y / 16))
           (String (sextet_char ((y mod 16) * 4)) "="))
  | a :: b :: c :: rest =>
      let x := Byte.to_N a in
      let y := Byte.to_N b in
      let z := Byte.to_N c in
      String (sextet_char (x / 4))
        (String (sextet_char ((x mod 4) * 16 + y / 16))
           (String (sextet_char ((y mod 16) * 4 + z / 64))
              (String (sextet_char (z mod 64)) (btoa rest))))
  end%N.

Fixpoint index_of (c : ascii) (s : string) (i : N) : option N :=
  match s with
  | EmptyString => None
  | String c' s' => if Ascii.eqb c c' then Some i else index_of c s' (i + 1)%N
  end.

Definition sextet_value (c : ascii) : option N := index_of c alphabet 0%N.

Definition byte_of_N (n : N) : byte := byte_of_Z (Z.of_N n).

Fixpoint atob (s : string) : option (list byte) :=
  match s with
  | EmptyString => Some []
  | String a (String b (String c (String d rest))) =>
      match sextet_value a, sextet_value b with
      | Some x, Some y =>
          let b1 := byte_of_N (x * 4 + y / 16) in
          if Ascii.eqb c "="%char then
            if Ascii.eqb d "="%char && String.eqb rest "" then Some [b1]
            else None
          else
            match sextet_value c with
            | Some z =>
                let b2 := byte_of_N ((y mod 16) * 16 + z / 4) in
                if Ascii.eqb d "="%char then
                  if String.eqb rest "" then Some [b1; b2] else None
                else
                  match sextet_value d, atob rest with
                  | Some u, Some l =>
                      Some (b1 :: b2 :: byte_of_N ((z mod 4) * 64 + u) :: l)
                  | _, _ => None
                  end
            | None => None
            end
      | _, _ => None
      end
  | _ => None
  end%N.

(** gzip: the magic number, then the input as stored. *)
Definition gzip (b : list byte) : option (list byte) :=
  Some (x1f :: x8b :: b).

Definition gunzip (b : list byte) : option (list byte) :=
  match b with
  | x1f :: x8b :: rest => Some rest
  | _ => None
  end.

Definition xor_bits
  (a b : bool * (bool * (bool * (bool * (bool * (bool * (bool * bool)))))))
  : bool * (bool * (bool * (bool * (bool * (bool * (bool * bool)))))) :=
  let '(a0, (a1, (a2, (a3, (a4, (a5, (a6, a7))))))) := a in
  let '(b0, (b1, (b2, (b3, (b4, (b5, (b6, b7))))))) := b in
  (xorb a0 b0, (xorb a1 b1, (xorb a2 b2, (xorb a3 b3,
   (xorb a4 b4, (xorb a5 b5, (xorb a6 b6, xorb a7 b7))))))).

Definition xor_byte (a b : byte) : byte :=
  Byte.of_bits (xor_bits (Byte.to_bits a) (Byte.to_bits b)).

(** The i-th byte of the key stream. *)
Definition pad (key iv : list byte) (i : nat) : byte :=
  xor_byte (nth (i mod Nat.max 1 (List.length key)) key x00)
           (nth (i mod Nat.max 1 (List.length iv)) iv x00).

Fixpoint xor_from (key iv : list byte) (i : nat) (data : list byte)
  : list byte :=
  match data with
  | [] => []
  | x :: rest => xor_byte x (pad key iv i) :: xor_from key iv (S i) rest
  end.

Definition xor_with (key iv data : list byte) : list byte :=
  xor_from key iv 0 data.

Definition tag_of (key iv data : list byte) : list byte :=
  repeat (fold_left xor_byte (key ++ iv ++ data)%list x00) 16.

Fixpoint bytes_eqb (a b : list byte) : bool :=
  match a, b with
  | [], [] => true
  | x :: a', y :: b' => Byte.eqb x y && bytes_eqb a' b'
  | _, _ => false
  end.

Definition import_raw_key (key : list byte) : option (list byte) :=
  let n := List.length key in
  if Nat.eqb n 16 || Nat.eqb n 24 || Nat.eqb n 32 then Some key else None.

Definition seal (key iv data : list byte) : option (list byte) :=
  Some (xor_with key iv data ++ tag_of key iv data)%list.

Definition unseal (key iv sealed : list byte) : option (list byte) :=
  let n := (List.length sealed - 16)%nat in
  if Nat.ltb (List.length sealed) 16 then None
  else
    let data := xor_with key iv (firstn n sealed) in
    if bytes_eqb (skipn n sealed) (tag_of key iv data) then Some data else None.

Definition random_iv (n : nat) : list byte :=
  List.map (fun i => byte_of_Z (Z.of_nat (17 * n + 31 * i + 5))) (seq 0 12).

(** The browser: whether a service worker can be registered, and which
    Cache API calls reject. *)
Definition platform (worker : bool) (fault : BackendCall -> bool) : Platform :=
  {| serviceWorker_in_navigator := worker;
     subtle_in_crypto := true;
     CompressionStream_in_window := true;
     DecompressionStream_in_window := true;
     pako_in_window := false;
     register_succeeds := worker;
     gzip_stream := gzip;
     gunzip_stream := gunzip;
     pako_gzip := fun data _ => gzip (TextEncoder_encode data);
     pako_ungzip := fun data =>
                      match data with
                      | Bytes b => option_map TextDecoder_decode (gunzip b)
                      | _ => None
                      end;
     btoa_fromCharCode := fun b => Some (btoa b);
     atob_charCodes := atob;
     importKey := import_raw_key;
     subtle_encrypt := seal;
     subtle_decrypt := unseal;
     getRandomValues := random_iv;
     cache_fault := fault |}.

Definition healthy (c : BackendCall) : bool := false.

(** A page controlled by the worker, and a page without one. *)
Definition with_worker : Platform := platform true healthy.
Definition direct : Platform := platform false healthy.

(** The world just after [new CacheLocalStorage(options)] on a fresh
    origin. *)
Definition fresh (P : Platform) (options : StorageOptions) : World :=
  {| this := constructor P options;
     caches := ∅;
     storage := ∅;
     now := 1700000000000;
     entropy := 0;
     calls := [] |}.

Definition no_options : StorageOptions :=
  {| opt_maxSize := None; opt_encryptionKey := None; opt_namespace := None;
     opt_cacheDuration := None; opt_compression := None |}.

(** [{ maxSize: 1024, compression: { enabled: false } }] *)
Definition small_options : StorageOptions :=
  {| opt_maxSize := Some 1024; opt_encryptionKey := None;
     opt_namespace := None; opt_cacheDuration := None;
     opt_compression :=
       Some {| enabled := false; level := None; threshold := None |} |}.

(** Compression from the first byte on, with or without a key. *)
Definition codec_options (compress : bool) (key : option string)
  : StorageOptions :=
  {| opt_maxSize := None; opt_encryptionKey := key; opt_namespace := None;
     opt_cacheDuration := None;
     opt_compression :=
       Some {| enabled := compress; level := None; threshold := Some 1 |} |}.

Definition sample_key : string := "0123456789abcdef0123456789abcdef".

(** Dropping the facade's read cache, as a reload of the page does. *)
Definition forget (w : World) : World := with_this (set_cacheStore ∅) w.

End Browser.

(** * The vocabulary of the properties *)

(** ** Computations *)

(** [returns m]: [m] never throws. *)
Definition returns {A} (m : M A) : Prop :=
  forall w, exists a w', m w = (Normal a, w').

(** [ensures m Q]: what [m] returns satisfies [Q]. *)
Definition ensures {A} (m : M A) (Q : A -> Prop) : Prop :=
  forall w a w', m w = (Normal a, w') -> Q a.

(** [raises m Q]: what [m] throws satisfies [Q]. *)
Definition raises {A} (m : M A) (Q : JsError -> Prop) : Prop :=
  forall w e w', m w = (Throw e, w') -> Q e.

(** [yields m Q]: what [m] returns and the world it leaves satisfy
    [Q]. *)
Definition yields {A} (m : M A) (Q : A -> World -> Prop) : Prop :=
  forall w a w', m w = (Normal a, w') -> Q a w'.

(** ** Stages of the operations *)

Section Stages.

Context (P : Platform).

(** The world an operation resumes in after [await this.initPromise]. *)
Definition initialised (w : World) : World := snd (await_initPromise P w).

(** What the loop body decides for one schema entry, as a predicate on
    the value read. *)
Definition field_ok (def : SchemaDefinition) (v : value) : bool :=
  if is_undefined v then negb (default false (required def))
  else String.eqb (typeof v) (SchemaType_name (type def))
       && match validate def with
          | Some f => f v
          | None => true
          end.

(** A write passes the schema gate: no schema, or a schema the value
    satisfies. *)
Definition validated (data : value) (schema : option Schema) : Prop :=
  match schema with
  | Some s => validateSchema data s = Normal true
  | None => True
  end.

Definition quota_exceeded : JsError := Error "Storage quota exceeded".

Definition not_quota (e : JsError) : Prop := e <> quota_exceeded.

(** [size] in [setItem]: the byte length of what [compress] returns for
    the serialised value. *)
Definition newEntrySize (data : value) (w : World) : Z :=
  match compress P (JSON_stringify data) w with
  | (Normal compressed, _) => size_of compressed
  | (Throw _, _) => 0
  end.

(** [setItem] after the quota check: encryption, the backend, then the
    size counter and the read cache. *)
Definition store_and_commit (key : string) (data compressed : value)
  (t : CacheLocalStorage) : M StorageResult :=
  let serialized := JSON_stringify data in
  let size := size_of compressed in
  payload <~ (if key_configured (encryptionKey t) then encrypt P compressed
              else ret compressed) ;;
  let storageData := storageData_of payload compressed serialized size in
  (if hasServiceWorker t then
     _ <~ postServiceWorkerMessage
            (Worker.Store key storageData size (namespace t)
               (cacheDuration t)) ;;
     ret tt
   else storeInCache P (baseUrl t +:+ key) storageData) ;;;
  modify (with_this (fun t => set_currentSize (currentSize t + size) t)) ;;;
  modify (with_this
            (fun t => set_cacheStore (<[key := data]> (cacheStore t)) t)) ;;;
  ret (succeeded data).

(** [setItem] from the quota check on, for the output [compressed] of
    the compression step. *)
Definition check_and_store (key : string) (data compressed : value)
  : M StorageResult :=
  t <~ read this ;;
  if currentSize t + size_of compressed >? maxSize t then throw quota_exceeded
  else store_and_commit key data compressed t.

(** [getItem] after the backend read: the two guards, the decode
    pipeline, the read cache. *)
Definition decode_and_cache (key : string) (t : CacheLocalStorage)
  (storedData : value) : M StorageResult :=
  if negb (truthy storedData) then ret not_found
  else
    data <~ lift (get_prop storedData "data") ;;
    if negb (truthy data) then ret not_found
    else
      metadata0 <~ lift (get_prop storedData "metadata") ;;
      let metadata := if is_undefined metadata0 then Obj [] else metadata0 in
      decrypted <~ (if key_configured (encryptionKey t)
                    then decrypt P data else ret data) ;;
      flag <~ lift (get_prop metadata "compressed") ;;
      decrypted <~ (if truthy flag then decompress P decrypted
                    else ret decrypted) ;;
      parsed <~ lift (JSON_parse decrypted) ;;
      modify (with_this
                (fun t => set_cacheStore (<[key := parsed]> (cacheStore t)) t)) ;;;
      ret (succeeded parsed).

(** [getItem] after a miss in the read cache. *)
Definition read_through (key : string) (t : CacheLocalStorage)
  : M StorageResult :=
  fetched <~ retrieve P key ;;
  match fetched with
  | None => ret not_found
  | Some storedData => decode_and_cache key t storedData
  end.

(** What the codec asks of the platform: the two compression streams
    come together, and each decoder undoes its encoder. *)
Record lawful : Prop := {
  streams_together :
    CompressionStream_in_window P = DecompressionStream_in_window P;
  gunzip_gzip :
    forall b c, gzip_stream P b = Some c -> gunzip_stream P c = Some b;
  ungzip_gzip :
    forall s l c, pako_gzip P (Str s) l = Some c ->
                  pako_ungzip P (Bytes c) = Some s;
  atob_btoa :
    forall b t, btoa_fromCharCode P b = Some t -> atob_charCodes P t = Some b;
  decrypt_encrypt :
    forall k iv pt ct, subtle_encrypt P k iv pt = Some ct ->
                       subtle_decrypt P k iv ct = Some pt;
}.

End Stages.

(** ** Entries and results *)

(** [metadata.compressed], [metadata.originalSize],
    [metadata.compressedSize] and [data] of an entry. *)
Definition metadata_of (entry : value) (field : string) : value :=
  match get_prop entry "metadata" with
  | Normal m => match get_prop m field with
                | Normal v => v
                | Throw _ => Undefined
                end
  | Throw _ => Undefined
  end.

Definition payload_of (entry : value) : value :=
  match get_prop entry "data" with
  | Normal v => v
  | Throw _ => Undefined
  end.

(** The entry the worker holds under a key. *)
Definition entry_at (w : World) (key : string) : value :=
  match storage w !! key with
  | Some d => sd_data d
  | None => Undefined
  end.

(** The entry is with the backend under [key]: in the worker's map with
    its size, or in the namespace's cache as the JSON text of the
    entry. *)
Definition handed_over (w' : World) (key : string) (entry : value) (size : Z)
  : Prop :=
  if hasServiceWorker (this w') then
    exists timestamp,
      storage w' !! key
      = Some {| sd_data := entry; sd_size := size; sd_timestamp := timestamp |}
  else
    exists r,
      cache_of w' (namespace (this w')) !! (baseUrl (this w') +:+ key) = Some r
      /\ body r = default "" (stringify entry).

Definition update_not_found (key : string) : StorageResult :=
  failed (Error ("Item with key " +:+ key +:+ " not found")).

(** The value a successful result carries is in the read cache. *)
Definition cached (key : string) (r : StorageResult) (w' : World) : Prop :=
  success r = true ->
  exists v, data r = Some v
            /\ default Undefined (cacheStore (this w') !! key) = v.

(** A result object carries [success] and either [data] or [error]. *)
Definition well_formed (r : StorageResult) : Prop :=
  (success r = true /\ is_Some (data r) /\ error r = None)
  \/ (success r = false /\ data r = None /\ is_Some (error r)).

(** What C4 asks of every operation. *)
Definition structured (r : Returned) : Prop :=
  exists res, r = RResult res /\ well_formed res.

(** What each operation returns. *)
Definition shape (op : Operation) (r : Returned) : Prop :=
  match op with
  | OpSetItem _ _ _ => structured r
  | OpGetItem _ => structured r
  | OpUpdateItem _ _ _ => structured r
  | OpRemoveItem _ => exists b, r = RBoolean b
  | OpClear => exists b, r = RBoolean b
  | OpGetStats => exists s, r = RStats s
  | OpGetCompressionStats _ => r = RNull \/ exists s, r = RCompressionStats s
  end.

(** ** JSON text *)

(** Horner evaluation of a decimal numeral. *)
Fixpoint horner (d : Decimal.uint) (acc : Z) : Z :=
  match d with
  | Decimal.Nil => acc
  | Decimal.D0 l => horner l (10 * acc + 0)
  | Decimal.D1 l => horner l (10 * acc + 1)
  | Decimal.D2 l => horner l (10 * acc + 2)
  | Decimal.D3 l => horner l (10 * acc + 3)
  | Decimal.D4 l => horner l (10 * acc + 4)
  | Decimal.D5 l => horner l (10 * acc + 5)
  | Decimal.D6 l => horner l (10 * acc + 6)
  | Decimal.D7 l => horner l (10 * acc + 7)
  | Decimal.D8 l => horner l (10 * acc + 8)
  | Decimal.D9 l => horner l (10 * acc + 9)
  end.

(** What may follow a value inside JSON text. *)
Definition closes (rest : string) : Prop :=
  match rest with
  | EmptyString => True
  | String c _ => c = ","%char \/ c = "]"%char \/ c = "}"%char
  end.

Fixpoint fresh_keys (l : list (string * value)) : bool :=
  match l with
  | [] => true
  | (k, _) :: r =>
      negb (existsb (fun kv => String.eqb k (fst kv)) r) && fresh_keys r
  end.

Fixpoint all_values (f : value -> bool) (l : list (string * value)) : bool :=
  match l with
  | [] => true
  | (_, v) :: r => f v && all_values f r
  end.

(** The values JSON can carry: no [undefined], no typed array, and in
    an object no key twice. *)
Fixpoint json (v : value) : bool :=
  match v with
  | Undefined => false
  | Bytes _ => false
  | Arr l => forallb json l
  | Obj l => all_values json l && fresh_keys l
  | _ => true
  end.

(** Fuel that suffices to read a value back. *)
Fixpoint weight (v : value) : nat :=
  match v with
  | Arr l => 2 + list_sum (List.map weight l)
  | Obj l => 2 + list_sum (List.map (fun kv => weight (snd kv)) l)
  | _ => 1
  end.

Definition text_of (v : value) : string := default "null" (stringify v).

(** The fuel [parse] starts with covers the weight. *)
Definition bounded (v : value) : Prop :=
  (weight v <= 2 * String.length (text_of v))%nat.

(** The first character of a value's text. *)
Definition opens (c : ascii) : bool :=
  is_digit c
  || existsb (Ascii.eqb c)
       ["-"%char; "n"%char; "t"%char; "f"%char; dquote; "["%char; "{"%char].

Definition member_text (kv : string * value) : string :=
  member (fst kv) (text_of (snd kv)).

(** A value whose text reads back as the value. *)
Definition reads_back (v : value) : Prop :=
  stringify v = Some (text_of v)
  /\ (exists c t, text_of v = String c t /\ opens c = true)
  /\ forall fuel rest,
       (weight v <= fuel)%nat -> closes rest ->
       parse_value fuel (text_of v +:+ rest) = Some (v, rest).

(** ** Frames and measures *)

(** [quiet w w']: [w'] is [w] with more backend calls on record; the
    facade, the worker's map and the content of every cache are the
    same. *)
Definition quiet (w w' : World) : Prop :=
  this w' = this w /\ storage w' = storage w /\ now w' = now w
  /\ entropy w' = entropy w /\ forall n, cache_of w' n = cache_of w n.

(** [silent m]: [m] leaves a quiet world, whatever its outcome. *)
Definition silent {A} (m : M A) : Prop :=
  forall w r w', m w = (r, w') -> quiet w w'.

(** The bytes the namespace's cache holds, as [calculateCacheSize] adds
    them up. *)
Definition cached_bytes (c : gmap string Response) : Z :=
  foldr (fun kv size => size + byteLength (body (snd kv))) 0 (map_to_list c).

(** [reads key w w']: what a read of [key] may change: the record of
    calls, and the read cache at [key]. *)
Definition reads (key : string) (w w' : World) : Prop :=
  storage w' = storage w /\ now w' = now w /\ entropy w' = entropy w
  /\ (forall n, cache_of w' n = cache_of w n)
  /\ (this w' = this w
      \/ exists v, this w'
                   = set_cacheStore (<[key := v]> (cacheStore (this w))) (this w)).

Definition frames {A} (m : M A) (R : World -> World -> Prop) : Prop :=
  forall w r w', m w = (r, w') -> R w w'.

(** A page outside a secure context: the same platform without
    [crypto.subtle]. *)
Definition insecure_context (p : Platform) : Platform :=
  {| serviceWorker_in_navigator := serviceWorker_in_navigator p;
     subtle_in_crypto := false;
     CompressionStream_in_window := CompressionStream_in_window p;
     DecompressionStream_in_window := DecompressionStream_in_window p;
     pako_in_window := pako_in_window p;
     register_succeeds := register_succeeds p;
     gzip_stream := gzip_stream p;
     gunzip_stream := gunzip_stream p;
     pako_gzip := pako_gzip p;
     pako_ungzip := pako_ungzip p;
     btoa_fromCharCode := btoa_fromCharCode p;
     atob_charCodes := atob_charCodes p;
     importKey := importKey p;
     subtle_encrypt := subtle_encrypt p;
     subtle_decrypt := subtle_decrypt p;
     getRandomValues := getRandomValues p;
     cache_fault := cache_fault p |}.

(** The sizes the worker adds up for ["getSize"]. *)
Definition stored_bytes (m : gmap string StorageData) : Z :=
  foldr (fun kv totalSize => totalSize + sd_size (snd kv)) 0 (map_to_list m).

(** The statistics [getStats] makes of a size counter. *)
Definition stats_of (size : Z) (t : CacheLocalStorage) : StorageStats :=
  {| used := size; total := maxSize t; available := maxSize t - size;
     percentUsed := percent size (maxSize t) |}.

(** [resized w w']: the size counter was written, nothing else. *)
Definition resized (w w' : World) : Prop :=
  storage w' = storage w /\ (forall n, cache_of w' n = cache_of w n)
  /\ this w' = set_currentSize (currentSize (this w')) (this w).

(** What [getCompressionStats] reports for the entry [setItem] makes of a
    compression output. *)
Definition stats_for (compressed serialized : value) : CompressionStats :=
  {| cs_compressed := Bool (strict_neq compressed serialized);
     cs_originalSize := Num (Blob_size serialized);
     cs_compressedSize := Num (size_of compressed);
     cs_savingsPercent :=
       percent (Blob_size serialized - size_of compressed)
         (Blob_size serialized) |}.

(** A browser in which registering the worker fails. *)
Definition registration_fails (p : Platform) : Platform :=
  {| serviceWorker_in_navigator := serviceWorker_in_navigator p;
     subtle_in_crypto := subtle_in_crypto p;
     CompressionStream_in_window := CompressionStream_in_window p;
     DecompressionStream_in_window := DecompressionStream_in_window p;
     pako_in_window := pako_in_window p;
     register_succeeds := false;
     gzip_stream := gzip_stream p;
     gunzip_stream := gunzip_stream p;
     pako_gzip := pako_gzip p;
     pako_ungzip := pako_ungzip p;
     btoa_fromCharCode := btoa_fromCharCode p;
     atob_charCodes := atob_charCodes p;
     importKey := importKey p;
     subtle_encrypt := subtle_encrypt p;
     subtle_decrypt := subtle_decrypt p;
     getRandomValues := getRandomValues p;
     cache_fault := cache_fault p |}.

(** The fields of the facade that are declared [readonly] and set by
    the constructor from the options. *)
Definition settings (t : CacheLocalStorage)
  : string * Z * option string * string * Z * bool * Compression :=
  (baseUrl t, maxSize t, encryptionKey t, namespace t, cacheDuration t,
   hasWebCrypto t, compression t).

(** ** The inputs on which the platform is modelled exactly *)

(** A key the URL parser leaves as it is: letters, digits, [-] and [_].
    The URL of such a key has no fragment, no query, no escape and no
    dot segment, so two of them match in the Cache API exactly when the
    keys are the same string. *)
Definition plain_char (c : ascii) : bool :=
  let n := nat_of_ascii c in
  (Nat.leb 48 n && Nat.leb n 57) || (Nat.leb 65 n && Nat.leb n 90)
  || (Nat.leb 97 n && Nat.leb n 122) || Nat.eqb n 45 || Nat.eqb n 95.

Fixpoint plain (k : string) : bool :=
  match k with
  | EmptyString => true
  | String c k' => plain_char c && plain k'
  end.

(** A URL made of the facade's base URL and a plain key. *)
Definition plain_url (base url : string) : bool :=
  match strip_prefix base url with
  | Some k => plain k
  | None => false
  end.

(** A cache that holds responses under such URLs only. *)
Definition plain_cache (base : string) (c : gmap string Response) : bool :=
  forallb (fun kv => plain_url base (fst kv)) (map_to_list c).

(** A worker's map whose keys are all plain. *)
Definition plain_keys (m : gmap string StorageData) : bool :=
  forallb (fun kv => plain (fst kv)) (map_to_list m).

(** Well-formed UTF-8 (the Unicode Standard, table 3-7). *)
Definition between (lo hi : N) (b : byte) : bool :=
  (N.leb lo (Byte.to_N b) && N.leb (Byte.to_N b) hi)%N.

Definition continuation (b : byte) : bool := between 128 191 b.

Fixpoint utf8_well_formed (l : list byte) : bool :=
  match l with
  | [] => true
  | a :: l1 =>
      if between 0 127 a then utf8_well_formed l1
      else if between 194 223 a then
        match l1 with
        | b :: l2 => continuation b && utf8_well_formed l2
        | _ => false
        end
      else if between 224 239 a then
        match l1 with
        | b :: c :: l3 =>
            (if between 224 224 a then between 160 191 b
             else if between 237 237 a then between 128 159 b
             else continuation b)
            && continuation c && utf8_well_formed l3
        | _ => false
        end
      else if between 240 244 a then
        match l1 with
        | b :: c :: d :: l4 =>
            (if between 240 240 a then between 144 191 b
             else if between 244 244 a then between 128 143 b
             else continuation b)
            && continuation c && continuation d && utf8_well_formed l4
        | _ => false
        end
      else false
  end.

(** A string that begins with U+FEFF, the byte order mark. *)
Definition BOM_led (s : string) : bool :=
  match list_byte_of_string s with
  | xef :: xbb :: xbf :: _ => true
  | _ => false
  end.

(** The strings [new TextDecoder().decode] gives back as
    [new TextEncoder().encode] was given them: the decoder replaces
    ill-formed sequences and drops a leading U+FEFF. *)
Definition survives_TextDecoder (s : string) : bool :=
  utf8_well_formed (list_byte_of_string s) && negb (BOM_led s).

(** The operations that post to the worker without awaiting the
    initialisation. *)
Definition posts_unawaited (op : Operation) : bool :=
  match op with
  | OpGetStats => true
  | OpGetCompressionStats _ => true
  | _ => false
  end.

(** The worker answers: a facade that posts to it has been initialised,
    so the page has a controller.  A message posted before that is sent
    to nobody, and its promise never settles. *)
Definition answered (w : World) : Prop :=
  hasServiceWorker (this w) = true -> initPromise (this w) = Fulfilled.

(** ** Sample inputs *)

(** A facade on a fresh origin once its initialisation has run. *)
Definition ready (P : Platform) (options : StorageOptions) : World :=
  initialised P (Browser.fresh P options).

Definition tiny_options : StorageOptions :=
  {| opt_maxSize := Some 10; opt_encryptionKey := None;
     opt_namespace := None; opt_cacheDuration := None;
     opt_compression := None |}.

(** A schema of the README: a required string [name] that must not be
    empty. *)
Definition name_schema : Schema :=
  [("name", {| type := TString; required := Some true;
               validate := Some (fun v => negb (String.eqb (to_string v) "")) |})].

Definition tags_schema : Schema :=
  [("tags", {| type := TArray; required := Some true; validate := None |})].

(** [{ x: 1 }] *)
Definition x1 : value := Obj [("x", Num 1)].

(** [{ name: "John", age: 30 }] and [{ age: 31 }] *)
Definition john : value := Obj [("name", Str "John"); ("age", Num 30)].

Definition age_31 : value := Obj [("age", Num 31)].

(** The world after [setItem(key, v)] on a fresh, initialised facade. *)
Definition stored (P : Platform) (options : StorageOptions) (key : string)
  (v : value) : World :=
  snd (setItem P key v None (ready P options)).

(** A page load later: a new facade over what an earlier one left in
    the Cache API and in the worker. *)
Definition reload (P : Platform) (options : StorageOptions) (w : World)
  : World :=
  {| this := constructor P options;
     caches := caches w;
     storage := storage w;
     now := now w;
     entropy := entropy w;
     calls := [] |}.

(** The four steps of the lifecycle scenario, from a facade constructed
    with [{ maxSize: 1024, compression: { enabled: false } }]. *)
Definition after_set (P : Platform) : World :=
  snd (setItem P "a" x1 None (Browser.fresh P Browser.small_options)).

Definition after_get (P : Platform) : World :=
  snd (getItem P "a" (after_set P)).

Definition after_remove (P : Platform) : World :=
  snd (removeItem P "a" (after_get P)).

(** * Properties *)

(** ** JSON text reads back *)

Lemma parse_digits_numeral d : forall rest acc,
  starts_with is_digit rest = false ->
  parse_digits (NilEmpty.string_of_uint d ++ rest) acc = (horner d acc, rest).
Proof.
  induction d; intros rest acc Hr; simpl;
    try (rewrite IHd by exact Hr; reflexivity).
  destruct rest as [ | c rest ]; [ reflexivity | ].
  simpl in Hr. simpl. rewrite Hr. reflexivity.
Qed.

Lemma horner_pos d : forall acc,
  horner d (Z.pos acc) = Z.pos (Pos.of_uint_acc d acc).
Proof.
  induction d; intros acc; simpl; try reflexivity;
    rewrite <- IHd; f_equal; lia.
Qed.

Lemma horner_zero d : horner d 0 = Z.of_N (Pos.of_uint d).
Proof.
  induction d; simpl; try reflexivity; try exact IHd;
    rewrite <- horner_pos; reflexivity.
Qed.

Lemma to_uint_no_leading_zero p l : Pos.to_uint p <> Decimal.D0 l.
Proof.
  intros H.
  assert (Hn : Decimal.unorm (Pos.to_uint p) = Pos.to_uint p).
  { rewrite <- (DecimalPos.Unsigned.to_of (Pos.to_uint p)).
    rewrite DecimalPos.Unsigned.of_to. reflexivity. }
  rewrite H in Hn.
  change (Decimal.unorm (Decimal.D0 l)) with (Decimal.unorm l) in Hn.
  destruct l;
    try (match type of Hn with
         | Decimal.unorm ?l = _ =>
             pose proof (nb_digits_unorm l ltac:(discriminate)) as Hd;
             rewrite Hn in Hd; simpl in Hd; lia
         end).
  exact (Unsigned.to_uint_nonzero p H).
Qed.

Lemma closes_not_digit rest :
  closes rest ->
  starts_with is_digit rest = false
  /\ starts_with (fun x => Ascii.eqb x "."%char || Ascii.eqb x "e"%char
                           || Ascii.eqb x "E"%char) rest = false.
Proof.
  destruct rest as [ | c rest ]; simpl; [ split; reflexivity | ].
  intros [-> | [-> | ->]]; split; reflexivity.
Qed.

Lemma numeral_head p :
  exists c t, NilEmpty.string_of_uint (Pos.to_uint p) = String c t
              /\ is_digit c = true
              /\ (Ascii.eqb c "0"%char = false).
Proof.
  pose proof (to_uint_no_leading_zero p) as Hz.
  pose proof (Unsigned.to_uint_nonnil p) as Hn.
  destruct (Pos.to_uint p); simpl;
    try (eexists; eexists; split; [ reflexivity | split; reflexivity ]).
  - contradiction.
  - exfalso. exact (Hz _ eq_refl).
Qed.

Lemma string_of_uint_pos p :
  NilZero.string_of_uint (Pos.to_uint p) = NilEmpty.string_of_uint (Pos.to_uint p).
Proof.
  pose proof (Unsigned.to_uint_nonnil p) as Hn.
  unfold NilZero.string_of_uint. destruct (Pos.to_uint p); try reflexivity.
  contradiction.
Qed.

Lemma parse_number_digits c t rest n :
  is_digit c = true ->
  Ascii.eqb c "0"%char = false ->
  parse_digits (String c (t +:+ rest)) 0 = (n, rest) ->
  starts_with (fun x => Ascii.eqb x "."%char || Ascii.eqb x "e"%char
                        || Ascii.eqb x "E"%char) rest = false ->
  parse_number (String c (t +:+ rest)) = Some (n, rest)
  /\ parse_number (String "-"%char (String c (t +:+ rest))) = Some (- n, rest).
Proof.
  intros Hdig Hnz Hp He.
  assert (Hm : Ascii.eqb c "-"%char = false).
  { destruct (Ascii.eqb_spec c "-"%char) as [-> | ]; [ discriminate Hdig | reflexivity ]. }
  unfold parse_number. rewrite Hm.
  change (Ascii.eqb "-" "-") with true. cbv iota.
  rewrite Hdig, Hnz. cbn [negb andb].
  rewrite Hp, He. split; reflexivity.
Qed.

Lemma parse_number_zero rest :
  starts_with is_digit rest = false ->
  starts_with (fun x => Ascii.eqb x "."%char || Ascii.eqb x "e"%char
                        || Ascii.eqb x "E"%char) rest = false ->
  parse_number (String "0"%char rest) = Some (0, rest).
Proof.
  intros Hd He. unfold parse_number.
  change (Ascii.eqb "0" "-") with false. cbv iota.
  change (is_digit "0") with true. change (Ascii.eqb "0" "0") with true.
  cbn [negb andb]. rewrite Hd. cbn [parse_digits].
  change (is_digit "0") with true. cbv iota.
  change (10 * 0 + digit_value "0") with 0.
  destruct rest as [ | c rest ]; [ reflexivity | ].
  cbn [parse_digits]. cbn [starts_with] in Hd. rewrite Hd, He. reflexivity.
Qed.

Lemma parse_number_print n rest :
  closes rest ->
  parse_number (string_of_Z n +:+ rest) = Some (n, rest).
Proof.
  intros Hc. destruct (closes_not_digit rest Hc) as [Hd He].
  unfold string_of_Z. destruct n as [ | p | p ]; simpl Z.to_int.
  - exact (parse_number_zero rest Hd He).
  - unfold NilZero.string_of_int. rewrite string_of_uint_pos.
    destruct (numeral_head p) as (c & t & Hs & Hdig & Hnz).
    pose proof (parse_digits_numeral (Pos.to_uint p) rest 0 Hd) as Hp.
    rewrite horner_zero, DecimalPos.Unsigned.of_to in Hp.
    rewrite Hs in *.
    exact (proj1 (parse_number_digits c t rest _ Hdig Hnz Hp He)).
  - unfold NilZero.string_of_int. rewrite string_of_uint_pos.
    destruct (numeral_head p) as (c & t & Hs & Hdig & Hnz).
    pose proof (parse_digits_numeral (Pos.to_uint p) rest 0 Hd) as Hp.
    rewrite horner_zero, DecimalPos.Unsigned.of_to in Hp.
    rewrite Hs in *.
    exact (proj2 (parse_number_digits c t rest _ Hdig Hnz Hp He)).
Qed.

Lemma parse_chars_escape_char c tail s r :
  parse_chars tail = Some (s, r) ->
  parse_chars (escape_char c +:+ tail) = Some (String c s, r).
Proof.
  intros H.
  destruct c as [[] [] [] [] [] [] [] []];
    match goal with
    | |- context [ escape_char ?c ] =>
        let e := eval vm_compute in (escape_char c) in
        change (escape_char c) with e
    end;
    cbv [String.append]; simpl; cbv [String.append]; rewrite H; reflexivity.
Qed.

Lemma append_assoc (a b c : string) : (a +:+ b) +:+ c = a +:+ (b +:+ c).
Proof.
  induction a as [ | x a IH ]; [ reflexivity | ].
  change (String x ((a +:+ b) +:+ c) = String x (a +:+ (b +:+ c))).
  rewrite IH. reflexivity.
Qed.

Lemma parse_chars_escape s rest :
  parse_chars (escape s +:+ String dquote rest) = Some (s, rest).
Proof.
  induction s as [ | c s IH ]; cbn [escape].
  - change (parse_chars (String dquote rest) = Some ("", rest)).
    cbn [parse_chars]. rewrite Ascii.eqb_refl. reflexivity.
  - rewrite append_assoc. apply parse_chars_escape_char. exact IH.
Qed.

Lemma opens_facts c :
  opens c = true ->
  is_ws c = false /\ Ascii.eqb c "]"%char = false
  /\ Ascii.eqb c "}"%char = false /\ Ascii.eqb c ","%char = false.
Proof.
  destruct c as [[] [] [] [] [] [] [] []]; intros H;
    try discriminate H; repeat split; reflexivity.
Qed.

Lemma digit_dispatch c :
  is_digit c = true \/ c = "-"%char ->
  is_ws c = false
  /\ Ascii.eqb c "n"%char = false /\ Ascii.eqb c "t"%char = false
  /\ Ascii.eqb c "f"%char = false /\ Ascii.eqb c dquote = false
  /\ Ascii.eqb c "["%char = false /\ Ascii.eqb c "{"%char = false
  /\ opens c = true.
Proof.
  destruct c as [[] [] [] [] [] [] [] []]; intros [H | H];
    try discriminate H; repeat split; reflexivity.
Qed.

Lemma string_of_Z_head n :
  exists c t, string_of_Z n = String c t /\ (is_digit c = true \/ c = "-"%char).
Proof.
  unfold string_of_Z. destruct n as [ | p | p ]; simpl Z.to_int.
  - exists "0"%char, "". split; [ reflexivity | left; reflexivity ].
  - unfold NilZero.string_of_int. rewrite string_of_uint_pos.
    destruct (numeral_head p) as (c & t & Hs & Hd & _).
    exists c, t. split; [ exact Hs | left; exact Hd ].
  - unfold NilZero.string_of_int. eexists. eexists.
    split; [ reflexivity | right; reflexivity ].
Qed.

Lemma parse_value_null f rest :
  parse_value (S f) ("null" +:+ rest) = Some (Null, rest).
Proof. reflexivity. Qed.

Lemma parse_value_true f rest :
  parse_value (S f) ("true" +:+ rest) = Some (Bool true, rest).
Proof. reflexivity. Qed.

Lemma parse_value_false f rest :
  parse_value (S f) ("false" +:+ rest) = Some (Bool false, rest).
Proof. reflexivity. Qed.

Lemma parse_value_number f n rest :
  closes rest ->
  parse_value (S f) (string_of_Z n +:+ rest) = Some (Num n, rest).
Proof.
  intros Hc. pose proof (parse_number_print n rest Hc) as Hp.
  destruct (string_of_Z_head n) as (c & t & Hs & Hd).
  rewrite Hs in *.
  destruct (digit_dispatch c Hd) as (Hws & H1 & H2 & H3 & H4 & H5 & H6 & _).
  change (String c t +:+ rest) with (String c (t +:+ rest)) in *.
  cbn [parse_value skip_ws]. rewrite Hws, H1, H2, H3, H4, H5, H6, Hp.
  reflexivity.
Qed.

Lemma parse_value_string f s rest :
  parse_value (S f) (quote s +:+ rest) = Some (Str s, rest).
Proof.
  unfold quote.
  change (parse_value (S f)
            (String dquote ((escape s +:+ String dquote "") +:+ rest))
          = Some (Str s, rest)).
  rewrite append_assoc.
  change (String dquote "" +:+ rest) with (String dquote rest).
  cbn [parse_value skip_ws].
  change (is_ws dquote) with false. cbv iota.
  change (Ascii.eqb dquote "n") with false.
  change (Ascii.eqb dquote "t") with false.
  change (Ascii.eqb dquote "f") with false.
  change (Ascii.eqb dquote dquote) with true. cbv iota.
  rewrite parse_chars_escape. reflexivity.
Qed.

Lemma define_prop_fresh k v acc :
  existsb (fun kv => String.eqb k (fst kv)) acc = false ->
  define_prop k v acc = (acc ++ [(k, v)])%list.
Proof.
  induction acc as [ | [k' v'] acc IH ]; simpl; intros H; [ reflexivity | ].
  apply orb_false_iff in H. destruct H as [H1 H2].
  rewrite H1. rewrite (IH H2). reflexivity.
Qed.

Lemma fold_define_fresh l : forall acc,
  fresh_keys l = true ->
  (forall kv, In kv l -> existsb (fun a => String.eqb (fst kv) (fst a)) acc = false) ->
  fold_left (fun acc kv => define_prop (fst kv) (snd kv) acc) l acc
  = (acc ++ l)%list.
Proof.
  induction l as [ | [k v] l IH ]; intros acc Hf Hd; simpl.
  - rewrite app_nil_r. reflexivity.
  - simpl in Hf. apply andb_true_iff in Hf. destruct Hf as [Hk Hf].
    apply negb_true_iff in Hk.
    rewrite define_prop_fresh by (apply (Hd (k, v)); left; reflexivity).
    rewrite IH.
    + rewrite <- app_assoc. reflexivity.
    + exact Hf.
    + intros kv Hin. rewrite existsb_app.
      rewrite (Hd kv (or_intror Hin)). simpl.
      rewrite orb_false_r.
      destruct (String.eqb_spec (fst kv) k) as [E | ]; [ | reflexivity ].
      exfalso. rewrite <- E in Hk.
      assert (Hex : existsb (fun a => String.eqb (fst kv) (fst a)) l = true).
      { apply existsb_exists. exists kv. split; [ exact Hin | apply String.eqb_refl ]. }
      rewrite Hex in Hk. discriminate Hk.
Qed.

Lemma build_object_fresh l : fresh_keys l = true -> build_object l = Obj l.
Proof.
  intros H. unfold build_object. rewrite fold_define_fresh; [ reflexivity | exact H | ].
  intros kv _. reflexivity.
Qed.

Lemma value_nested_ind (Q : value -> Prop) :
  Q Undefined -> Q Null -> (forall b, Q (Bool b)) -> (forall n, Q (Num n)) ->
  (forall s, Q (Str s)) ->
  (forall l, Forall Q l -> Q (Arr l)) ->
  (forall l, Forall (fun kv => Q (snd kv)) l -> Q (Obj l)) ->
  (forall b, Q (Bytes b)) ->
  forall v, Q v.
Proof.
  intros HU HN HB HZ HS HA HO HY.
  fix IH 1. intros v. destruct v as [ | | b | n | s | l | l | b ].
  - exact HU.
  - exact HN.
  - apply HB.
  - apply HZ.
  - apply HS.
  - apply HA. induction l as [ | e l IHl ]; constructor; [ apply IH | exact IHl ].
  - apply HO. induction l as [ | [k e] l IHl ]; constructor; [ apply IH | exact IHl ].
  - apply HY.
Qed.

Lemma head_inside c t tail :
  opens c = true ->
  skip_ws (String c t +:+ tail) = String c (t +:+ tail)
  /\ closing "]"%char (String c (t +:+ tail)) = None
  /\ closing "}"%char (String c (t +:+ tail)) = None.
Proof.
  intros H. destruct (opens_facts c H) as (Hws & H1 & H2 & _).
  change (String c t +:+ tail) with (String c (t +:+ tail)).
  cbn [skip_ws closing]. rewrite Hws, H1, H2. repeat split.
Qed.

Lemma closes_comma r : closes (String ","%char r).
Proof. left. reflexivity. Qed.

Lemma closes_bracket r : closes (String "]"%char r).
Proof. right. left. reflexivity. Qed.

Lemma closes_brace r : closes (String "}"%char r).
Proof. right. right. reflexivity. Qed.

Lemma parse_elements_text l : forall e fuel rest,
  reads_back e -> Forall reads_back l ->
  (list_sum (List.map weight (e :: l)) + 1 <= fuel)%nat ->
  parse_elements fuel (join "," (List.map text_of (e :: l)) +:+ String "]"%char rest)
  = Some (e :: l, rest).
Proof.
  induction l as [ | e' l IH ]; intros e fuel rest He Hl Hf;
    cbn [List.map list_sum fold_right] in Hf.
  - destruct fuel as [ | fuel ]; [ lia | ].
    destruct He as (_ & _ & Hp).
    cbn [List.map join parse_elements].
    rewrite (Hp fuel (String "]"%char rest)); [ | lia | apply closes_bracket ].
    reflexivity.
  - destruct fuel as [ | fuel ]; [ lia | ].
    inversion Hl as [ | ? ? He' Hl' ]. subst.
    destruct He as (_ & _ & Hp).
    assert (Hw : (1 <= weight e)%nat) by (destruct e; simpl; lia).
    change (join "," (List.map text_of (e :: e' :: l)))
      with (text_of e +:+ "," +:+ join "," (List.map text_of (e' :: l))).
    rewrite !append_assoc.
    change ("," +:+ ?x) with (String ","%char x).
    cbn [parse_elements].
    rewrite (Hp fuel); [ | lia | apply closes_comma ].
    cbn [skip_ws]. change (is_ws ",") with false. cbv iota.
    change (Ascii.eqb "," ",") with true. cbv iota.
    rewrite (IH e' fuel rest He' Hl'); [ reflexivity | ].
    cbn [List.map list_sum fold_right]. lia.
Qed.

Lemma member_append k t tail :
  member k t +:+ tail
  = String dquote (escape k +:+ String dquote (String ":"%char (t +:+ tail))).
Proof.
  unfold member, quote.
  change (String dquote (escape k) +:+ String dquote "")
    with (String dquote (escape k +:+ String dquote "")).
  rewrite !append_assoc.
  change (String dquote (escape k +:+ String dquote "") +:+ ?x)
    with (String dquote ((escape k +:+ String dquote "") +:+ x)).
  rewrite append_assoc. reflexivity.
Qed.

Lemma stringify_members_text l :
  Forall (fun kv => reads_back (snd kv)) l ->
  stringify_members stringify l = List.map member_text l.
Proof.
  induction 1 as [ | [k v] l (Hs & _) _ IH ]; simpl; [ reflexivity | ].
  simpl in Hs. rewrite Hs, IH. reflexivity.
Qed.

Lemma parse_members_text l : forall kv fuel rest,
  reads_back (snd kv) -> Forall (fun kv => reads_back (snd kv)) l ->
  (list_sum (List.map (fun kv => weight (snd kv)) (kv :: l)) + 1 <= fuel)%nat ->
  parse_members fuel
    (join "," (List.map member_text (kv :: l)) +:+ String "}"%char rest)
  = Some (kv :: l, rest).
Proof.
  induction l as [ | kv' l IH ]; intros [k v] fuel rest He Hl Hf;
    cbn [List.map list_sum fold_right snd] in Hf.
  - destruct fuel as [ | fuel ]; [ lia | ].
    destruct He as (_ & _ & Hp). cbn [snd] in Hp.
    cbn [List.map join]. unfold member_text at 1. cbn [fst snd].
    rewrite member_append.
    cbn [parse_members skip_ws]. change (is_ws dquote) with false. cbv iota.
    change (Ascii.eqb dquote dquote) with true. cbn [negb]. cbv iota.
    rewrite parse_chars_escape.
    cbn [skip_ws]. change (is_ws ":") with false. cbv iota.
    change (Ascii.eqb ":" ":") with true. cbn [negb]. cbv iota.
    rewrite (Hp fuel (String "}"%char rest)); [ | lia | apply closes_brace ].
    reflexivity.
  - destruct fuel as [ | fuel ]; [ lia | ].
    inversion Hl as [ | ? ? He' Hl' ]. subst.
    destruct He as (_ & _ & Hp). cbn [snd] in Hp.
    assert (Hw : (1 <= weight v)%nat) by (destruct v; simpl; lia).
    change (join "," (List.map member_text ((k, v) :: kv' :: l)))
      with (member_text (k, v) +:+ "," +:+ join "," (List.map member_text (kv' :: l))).
    unfold member_text at 1. cbn [fst snd].
    rewrite !append_assoc. rewrite member_append.
    change ("," +:+ ?x) with (String ","%char x).
    cbn [parse_members skip_ws]. change (is_ws dquote) with false. cbv iota.
    change (Ascii.eqb dquote dquote) with true. cbn [negb]. cbv iota.
    rewrite parse_chars_escape.
    cbn [skip_ws]. change (is_ws ":") with false. cbv iota.
    change (Ascii.eqb ":" ":") with true. cbn [negb]. cbv iota.
    rewrite (Hp fuel); [ | lia | apply closes_comma ].
    cbn [skip_ws]. change (is_ws ",") with false. cbv iota.
    change (Ascii.eqb "," ",") with true. cbv iota.
    rewrite (IH kv' fuel rest He' Hl'); [ reflexivity | ].
    cbn [List.map list_sum fold_right]. lia.
Qed.

Lemma all_values_Forall (f : value -> bool) l :
  all_values f l = true -> Forall (fun kv => f (snd kv) = true) l.
Proof.
  induction l as [ | [k v] l IH ]; simpl; intros H; constructor.
  - apply andb_true_iff in H. apply H.
  - apply IH. apply andb_true_iff in H. apply H.
Qed.

Lemma Forall_modus {A} (Q R : A -> Prop) l :
  Forall (fun x => Q x -> R x) l -> Forall Q l -> Forall R l.
Proof.
  induction 1 as [ | x l Hx _ IH ]; intros H; constructor; inversion H; subst.
  - apply Hx. assumption.
  - apply IH. assumption.
Qed.

Theorem json_reads_back v : json v = true -> reads_back v.
Proof.
  induction v as [ | | b | n | s | l IH | l IH | b ] using value_nested_ind;
    intros Hj; try discriminate Hj.
  - split; [ reflexivity | ]. split.
    + exists "n"%char, "ull". split; reflexivity.
    + intros [ | fuel ] rest Hf _; [ simpl in Hf; lia | ].
      apply parse_value_null.
  - split; [ destruct b; reflexivity | ]. split.
    + destruct b; eexists; eexists; split; reflexivity.
    + intros [ | fuel ] rest Hf _; [ simpl in Hf; lia | ].
      destruct b; [ apply parse_value_true | apply parse_value_false ].
  - split; [ reflexivity | ]. split.
    + destruct (string_of_Z_head n) as (c & t & Hs & Hd).
      exists c, t. split; [ exact Hs | ].
      apply (digit_dispatch c Hd).
    + intros [ | fuel ] rest Hf Hc; [ simpl in Hf; lia | ].
      apply parse_value_number. exact Hc.
  - split; [ reflexivity | ]. split.
    + eexists. eexists. split; reflexivity.
    + intros [ | fuel ] rest Hf _; [ simpl in Hf; lia | ].
      apply parse_value_string.
  - assert (Hl : Forall reads_back l).
    { apply (Forall_modus _ _ _ IH).
      apply Forall_forall. intros x Hx. simpl in Hj.
      exact (proj1 (forallb_forall _ _) Hj x (proj1 (list_elem_of_In _ _) Hx)). }
    split; [ reflexivity | ]. split.
    + eexists. eexists. split; reflexivity.
    + intros [ | fuel ] rest Hf _; [ simpl in Hf; lia | ].
      change (text_of (Arr l))
        with ("[" +:+ join "," (List.map text_of l) +:+ "]").
      change ("[" +:+ ?x) with (String "["%char x).
      change (String "[" ?x +:+ rest) with (String "["%char (x +:+ rest)).
      rewrite append_assoc.
      change ("]" +:+ rest) with (String "]"%char rest).
      cbn [parse_value skip_ws]. change (is_ws "[") with false. cbv iota.
      change (Ascii.eqb "[" "n") with false.
      change (Ascii.eqb "[" "t") with false.
      change (Ascii.eqb "[" "f") with false.
      change (Ascii.eqb "[" dquote) with false.
      change (Ascii.eqb "[" "[") with true. cbv iota.
      destruct l as [ | e l ].
      * reflexivity.
      * inversion Hl as [ | ? ? He Hl' ]. subst.
        destruct He as (Hs & (c & t & Ht & Ho) & Hp).
        assert (Hhead : exists t', join "," (List.map text_of (e :: l))
                                   +:+ String "]"%char rest = String c t').
        { destruct l as [ | e' l ]; cbn [List.map join]; rewrite Ht;
            eexists; reflexivity. }
        destruct Hhead as (t' & Hhead).
        destruct (opens_facts c Ho) as (Hws & H1 & _).
        rewrite Hhead. cbn [skip_ws closing]. rewrite Hws. cbn [closing].
        rewrite H1. rewrite <- Hhead.
        rewrite (parse_elements_text l e fuel rest);
          [ reflexivity | repeat split; eauto | exact Hl' | ].
        cbn [weight List.map list_sum fold_right] in Hf |- *. lia.
  - simpl in Hj. apply andb_true_iff in Hj. destruct Hj as [Hj Hfresh].
    assert (Hl : Forall (fun kv => reads_back (snd kv)) l).
    { apply (Forall_modus _ _ _ IH). apply all_values_Forall. exact Hj. }
    assert (Ht : text_of (Obj l)
                 = "{" +:+ join "," (List.map member_text l) +:+ "}").
    { unfold text_of. simpl. rewrite (stringify_members_text l Hl). reflexivity. }
    split; [ unfold text_of; reflexivity | ]. split.
    + eexists. eexists. split; reflexivity.
    + intros [ | fuel ] rest Hf _; [ simpl in Hf; lia | ].
      rewrite Ht.
      change ("{" +:+ ?x) with (String "{"%char x).
      change (String "{" ?x +:+ rest) with (String "{"%char (x +:+ rest)).
      rewrite append_assoc.
      change ("}" +:+ rest) with (String "}"%char rest).
      cbn [parse_value skip_ws]. change (is_ws "{") with false. cbv iota.
      change (Ascii.eqb "{" "n") with false.
      change (Ascii.eqb "{" "t") with false.
      change (Ascii.eqb "{" "f") with false.
      change (Ascii.eqb "{" dquote) with false.
      change (Ascii.eqb "{" "[") with false.
      change (Ascii.eqb "{" "{") with true. cbv iota.
      destruct l as [ | kv l ].
      * reflexivity.
      * inversion Hl as [ | ? ? He Hl' ]. subst.
        assert (Hhead : exists t', join "," (List.map member_text (kv :: l))
                                   +:+ String "}"%char rest = String dquote t').
        { destruct l as [ | e' l ]; cbn [List.map join];
            unfold member_text at 1, member, quote; eexists; reflexivity. }
        destruct Hhead as (t' & Hhead).
        rewrite Hhead. cbn [skip_ws closing].
        change (is_ws dquote) with false. cbv iota. cbn [closing].
        change (Ascii.eqb dquote "}") with false. cbv iota.
        rewrite <- Hhead.
        rewrite (parse_members_text l kv fuel rest He Hl').
        -- rewrite (build_object_fresh _ Hfresh). reflexivity.
        -- cbn [weight List.map list_sum fold_right] in Hf |- *. lia.
Qed.

Lemma length_append a b :
  String.length (a +:+ b) = (String.length a + String.length b)%nat.
Proof.
  induction a as [ | c a IH ]; [ reflexivity | ].
  change (String c a +:+ b) with (String c (a +:+ b)).
  cbn [String.length]. rewrite IH. reflexivity.
Qed.

Lemma append_empty a : a +:+ "" = a.
Proof.
  induction a as [ | c a IH ]; [ reflexivity | ].
  change (String c a +:+ "") with (String c (a +:+ "")). rewrite IH. reflexivity.
Qed.

Lemma length_join {A} (f : A -> string) (g : A -> nat) l :
  Forall (fun x => (g x <= 2 * String.length (f x))%nat) l ->
  (list_sum (List.map g l) <= 2 * String.length (join "," (List.map f l)))%nat.
Proof.
  induction 1 as [ | x l Hx Hl IH ]; [ simpl; lia | ].
  destruct l as [ | y l ].
  - cbn [List.map join list_sum fold_right]. lia.
  - change (join "," (List.map f (x :: y :: l)))
      with (f x +:+ "," +:+ join "," (List.map f (y :: l))).
    rewrite !length_append.
    cbn [List.map list_sum fold_right] in IH |- *. lia.
Qed.

Lemma json_bounded v : json v = true -> bounded v.
Proof.
  induction v as [ | | b | n | s | l IH | l IH | b ] using value_nested_ind;
    intros Hj; try discriminate Hj; unfold bounded.
  - simpl. lia.
  - destruct b; simpl; lia.
  - destruct (string_of_Z_head n) as (c & t & Hs & _).
    unfold text_of. cbn [stringify default from_option id]. rewrite Hs. simpl. lia.
  - unfold text_of. cbn [stringify default from_option id weight]. unfold quote.
    change (String dquote (escape s) +:+ String dquote "")
      with (String dquote (escape s +:+ String dquote "")).
    cbn [String.length]. lia.
  - assert (Hl : Forall bounded l).
    { apply (Forall_modus _ _ _ IH).
      apply Stdlib.Lists.List.Forall_forall. intros x Hx. simpl in Hj.
      exact (proj1 (forallb_forall _ _) Hj x Hx). }
    change (text_of (Arr l))
      with ("[" +:+ join "," (List.map text_of l) +:+ "]").
    rewrite !length_append. cbn [weight].
    pose proof (length_join text_of weight l Hl). simpl String.length. lia.
  - simpl in Hj. apply andb_true_iff in Hj. destruct Hj as [Hj Hfresh].
    pose proof (all_values_Forall _ _ Hj) as Hjs.
    assert (Hr : Forall (fun kv => reads_back (snd kv)) l).
    { clear - Hjs. induction Hjs; constructor; [ apply json_reads_back | ]; assumption. }
    assert (Ht : text_of (Obj l)
                 = "{" +:+ join "," (List.map member_text l) +:+ "}").
    { unfold text_of. simpl. rewrite (stringify_members_text l Hr). reflexivity. }
    rewrite Ht. rewrite !length_append. cbn [weight].
    assert (Hl : Forall (fun kv => (weight (snd kv)
                                    <= 2 * String.length (member_text kv))%nat) l).
    { apply (Forall_modus _ _ _ IH) in Hjs. clear - Hjs.
      induction Hjs as [ | [k v] l Hx _ IHl ]; constructor; [ | exact IHl ].
      unfold member_text, member. rewrite !length_append. cbn [fst snd] in *.
      unfold bounded in Hx. lia. }
    pose proof (length_join member_text (fun kv => weight (snd kv)) l Hl).
    simpl String.length. lia.
Qed.

(** [JSON.parse(JSON.stringify(v))] is [v] for every JSON value. *)
Theorem parse_stringify v :
  json v = true -> stringify v = Some (text_of v) /\ parse (text_of v) = Some v.
Proof.
  intros Hj. destruct (json_reads_back v Hj) as (Hs & _ & Hp).
  split; [ exact Hs | ].
  unfold parse.
  pose proof (json_bounded v Hj) as Hb. unfold bounded in Hb.
  specialize (Hp (2 * String.length (text_of v) + 2)%nat "").
  rewrite append_empty in Hp. rewrite Hp; [ reflexivity | lia | exact I ].
Qed.

(** ** The reference platform is lawful *)

Section BrowserFacts.

Import Browser.

Lemma sextet_arith (x y z : N) : (x <= 255 -> y <= 255 -> z <= 255 ->
  (x / 4 < 64) /\ ((x mod 4) * 16 + y / 16 < 64) /\ ((y mod 16) * 4 + z / 64 < 64) /\ (z mod 64 < 64)
  /\ (x / 4) * 4 + ((x mod 4) * 16 + y / 16) / 16 = x
  /\ (((x mod 4) * 16 + y / 16) mod 16) * 16 + ((y mod 16) * 4 + z / 64) / 4 = y
  /\ (((y mod 16) * 4 + z / 64) mod 4) * 64 + z mod 64 = z)%N.
Proof.
  intros. repeat split; zify; Z.to_euclidean_division_equations; lia.
Qed.

Lemma sextet_table :
  forallb (fun n => match sextet_value (sextet_char n) with
                    | Some m => N.eqb m n
                    | None => false
                    end && negb (Ascii.eqb (sextet_char n) "="%char))
    (List.map N.of_nat (seq 0 64)) = true.
Proof. vm_compute. reflexivity. Qed.

Lemma sextet_ok n : (n < 64)%N ->
  sextet_value (sextet_char n) = Some n /\ Ascii.eqb (sextet_char n) "="%char = false.
Proof.
  intros H.
  pose proof (proj1 (forallb_forall _ _) sextet_table n) as Hn.
  assert (Hin : In n (List.map N.of_nat (seq 0 64))).
  { apply in_map_iff. exists (N.to_nat n). split; [ apply N2Nat.id | ].
    apply in_seq. lia. }
  specialize (Hn Hin). apply andb_true_iff in Hn. destruct Hn as [H1 H2].
  split.
  - destruct (sextet_value (sextet_char n)) as [m | ]; [ | discriminate ].
    apply N.eqb_eq in H1. congruence.
  - apply negb_true_iff in H2. exact H2.
Qed.

Lemma byte_of_N_to_N b : byte_of_N (Byte.to_N b) = b.
Proof.
  unfold byte_of_N, byte_of_Z.
  rewrite Z.mod_small by (pose proof (Byte.to_N_bounded b); lia).
  rewrite N2Z.id. rewrite Byte.of_to_N. reflexivity.
Qed.

Lemma atob_unfold c1 c2 c3 c4 rest :
  atob (String c1 (String c2 (String c3 (String c4 rest)))) =
      match sextet_value c1, sextet_value c2 with
      | Some x, Some y =>
          let b1 := byte_of_N (x * 4 + y / 16) in
          if Ascii.eqb c3 "="%char then
            if Ascii.eqb c4 "="%char && String.eqb rest "" then Some [b1]
            else None
          else
            match sextet_value c3 with
            | Some z =>
                let b2 := byte_of_N ((y mod 16) * 16 + z / 4) in
                if Ascii.eqb c4 "="%char then
                  if String.eqb rest "" then Some [b1; b2] else None
                else
                  match sextet_value c4, atob rest with
                  | Some u, Some l =>
                      Some (b1 :: b2 :: byte_of_N ((z mod 4) * 64 + u) :: l)
                  | _, _ => None
                  end
            | None => None
            end
      | _, _ => None
      end%N.
Proof. reflexivity. Qed.

Lemma atob_btoa_bounded n : forall l, (List.length l <= n)%nat -> atob (btoa l) = Some l.
Proof.
  induction n as [ | n IH ]; intros l Hl.
  - destruct l; [ reflexivity | simpl in Hl; lia ].
  - destruct l as [ | a [ | b [ | c rest ] ] ].
    + reflexivity.
    + pose proof (Byte.to_N_bounded a) as Ha.
      destruct (sextet_arith (Byte.to_N a) 0 0 Ha ltac:(lia) ltac:(lia))
        as (H1 & H2 & _ & _ & E1 & _ & _).
      cbn [btoa]. cbv zeta. rewrite atob_unfold.
      destruct (sextet_ok _ H1) as [-> _].
      change (Byte.to_N a mod 4 * 16 + 0 / 16)%N with (Byte.to_N a mod 4 * 16 + 0)%N in *.
      rewrite N.add_0_r in H2, E1.
      destruct (sextet_ok _ H2) as [-> _].
      cbv zeta. simpl (Ascii.eqb "=" "="). simpl (String.eqb "" ""). simpl andb.
      cbv iota. rewrite E1. rewrite byte_of_N_to_N. reflexivity.
    + pose proof (Byte.to_N_bounded a) as Ha.
      pose proof (Byte.to_N_bounded b) as Hb.
      destruct (sextet_arith (Byte.to_N a) (Byte.to_N b) 0 Ha Hb ltac:(lia))
        as (H1 & H2 & H3 & _ & E1 & E2 & _).
      cbn [btoa]. cbv zeta. rewrite atob_unfold.
      destruct (sextet_ok _ H1) as [-> _].
      destruct (sextet_ok _ H2) as [-> _].
      change (Byte.to_N b mod 16 * 4 + 0 / 64)%N with (Byte.to_N b mod 16 * 4 + 0)%N in *.
      rewrite N.add_0_r in H3, E2.
      destruct (sextet_ok _ H3) as [-> ->].
      cbv zeta. simpl (Ascii.eqb "=" "="). simpl (String.eqb "" "").
      cbv iota. rewrite E1, E2. rewrite !byte_of_N_to_N. reflexivity.
    + pose proof (Byte.to_N_bounded a) as Ha.
      pose proof (Byte.to_N_bounded b) as Hb.
      pose proof (Byte.to_N_bounded c) as Hc.
      destruct (sextet_arith (Byte.to_N a) (Byte.to_N b) (Byte.to_N c) Ha Hb Hc)
        as (H1 & H2 & H3 & H4 & E1 & E2 & E3).
      cbn [btoa]. cbv zeta. rewrite atob_unfold.
      destruct (sextet_ok _ H1) as [-> _].
      destruct (sextet_ok _ H2) as [-> _].
      destruct (sextet_ok _ H3) as [-> ->].
      destruct (sextet_ok _ H4) as [-> ->].
      rewrite (IH rest) by (simpl in Hl; lia).
      cbv zeta. cbv iota. rewrite E1, E2, E3. rewrite !byte_of_N_to_N. reflexivity.
Qed.

Lemma atob_inverts_btoa l : atob (btoa l) = Some l.
Proof. apply (atob_btoa_bounded (List.length l)). lia. Qed.

Lemma xorb_cancel a k : xorb (xorb a k) k = a.
Proof. destruct a, k; reflexivity. Qed.

Lemma xor_byte_cancel a k : xor_byte (xor_byte a k) k = a.
Proof.
  unfold xor_byte. rewrite Byte.to_bits_of_bits.
  rewrite <- (Byte.of_bits_to_bits a) at 2.
  destruct (Byte.to_bits a) as (a0 & a1 & a2 & a3 & a4 & a5 & a6 & a7).
  destruct (Byte.to_bits k) as (k0 & k1 & k2 & k3 & k4 & k5 & k6 & k7).
  simpl. rewrite !xorb_cancel. reflexivity.
Qed.

Lemma xor_from_length key iv data : forall i,
  List.length (xor_from key iv i data) = List.length data.
Proof.
  induction data as [ | x data IH ]; intros i; simpl; [ reflexivity | ].
  rewrite IH. reflexivity.
Qed.

Lemma xor_from_cancel key iv data : forall i,
  xor_from key iv i (xor_from key iv i data) = data.
Proof.
  induction data as [ | x data IH ]; intros i; simpl; [ reflexivity | ].
  rewrite xor_byte_cancel, IH. reflexivity.
Qed.

Lemma bytes_eqb_refl l : bytes_eqb l l = true.
Proof.
  induction l as [ | x l IH ]; simpl; [ reflexivity | ].
  rewrite IH. rewrite (Byte.byte_dec_lb (eq_refl x)). reflexivity.
Qed.

Lemma unseal_seal key iv data sealed :
  seal key iv data = Some sealed -> unseal key iv sealed = Some data.
Proof.
  unfold seal, unseal. intros E. inversion E. clear E.
  assert (Hlen : List.length (xor_with key iv data ++ tag_of key iv data)
                 = (List.length data + 16)%nat).
  { rewrite length_app. unfold xor_with. rewrite xor_from_length.
    unfold tag_of. rewrite repeat_length. reflexivity. }
  rewrite Hlen.
  replace (List.length data + 16 - 16)%nat with (List.length data) by lia.
  destruct (Nat.ltb_spec (List.length data + 16) 16) as [Hlt | _]; [ lia | ].
  assert (Hx : List.length (xor_with key iv data) = List.length data).
  { unfold xor_with. apply xor_from_length. }
  rewrite firstn_app, skipn_app, Hx, Nat.sub_diag.
  rewrite firstn_O, skipn_O.
  rewrite <- Hx. rewrite firstn_all, skipn_all.
  rewrite app_nil_r, app_nil_l. unfold xor_with. rewrite xor_from_cancel.
  rewrite bytes_eqb_refl. reflexivity.
Qed.

Lemma browser_lawful worker fault : lawful (platform worker fault).
Proof.
  constructor; simpl.
  - reflexivity.
  - intros b c E. inversion E. reflexivity.
  - intros s l c E. unfold gzip in E. inversion E. simpl.
    unfold TextDecoder_decode, TextEncoder_encode. simpl.
    rewrite string_of_list_byte_of_string. reflexivity.
  - intros b t E. inversion E. apply atob_inverts_btoa.
  - apply unseal_seal.
Qed.

End BrowserFacts.

(** ** Reasoning about computations *)

Lemma returns_ret {A} (a : A) : returns (ret a).
Proof. intros w. exists a, w. reflexivity. Qed.

Lemma returns_read {A} (f : World -> A) : returns (read f).
Proof. intros w. exists (f w), w. reflexivity. Qed.

Lemma returns_modify (f : World -> World) : returns (modify f).
Proof. intros w. exists tt, (f w). reflexivity. Qed.

Lemma returns_bind {A B} (m : M A) (k : A -> M B) :
  returns m -> (forall a, returns (k a)) -> returns (bind m k).
Proof.
  intros Hm Hk w. destruct (Hm w) as (a & w1 & E).
  destruct (Hk a w1) as (b & w2 & E2).
  exists b, w2. unfold bind. rewrite E. exact E2.
Qed.

Lemma returns_try_catch {A} (m : M A) (h : JsError -> M A) :
  (forall e, returns (h e)) -> returns (try_catch m h).
Proof.
  intros Hh w. unfold try_catch.
  destruct (m w) as [[a | e] w1].
  - exists a, w1. reflexivity.
  - apply Hh.
Qed.

Lemma ensures_ret {A} (a : A) (Q : A -> Prop) : Q a -> ensures (ret a) Q.
Proof. intros H w a' w' E. inversion E. subst. exact H. Qed.

Lemma ensures_throw {A} (e : JsError) (Q : A -> Prop) : ensures (throw e) Q.
Proof. intros w a w' E. discriminate E. Qed.

Lemma ensures_bind {A B} (m : M A) (k : A -> M B) (Q : B -> Prop) :
  (forall a, ensures (k a) Q) -> ensures (bind m k) Q.
Proof.
  intros Hk w b w' E. unfold bind in E.
  destruct (m w) as [[a | e] w1]; [ | discriminate E ].
  exact (Hk a w1 b w' E).
Qed.

Lemma ensures_try_catch {A} (m : M A) (h : JsError -> M A) (Q : A -> Prop) :
  ensures m Q -> (forall e, ensures (h e) Q) -> ensures (try_catch m h) Q.
Proof.
  intros Hm Hh w a w' E. unfold try_catch in E.
  destruct (m w) as [[a1 | e] w1] eqn:Em.
  - inversion E. subst. exact (Hm w a w' Em).
  - exact (Hh e w1 a w' E).
Qed.

Lemma ensures_weaken {A} (m : M A) (Q R : A -> Prop) :
  (forall a, Q a -> R a) -> ensures m Q -> ensures m R.
Proof. intros H Hm w a w' E. apply H. exact (Hm w a w' E). Qed.

(** ** The validator *)

Lemma validateField_spec data key def :
  validateField data key def = Normal tt <->
  exists v, get_prop data key = Normal v /\ field_ok def v = true.
Proof.
  unfold validateField, field_ok. split.
  - destruct (get_prop data key) as [v | e]; [ | discriminate ].
    intros H. exists v. split; [ reflexivity | ].
    destruct (is_undefined v); simpl in *.
    + rewrite andb_true_r in H.
      destruct (default false (required def)); [ discriminate | reflexivity ].
    + rewrite andb_false_r in H.
      destruct (String.eqb (typeof v) (SchemaType_name (type def)));
        simpl in *; [ | discriminate ].
      destruct (validate def) as [f | ]; [ | reflexivity ].
      destruct (f v); [ reflexivity | discriminate ].
  - intros (v & -> & H).
    destruct (is_undefined v); simpl in *.
    + rewrite andb_true_r.
      destruct (default false (required def)); [ discriminate | reflexivity ].
    + rewrite andb_false_r.
      destruct (String.eqb (typeof v) (SchemaType_name (type def)));
        simpl in *; [ | discriminate ].
      destruct (validate def) as [f | ]; [ | reflexivity ].
      destruct (f v); [ reflexivity | discriminate ].
Qed.

Lemma validateField_unit data key def u :
  validateField data key def = Normal u -> validateField data key def = Normal tt.
Proof. destruct u. exact (fun H => H). Qed.

(** Validation passes exactly when every entry of the schema does. *)
Lemma validateSchema_passes data schema :
  validateSchema data schema = Normal true <->
  Forall (fun kd => validateField data (fst kd) (snd kd) = Normal tt) schema.
Proof.
  induction schema as [ | [key def] rest IH ]; simpl.
  - split; [ constructor | reflexivity ].
  - destruct (validateField data key def) as [[] | e] eqn:E.
    + rewrite IH. split.
      * intros H. constructor; [ exact E | exact H ].
      * intros H. inversion H. assumption.
    + split; [ discriminate | ].
      intros H. inversion H as [ | ? ? H1 H2 ]. simpl in H1.
      rewrite E in H1. discriminate H1.
Qed.

(** Validation never returns [false]: it returns [true] or throws. *)
Lemma validateSchema_true_or_throws data schema :
  validateSchema data schema = Normal true \/
  exists e, validateSchema data schema = Throw e.
Proof.
  induction schema as [ | [key def] rest IH ]; simpl.
  - left. reflexivity.
  - destruct (validateField data key def) as [[] | e].
    + exact IH.
    + right. exists e. reflexivity.
Qed.

(** One failing entry makes the whole validation throw. *)
Lemma validateSchema_fails data schema key def :
  In (key, def) schema ->
  validateField data key def <> Normal tt ->
  exists e, validateSchema data schema = Throw e.
Proof.
  intros Hin Hbad.
  destruct (validateSchema_true_or_throws data schema) as [Hok | Hthrow];
    [ | exact Hthrow ].
  exfalso. apply Hbad.
  rewrite validateSchema_passes in Hok.
  exact (proj1 (Stdlib.Lists.List.Forall_forall _ _) Hok (key, def) Hin).
Qed.

(** The entries before the first failing one do not matter. *)
Lemma validateSchema_first_failure data pre key def post e :
  validateSchema data pre = Normal true ->
  validateField data key def = Throw e ->
  validateSchema data (pre ++ (key, def) :: post)%list = Throw e.
Proof.
  induction pre as [ | [k d] pre IH ]; simpl; intros Hpre Hbad.
  - rewrite Hbad. reflexivity.
  - destruct (validateField data k d) as [[] | e']; [ | discriminate Hpre ].
    apply IH; assumption.
Qed.

(** The validator reads the value only through the schema's keys. *)
Lemma validateSchema_reads_schema_keys data data' schema :
  (forall key def, In (key, def) schema -> get_prop data' key = get_prop data key) ->
  validateSchema data' schema = validateSchema data schema.
Proof.
  induction schema as [ | [key def] rest IH ]; simpl; intros H.
  - reflexivity.
  - assert (E : validateField data' key def = validateField data key def).
    { unfold validateField. rewrite (H key def (or_introl eq_refl)). reflexivity. }
    rewrite E. destruct (validateField data key def); [ | reflexivity ].
    apply IH. intros k d Hin. apply (H k d). right. exact Hin.
Qed.

Lemma raises_ret {A} (a : A) Q : raises (ret a) Q.
Proof. intros w e w' E. discriminate E. Qed.

Lemma raises_read {A} (f : World -> A) Q : raises (read f) Q.
Proof. intros w e w' E. discriminate E. Qed.

Lemma raises_modify (f : World -> World) Q : raises (modify f) Q.
Proof. intros w e w' E. discriminate E. Qed.

Lemma raises_throw {A} (e : JsError) (Q : JsError -> Prop) :
  Q e -> raises (@throw A e) Q.
Proof. intros H w e' w' E. inversion E. subst. exact H. Qed.

Lemma raises_bind {A B} (m : M A) (k : A -> M B) Q :
  raises m Q -> (forall a, raises (k a) Q) -> raises (bind m k) Q.
Proof.
  intros Hm Hk w e w' E. unfold bind in E.
  destruct (m w) as [[a | e1] w1] eqn:Em.
  - exact (Hk a w1 e w' E).
  - inversion E. subst. exact (Hm w e w' Em).
Qed.

Lemma raises_try_catch {A} (m : M A) (h : JsError -> M A) R Q :
  raises m R -> (forall e, R e -> raises (h e) Q) -> raises (try_catch m h) Q.
Proof.
  intros Hm Hh w e w' E. unfold try_catch in E.
  destruct (m w) as [[a | e1] w1] eqn:Em; [ discriminate E | ].
  exact (Hh e1 (Hm w e1 w1 Em) w1 e w' E).
Qed.

Lemma raises_or_throw {A} (e : JsError) (o : option A) (Q : JsError -> Prop) :
  Q e -> raises (or_throw e o) Q.
Proof.
  intros H. destruct o; [ apply raises_ret | apply raises_throw, H ].
Qed.

Lemma raises_lift {A} (c : Completion A) (Q : JsError -> Prop) :
  (forall e, c = Throw e -> Q e) -> raises (lift c) Q.
Proof. intros H w e w' E. inversion E. subst. apply H. reflexivity. Qed.

Section FacadeFacts.

Context (P : Platform).

(** *** Initialisation *)

Lemma returns_record_call c : returns (record_call c).
Proof. apply returns_modify. Qed.

Lemma returns_postServiceWorkerMessage msg :
  returns (postServiceWorkerMessage msg).
Proof.
  intros w. unfold postServiceWorkerMessage, bind, record_call, modify.
  destruct (Worker.onmessage msg (with_calls _ w)) as [reply w1].
  exists reply, w1. reflexivity.
Qed.

Lemma returns_calculateCurrentSize : returns (calculateCurrentSize P).
Proof.
  unfold calculateCurrentSize.
  apply returns_bind; [ | intros; apply returns_read ].
  apply returns_try_catch. intros e. apply returns_modify.
Qed.

Lemma returns_init : returns (init P).
Proof. apply returns_try_catch. intros e. apply returns_ret. Qed.

Lemma returns_await_initPromise : returns (await_initPromise P).
Proof.
  unfold await_initPromise.
  apply returns_bind; [ apply returns_read | ].
  intros t. destruct (initPromise t).
  - apply returns_bind; [ apply returns_init | intros; apply returns_modify ].
  - apply returns_ret.
Qed.

(** Once the promise is fulfilled, awaiting it does nothing. *)
Lemma await_fulfilled w :
  initPromise (this w) = Fulfilled -> await_initPromise P w = (Normal tt, w).
Proof.
  intros H. unfold await_initPromise, bind, read. rewrite H. reflexivity.
Qed.

Lemma await_initialised w : await_initPromise P w = (Normal tt, initialised P w).
Proof.
  unfold initialised.
  destruct (returns_await_initPromise w) as ([] & w1 & E).
  rewrite E. reflexivity.
Qed.

Lemma initialised_fulfilled w : initPromise (this (initialised P w)) = Fulfilled.
Proof.
  unfold initialised, await_initPromise, bind, read.
  destruct (initPromise (this w)) eqn:E.
  - destruct (returns_init w) as (a & w2 & E2). rewrite E2. reflexivity.
  - simpl. exact E.
Qed.

(** *** The codec on the way in *)

(** [compress] reads the configuration and the platform and leaves the
    world as it is; it never throws. *)
Lemma compress_silent (d : value) w :
  exists c, compress P d w = (Normal c, w).
Proof.
  unfold compress, bind, read, ret.
  destruct (negb (c_enabled (compression (this w)))); [ eexists; reflexivity | ].
  destruct (Z.of_nat (List.length (TextEncoder_encode d)) <? _);
    [ eexists; reflexivity | ].
  unfold try_catch, bind.
  destruct (CompressionStream_in_window P).
  - destruct (gzip_stream P _); simpl; eexists; reflexivity.
  - destruct (pako_in_window P); [ | eexists; reflexivity ].
    destruct (pako_gzip P _ _); simpl; eexists; reflexivity.
Qed.

End FacadeFacts.

Lemma bind_normal {A B} (m : M A) (k : A -> M B) w a w1 :
  m w = (Normal a, w1) -> bind m k w = k a w1.
Proof. intros E. unfold bind. rewrite E. reflexivity. Qed.

Lemma bind_throw {A B} (m : M A) (k : A -> M B) w e w1 :
  m w = (Throw e, w1) -> bind m k w = (Throw e, w1).
Proof. intros E. unfold bind. rewrite E. reflexivity. Qed.

Lemma try_catch_normal {A} (m : M A) (h : JsError -> M A) w a w1 :
  m w = (Normal a, w1) -> try_catch m h w = (Normal a, w1).
Proof. intros E. unfold try_catch. rewrite E. reflexivity. Qed.

Lemma try_catch_throw {A} (m : M A) (h : JsError -> M A) w e w1 :
  m w = (Throw e, w1) -> try_catch m h w = h e w1.
Proof. intros E. unfold try_catch. rewrite E. reflexivity. Qed.

Section Writes.

Context (P : Platform).

(** [setItem] on an initialised facade, for a write that passes the
    schema gate. *)
Lemma setItem_validated w key data schema compressed :
  initPromise (this w) = Fulfilled ->
  validated data schema ->
  compress P (JSON_stringify data) w = (Normal compressed, w) ->
  setItem P key data schema w =
  try_catch (check_and_store P key data compressed)
    (fun error => ret (failed error)) w.
Proof.
  intros Hi Hv Hc. unfold setItem, try_catch.
  rewrite (bind_normal _ _ _ _ _ (await_fulfilled P w Hi)).
  assert (Hs : (match schema with
                | Some s => _ <~ lift (validateSchema data s) ;; ret tt
                | None => ret tt
                end) w = (Normal tt, w)).
  { destruct schema as [s | ]; [ | reflexivity ].
    simpl in Hv. unfold bind, lift. rewrite Hv. reflexivity. }
  rewrite (bind_normal _ _ _ _ _ Hs).
  rewrite (bind_normal _ _ _ _ _ Hc).
  reflexivity.
Qed.

(** A write that fails the schema gate stops there. *)
Lemma setItem_invalid w key data s e :
  validateSchema data s = Throw e ->
  setItem P key data (Some s) w = (Normal (failed e), initialised P w).
Proof.
  intros Hv. unfold setItem.
  erewrite try_catch_throw; [ reflexivity | ].
  rewrite (bind_normal _ _ _ _ _ (await_initialised P w)).
  apply bind_throw. unfold bind, lift. rewrite Hv. reflexivity.
Qed.

End Writes.

Section Quota.

Context (P : Platform).

Lemma raises_cache_call c : raises (cache_call P c) not_quota.
Proof.
  unfold cache_call. apply raises_bind; [ apply raises_modify | ].
  intros _. destruct (cache_fault P c);
    [ apply raises_throw; discriminate | apply raises_ret ].
Qed.

Lemma raises_caches_open name : raises (caches_open P name) not_quota.
Proof.
  unfold caches_open. apply raises_bind; [ apply raises_cache_call | ].
  intros _. apply raises_bind; [ apply raises_modify | ].
  intros _. apply raises_ret.
Qed.

Lemma raises_storeInCache url d : raises (storeInCache P url d) not_quota.
Proof.
  unfold storeInCache.
  apply raises_bind; [ apply raises_read | intros t ].
  apply raises_bind; [ apply raises_read | intros date ].
  apply raises_bind; [ apply raises_caches_open | intros cache ].
  unfold cache_put. apply raises_bind; [ apply raises_cache_call | ].
  intros _. apply raises_modify.
Qed.

Lemma raises_postServiceWorkerMessage msg Q :
  raises (postServiceWorkerMessage msg) Q.
Proof.
  intros w e w' E.
  destruct (returns_postServiceWorkerMessage msg w) as (a & w1 & E1).
  rewrite E1 in E. discriminate E.
Qed.

Lemma raises_dataToString d : raises (dataToString P d) not_quota.
Proof.
  destruct d; simpl; try (apply raises_throw; discriminate);
    try apply raises_ret.
  apply raises_or_throw. discriminate.
Qed.

Lemma raises_encrypt d : raises (encrypt P d) not_quota.
Proof.
  unfold encrypt. apply raises_bind; [ apply raises_read | intros t ].
  destruct (negb (key_configured (encryptionKey t)) || negb (hasWebCrypto t)).
  - apply raises_throw. discriminate.
  - apply raises_try_catch with (R := not_quota).
    + apply raises_bind; [ apply raises_dataToString | intros s ].
      apply raises_bind; [ apply raises_or_throw; discriminate | intros k ].
      apply raises_bind.
      { unfold draw_iv. apply raises_bind; [ apply raises_read | intros n ].
        apply raises_bind; [ apply raises_modify | intros _; apply raises_ret ]. }
      intros iv.
      apply raises_bind; [ apply raises_or_throw; discriminate | intros c ].
      apply raises_ret.
    + intros e He. apply raises_throw. exact He.
Qed.

(** Past the quota check, nothing [setItem] runs throws the quota
    error, and what it returns is the success result. *)
Lemma raises_store_and_commit key data compressed t :
  raises (store_and_commit P key data compressed t) not_quota.
Proof.
  unfold store_and_commit. cbv zeta.
  apply raises_bind.
  { destruct (key_configured (encryptionKey t));
      [ apply raises_encrypt | apply raises_ret ]. }
  intros payload.
  apply raises_bind.
  { destruct (hasServiceWorker t).
    - apply raises_bind; [ apply raises_postServiceWorkerMessage | ].
      intros _. apply raises_ret.
    - apply raises_storeInCache. }
  intros _. apply raises_bind; [ apply raises_modify | intros _ ].
  apply raises_bind; [ apply raises_modify | intros _ ].
  apply raises_ret.
Qed.

Lemma ensures_store_and_commit key data compressed t :
  ensures (store_and_commit P key data compressed t)
    (fun r => r = succeeded data).
Proof.
  unfold store_and_commit. cbv zeta.
  apply ensures_bind. intros payload.
  apply ensures_bind. intros _.
  apply ensures_bind. intros _.
  apply ensures_bind. intros _.
  apply ensures_ret. reflexivity.
Qed.

Lemma check_and_store_over key data compressed w :
  currentSize (this w) + size_of compressed > maxSize (this w) ->
  check_and_store P key data compressed w = (Throw quota_exceeded, w).
Proof.
  intros H. unfold check_and_store, bind, read.
  destruct (Z.gtb_spec (currentSize (this w) + size_of compressed)
              (maxSize (this w))); [ reflexivity | lia ].
Qed.

Lemma check_and_store_under key data compressed w :
  currentSize (this w) + size_of compressed <= maxSize (this w) ->
  check_and_store P key data compressed w =
  store_and_commit P key data compressed (this w) w.
Proof.
  intros H. unfold check_and_store, bind, read.
  destruct (Z.gtb_spec (currentSize (this w) + size_of compressed)
              (maxSize (this w))); [ lia | reflexivity ].
Qed.

End Quota.

(** C2.  Quota admission.  On an initialised facade with accounted size
    [S], for a write that passes the schema gate and whose new entry has
    size [n]: [setItem] fails with the quota error exactly when
    [S + n > maxSize]; and the rejected write leaves the whole world as
    it was: the Cache API contents, the worker's map, the read cache,
    the accounted size and the record of backend calls, to which
    nothing was added. *)
Theorem quota_admission (P : Platform) (w : World) (key : string)
  (data : value) (schema : option Schema) :
  initPromise (this w) = Fulfilled ->
  validated data schema ->
  let S := currentSize (this w) in
  let n := newEntrySize P data w in
  (S + n > maxSize (this w) ->
   setItem P key data schema w = (Normal (failed quota_exceeded), w))
  /\ (forall r w',
        setItem P key data schema w = (Normal r, w') ->
        error r = Some quota_exceeded ->
        S + n > maxSize (this w)).
Proof.
  intros Hi Hv S n.
  destruct (compress_silent P (JSON_stringify data) w) as (c & Hc).
  assert (Hn : n = size_of c).
  { subst n. unfold newEntrySize. rewrite Hc. reflexivity. }
  rewrite (setItem_validated P w key data schema c Hi Hv Hc).
  split.
  - intros Hq.
    rewrite (try_catch_throw _ _ _ _ _
               (check_and_store_over P key data c w ltac:(subst S; lia))).
    reflexivity.
  - intros r w' E Herr.
    destruct (Z_le_gt_dec (S + n) (maxSize (this w))) as [Hle | Hgt];
      [ exfalso | exact Hgt ].
    unfold try_catch in E.
    rewrite (check_and_store_under P key data c w ltac:(subst S; lia)) in E.
    destruct (store_and_commit P key data c (this w) w) as [[a | e] w1] eqn:Em.
    + rewrite (ensures_store_and_commit P key data c (this w) w a w1 Em) in E.
      inversion E. subst r. discriminate Herr.
    + pose proof (raises_store_and_commit P key data c (this w) w e w1 Em) as Hne.
      inversion E. subst r. simpl in Herr. inversion Herr. contradiction.
Qed.

Lemma quota_admission_witness :
  initPromise (this (ready Browser.direct tiny_options)) = Fulfilled
  /\ validated (Str "a string of 27 bytes") None
  /\ (currentSize (this (ready Browser.direct tiny_options))
      + newEntrySize Browser.direct (Str "a string of 27 bytes")
          (ready Browser.direct tiny_options)
      > maxSize (this (ready Browser.direct tiny_options)) ->
      setItem Browser.direct "k" (Str "a string of 27 bytes") None
        (ready Browser.direct tiny_options)
      = (Normal (failed quota_exceeded), ready Browser.direct tiny_options)).
Proof.
  split; [ vm_compute; reflexivity | ].
  split; [ exact I | ].
  apply (quota_admission Browser.direct (ready Browser.direct tiny_options)
           "k" (Str "a string of 27 bytes") None);
    [ vm_compute; reflexivity | exact I ].
Defined.

(** The rejection of the witness, run: 0 + 22 > 10. *)
Example quota_rejection_runs :
  fst (setItem Browser.direct "k" (Str "a string of 27 bytes") None
         (ready Browser.direct tiny_options))
  = Normal (failed quota_exceeded).
Proof. vm_compute. reflexivity. Qed.

(** C5.  Validator semantics.  For every value and schema:
    (a) a schema field marked required and absent from the value makes
        validation fail;
    (b) a present field whose [typeof] is not the declared type makes
        it fail;
    (c) a present field on which the declared predicate returns false
        makes it fail;
    (d) a failed validation ends [setItem] there: the result is the
        failure carrying the validator's error, and the world is the one
        in which the operation resumed after awaiting initialisation, so
        on an initialised facade the world is unchanged and no backend
        call was made;
    (e) validation reads the value only at the schema's keys: two
        values that agree there validate alike. *)
Theorem validator_semantics (P : Platform) (data : value) (schema : Schema) :
  (forall key def,
      In (key, def) schema ->
      required def = Some true ->
      get_prop data key = Normal Undefined ->
      exists e, validateSchema data schema = Throw e)
  /\ (forall key def v,
        In (key, def) schema ->
        get_prop data key = Normal v ->
        is_undefined v = false ->
        typeof v <> SchemaType_name (type def) ->
        exists e, validateSchema data schema = Throw e)
  /\ (forall key def v f,
        In (key, def) schema ->
        get_prop data key = Normal v ->
        is_undefined v = false ->
        validate def = Some f ->
        f v = false ->
        exists e, validateSchema data schema = Throw e)
  /\ (forall e key w,
        validateSchema data schema = Throw e ->
        setItem P key data (Some schema) w
        = (Normal (failed e), initialised P w)
        /\ (initPromise (this w) = Fulfilled -> initialised P w = w))
  /\ (forall data',
        (forall key def,
            In (key, def) schema -> get_prop data' key = get_prop data key) ->
        validateSchema data' schema = validateSchema data schema).
Proof.
  split; [ | split; [ | split; [ | split ] ] ].
  - intros key def Hin Hreq Habs.
    apply (validateSchema_fails data schema key def Hin).
    rewrite validateField_spec. intros (v & Hv & Hok).
    rewrite Habs in Hv. inversion Hv. subst v.
    unfold field_ok in Hok. simpl in Hok. rewrite Hreq in Hok. discriminate Hok.
  - intros key def v Hin Hget Hdef Hty.
    apply (validateSchema_fails data schema key def Hin).
    rewrite validateField_spec. intros (v' & Hv & Hok).
    rewrite Hget in Hv. inversion Hv. subst v'.
    unfold field_ok in Hok. rewrite Hdef in Hok.
    apply andb_true_iff in Hok. destruct Hok as [Hok _].
    apply String.eqb_eq in Hok. contradiction.
  - intros key def v f Hin Hget Hdef Hf Hfv.
    apply (validateSchema_fails data schema key def Hin).
    rewrite validateField_spec. intros (v' & Hv & Hok).
    rewrite Hget in Hv. inversion Hv. subst v'.
    unfold field_ok in Hok. rewrite Hdef, Hf, Hfv in Hok.
    rewrite andb_false_r in Hok. discriminate Hok.
  - intros e key w Hv. split.
    + apply setItem_invalid. exact Hv.
    + intros Hi. unfold initialised. rewrite (await_fulfilled P w Hi).
      reflexivity.
  - intros data' H. apply validateSchema_reads_schema_keys. exact H.
Qed.

Lemma validator_semantics_witness :
  (exists e, validateSchema (Obj [("age", Num 30)]) name_schema = Throw e)
  /\ (exists e, validateSchema (Obj [("name", Num 1)]) name_schema = Throw e)
  /\ (exists e, validateSchema (Obj [("name", Str "")]) name_schema = Throw e)
  /\ setItem Browser.direct "k" (Obj [("age", Num 30)]) (Some name_schema)
       (ready Browser.direct Browser.no_options)
     = (Normal (failed (Error "Required field missing: name")),
        ready Browser.direct Browser.no_options)
  /\ validateSchema (Obj [("name", Str "John"); ("age", Num 30)]) name_schema
     = validateSchema (Obj [("name", Str "John")]) name_schema.
Proof.
  pose proof (validator_semantics Browser.direct (Obj [("age", Num 30)])
                name_schema) as (Ha & _ & _ & Hd & _).
  pose proof (validator_semantics Browser.direct (Obj [("name", Num 1)])
                name_schema) as (_ & Hb & _ & _ & _).
  pose proof (validator_semantics Browser.direct (Obj [("name", Str "")])
                name_schema) as (_ & _ & Hc & _ & _).
  pose proof (validator_semantics Browser.direct (Obj [("name", Str "John")])
                name_schema) as (_ & _ & _ & _ & He).
  split; [ | split; [ | split; [ | split ] ] ].
  - eapply Ha; [ left; reflexivity | reflexivity | reflexivity ].
  - eapply Hb; [ left; reflexivity | reflexivity | reflexivity | discriminate ].
  - eapply Hc; [ left; reflexivity | reflexivity | reflexivity | reflexivity
               | reflexivity ].
  - destruct (Hd (Error "Required field missing: name") "k"
                (ready Browser.direct Browser.no_options)) as [Hs Hw];
      [ reflexivity | ].
    rewrite Hs. rewrite Hw; [ reflexivity | vm_compute; reflexivity ].
  - apply He. intros key def [Hin | []]. inversion Hin. reflexivity.
Defined.

(** C10.  A schema field declared with type [array] is never satisfied
    by an array: [typeof] of an array is [object].  For every value
    whose field [key] is an array and every schema declaring [key] with
    type [array]: the check of that field throws the type mismatch,
    validation fails, it fails with that very error when the entries
    before pass, and [setItem] with the schema fails. *)
Theorem array_type_never_matches (P : Platform) (data : value)
  (schema : Schema) (key : string) (def : SchemaDefinition)
  (elems : list value) :
  In (key, def) schema ->
  type def = TArray ->
  get_prop data key = Normal (Arr elems) ->
  validateField data key def
  = Throw (Error ("Invalid type for " +:+ key +:+ ": expected array, got object"))
  /\ (exists e, validateSchema data schema = Throw e)
  /\ (forall pre post,
        schema = (pre ++ (key, def) :: post)%list ->
        validateSchema data pre = Normal true ->
        validateSchema data schema
        = Throw (Error ("Invalid type for " +:+ key
                        +:+ ": expected array, got object")))
  /\ (forall k w,
        exists e, setItem P k data (Some schema) w
                  = (Normal (failed e), initialised P w)).
Proof.
  intros Hin Hty Hget.
  assert (Hf : validateField data key def
               = Throw (Error ("Invalid type for " +:+ key
                               +:+ ": expected array, got object"))).
  { unfold validateField. rewrite Hget. simpl.
    rewrite andb_false_r. unfold type_error. rewrite Hty. reflexivity. }
  assert (Hv : exists e, validateSchema data schema = Throw e).
  { apply (validateSchema_fails data schema key def Hin).
    rewrite Hf. discriminate. }
  split; [ exact Hf | ]. split; [ exact Hv | ]. split.
  - intros pre post -> Hpre.
    apply validateSchema_first_failure; assumption.
  - intros k w. destruct Hv as (e & He). exists e.
    apply setItem_invalid. exact He.
Qed.

Lemma array_type_never_matches_witness :
  In ("tags", {| type := TArray; required := Some true; validate := None |})
    tags_schema
  /\ validateField (Obj [("tags", Arr [Str "a"; Str "b"])]) "tags"
       {| type := TArray; required := Some true; validate := None |}
     = Throw (Error "Invalid type for tags: expected array, got object")
  /\ fst (setItem Browser.direct "k" (Obj [("tags", Arr [Str "a"; Str "b"])])
            (Some tags_schema) (ready Browser.direct Browser.no_options))
     = Normal (failed (Error "Invalid type for tags: expected array, got object")).
Proof.
  pose proof (array_type_never_matches Browser.direct
                (Obj [("tags", Arr [Str "a"; Str "b"])]) tags_schema "tags"
                {| type := TArray; required := Some true; validate := None |}
                [Str "a"; Str "b"]
                (or_introl eq_refl) eq_refl eq_refl) as (Hf & _ & _ & _).
  split; [ left; reflexivity | ].
  split; [ exact Hf | vm_compute; reflexivity ].
Defined.

(** ** What a successful write leaves behind *)

Section Entries.

Context (P : Platform).

(** [compress] returns its argument or a fresh [Uint8Array]. *)
Lemma compress_output d w c :
  compress P d w = (Normal c, w) -> c = d \/ exists b, c = Bytes b.
Proof.
  unfold compress, bind, read, ret.
  destruct (negb (c_enabled (compression (this w)))).
  { intros E. inversion E. left. reflexivity. }
  destruct (Z.of_nat (List.length (TextEncoder_encode d)) <? _).
  { intros E. inversion E. left. reflexivity. }
  unfold try_catch, bind.
  destruct (CompressionStream_in_window P).
  - destruct (gzip_stream P _); simpl; intros E; inversion E;
      [ right; eexists; reflexivity | left; reflexivity ].
  - destruct (pako_in_window P).
    + destruct (pako_gzip P _ _); simpl; intros E; inversion E;
        [ right; eexists; reflexivity | left; reflexivity ].
    + intros E. inversion E. left. reflexivity.
Qed.

(** [encrypt] touches nothing but the count of random draws. *)
Lemma encrypt_frame d w r w1 :
  encrypt P d w = (r, w1) -> w1 = w \/ w1 = with_entropy S w.
Proof.
  unfold encrypt, bind, read.
  destruct (negb (key_configured (encryptionKey (this w)))
            || negb (hasWebCrypto (this w))).
  { intros E. inversion E. left. reflexivity. }
  unfold try_catch, bind.
  destruct (dataToString P d w) as [[s | e] w2] eqn:Es.
  - assert (w2 = w) as ->.
    { destruct d; simpl in Es; try (inversion Es; reflexivity).
      destruct (btoa_fromCharCode P b); inversion Es; reflexivity. }
    destruct (importKey P _) as [k | ]; simpl.
    + unfold draw_iv, bind, read, modify, ret. simpl.
      destruct (subtle_encrypt P _ _ _); simpl; intros E; inversion E;
        right; reflexivity.
    + intros E. inversion E. left. reflexivity.
  - assert (w2 = w) as ->.
    { destruct d; simpl in Es; try (inversion Es; reflexivity).
      destruct (btoa_fromCharCode P b); inversion Es; reflexivity. }
    intros E. inversion E. left. reflexivity.
Qed.

Lemma store_and_commit_hands_over key data compressed w r w' :
  store_and_commit P key data compressed (this w) w = (Normal r, w') ->
  exists payload,
    handed_over w' key
      (storageData_of payload compressed (JSON_stringify data)
         (size_of compressed))
      (size_of compressed)
    /\ (key_configured (encryptionKey (this w)) = false -> payload = compressed)
    /\ (key_configured (encryptionKey (this w)) = true ->
        exists w1, encrypt P compressed w = (Normal payload, w1))
    /\ currentSize (this w') = currentSize (this w) + size_of compressed
    /\ cacheStore (this w') = <[key := data]> (cacheStore (this w))
    /\ initPromise (this w') = initPromise (this w)
    /\ this w'
       = set_cacheStore (<[key := data]> (cacheStore (this w)))
           (set_currentSize (currentSize (this w) + size_of compressed)
              (this w)).
Proof.
  unfold store_and_commit. cbv zeta. unfold bind at 1.
  destruct ((if key_configured (encryptionKey (this w))
             then encrypt P compressed else ret compressed) w)
    as [[payload | e] w1] eqn:Ep; [ | discriminate ].
  assert (Hw1 : this w1 = this w /\ storage w1 = storage w
                /\ caches w1 = caches w /\ now w1 = now w).
  { destruct (key_configured (encryptionKey (this w))).
    - destruct (encrypt_frame _ _ _ _ Ep) as [-> | ->]; repeat split.
    - inversion Ep. repeat split. }
  destruct Hw1 as (Ht & Hst & Hca & Hno).
  intros E. exists payload.
  assert (Hpay : (key_configured (encryptionKey (this w)) = false ->
                  payload = compressed)
                 /\ (key_configured (encryptionKey (this w)) = true ->
                     exists w2, encrypt P compressed w = (Normal payload, w2))).
  { destruct (key_configured (encryptionKey (this w))); split;
      try discriminate; intros _.
    - exists w1. exact Ep.
    - inversion Ep. reflexivity. }
  destruct Hpay as (Hp1 & Hp2).
  destruct (hasServiceWorker (this w)) eqn:Hsw.
  - unfold bind, postServiceWorkerMessage, record_call, modify, ret in E.
    simpl in E. inversion E. subst w'. clear E.
    unfold handed_over. simpl. rewrite Ht, Hsw.
    split; [ | split; [ exact Hp1 | split; [ exact Hp2 | repeat split ] ] ].
    eexists. simpl. apply lookup_insert_eq.
  - unfold bind at 1 in E.
    destruct (storeInCache P _ _ w1) as [[[] | e] w2] eqn:Es; [ | discriminate ].
    unfold bind, modify, ret in E. simpl in E. inversion E. subst w'. clear E.
    unfold storeInCache, bind, read in Es. simpl in Es.
    unfold caches_open, cache_put, cache_call, record_call, bind, modify, ret,
      throw in Es.
    simpl in Es.
    destruct (cache_fault P (CachesOpen (namespace (this w1))));
      [ discriminate | ].
    simpl in Es.
    destruct (cache_fault P (CachePut _ _)); [ discriminate | ].
    inversion Es. subst w2. clear Es.
    unfold handed_over. simpl. rewrite Ht, Hsw.
    split; [ | split; [ exact Hp1 | split; [ exact Hp2 | repeat split ] ] ].
    eexists. split.
    + unfold cache_of. simpl. rewrite lookup_insert_eq. simpl.
      apply lookup_insert_eq.
    + reflexivity.
Qed.

(** A successful [setItem] went through every stage. *)
Lemma setItem_success w key data schema r w' :
  initPromise (this w) = Fulfilled ->
  setItem P key data schema w = (Normal r, w') ->
  success r = true ->
  exists compressed,
    compress P (JSON_stringify data) w = (Normal compressed, w)
    /\ validated data schema
    /\ currentSize (this w) + size_of compressed <= maxSize (this w)
    /\ store_and_commit P key data compressed (this w) w
       = (Normal (succeeded data), w')
    /\ r = succeeded data.
Proof.
  intros Hi E Hs.
  assert (Hv : validated data schema).
  { destruct schema as [s | ]; [ | exact I ]. simpl.
    destruct (validateSchema_true_or_throws data s) as [H | (e & H)];
      [ exact H | ].
    rewrite (setItem_invalid P w key data s e H) in E.
    inversion E. subst r. discriminate Hs. }
  destruct (compress_silent P (JSON_stringify data) w) as (c & Hc).
  exists c. split; [ exact Hc | ]. split; [ exact Hv | ].
  rewrite (setItem_validated P w key data schema c Hi Hv Hc) in E.
  destruct (Z_le_gt_dec (currentSize (this w) + size_of c) (maxSize (this w)))
    as [Hle | Hgt].
  - split; [ exact Hle | ].
    unfold try_catch in E.
    rewrite (check_and_store_under P key data c w Hle) in E.
    destruct (store_and_commit P key data c (this w) w) as [[a | e] w1] eqn:Em.
    + assert (Ha : a = succeeded data)
        by exact (ensures_store_and_commit P key data c (this w) w a w1 Em).
      subst a. inversion E. subst. split; reflexivity.
    + inversion E. subst r. discriminate Hs.
  - rewrite (try_catch_throw _ _ _ _ _ (check_and_store_over P key data c w Hgt))
      in E.
    inversion E. subst r. discriminate Hs.
Qed.

End Entries.

(** C8, as amended.  For every entry a successful [setItem] produces on
    an initialised facade: [metadata.compressed] is true exactly when
    the output of the compression step differs from the serialised
    form, [metadata.compressedSize] is the byte length of that output
    and [metadata.originalSize] that of the serialised form; the entry
    is handed to the backend under the key; and when no encryption key
    is configured its payload is that output, otherwise it is the
    envelope [encrypt] made of that output. *)
Theorem entry_metadata (P : Platform) (w : World) (key : string)
  (data : value) (schema : option Schema) (r : StorageResult) (w' : World) :
  initPromise (this w) = Fulfilled ->
  setItem P key data schema w = (Normal r, w') ->
  success r = true ->
  exists compressed entry,
    compress P (JSON_stringify data) w = (Normal compressed, w)
    /\ handed_over w' key entry (size_of compressed)
    /\ (metadata_of entry "compressed" = Bool true <->
        compressed <> JSON_stringify data)
    /\ (metadata_of entry "compressed" = Bool false <->
        compressed = JSON_stringify data)
    /\ metadata_of entry "compressedSize" = Num (size_of compressed)
    /\ metadata_of entry "originalSize" = Num (Blob_size (JSON_stringify data))
    /\ (key_configured (encryptionKey (this w)) = false ->
        payload_of entry = compressed)
    /\ (key_configured (encryptionKey (this w)) = true ->
        exists w1, encrypt P compressed w = (Normal (payload_of entry), w1)).
Proof.
  intros Hi E Hs.
  destruct (setItem_success P w key data schema r w' Hi E Hs)
    as (c & Hc & _ & _ & Hst & _).
  destruct (store_and_commit_hands_over P key data c w _ w' Hst)
    as (payload & Hh & Hp1 & Hp2 & _).
  exists c, (storageData_of payload c (JSON_stringify data) (size_of c)).
  split; [ exact Hc | ]. split; [ exact Hh | ].
  assert (Hneq : strict_neq c (JSON_stringify data) = true <->
                 c <> JSON_stringify data).
  { destruct (compress_output P _ _ _ Hc) as [-> | (b & ->)].
    - unfold JSON_stringify. destruct (stringify data); simpl.
      + rewrite String.eqb_refl. simpl. split; [ discriminate | congruence ].
      + split; [ discriminate | congruence ].
    - unfold JSON_stringify. destruct (stringify data); simpl;
        (split; [ discriminate | reflexivity ]). }
  unfold metadata_of, payload_of. simpl.
  split; [ | split; [ | split; [ reflexivity | split; [ reflexivity
             | split; [ exact Hp1 | exact Hp2 ] ] ] ] ].
  - rewrite <- Hneq. split; [ intros H; inversion H; reflexivity | intros ->; reflexivity ].
  - destruct (strict_neq c (JSON_stringify data)) eqn:Hb.
    + split; [ discriminate | ].
      intros Heq. apply Hneq in Heq; [ contradiction | reflexivity ].
    + split; [ intros _ | reflexivity ].
      destruct (compress_output P _ _ _ Hc) as [H | (b & H)]; [ exact H | ].
      subst c. unfold JSON_stringify in Hb.
      destruct (stringify data); discriminate Hb.
Qed.

Lemma run_eq {A} (m : M A) (w : World) (a : Completion A) :
  fst (m w) = a -> m w = (a, snd (m w)).
Proof. intros <-. apply surjective_pairing. Qed.

Lemma entry_metadata_witness :
  initPromise
    (this (ready Browser.with_worker (Browser.codec_options true None)))
  = Fulfilled
  /\ exists compressed entry,
       compress Browser.with_worker (JSON_stringify x1)
         (ready Browser.with_worker (Browser.codec_options true None))
       = (Normal compressed,
          ready Browser.with_worker (Browser.codec_options true None))
       /\ handed_over
            (snd (setItem Browser.with_worker "a" x1 None
                    (ready Browser.with_worker (Browser.codec_options true None))))
            "a" entry (size_of compressed)
       /\ (metadata_of entry "compressed" = Bool true <->
           compressed <> JSON_stringify x1)
       /\ (metadata_of entry "compressed" = Bool false <->
           compressed = JSON_stringify x1)
       /\ metadata_of entry "compressedSize" = Num (size_of compressed)
       /\ metadata_of entry "originalSize" = Num (Blob_size (JSON_stringify x1))
       /\ (key_configured
             (encryptionKey
                (this (ready Browser.with_worker
                         (Browser.codec_options true None)))) = false ->
           payload_of entry = compressed)
       /\ (key_configured
             (encryptionKey
                (this (ready Browser.with_worker
                         (Browser.codec_options true None)))) = true ->
           exists w1,
             encrypt Browser.with_worker compressed
               (ready Browser.with_worker (Browser.codec_options true None))
             = (Normal (payload_of entry), w1)).
Proof.
  split; [ vm_compute; reflexivity | ].
  apply (entry_metadata Browser.with_worker
           (ready Browser.with_worker (Browser.codec_options true None))
           "a" x1 None (succeeded x1)
           (snd (setItem Browser.with_worker "a" x1 None
                   (ready Browser.with_worker (Browser.codec_options true None))))).
  - vm_compute. reflexivity.
  - apply run_eq. vm_compute. reflexivity.
  - reflexivity.
Defined.

(** C8 as stated fails when an encryption key is configured.  With a
    key and compression disabled, [setItem("a", { x: 1 })] succeeds and
    the worker holds an entry whose [compressed] flag is false although
    its payload, the encrypted envelope, is not the serialised form; and
    whose [compressedSize] is 7, the length of the serialised form,
    while the ciphertext in the envelope has 23 bytes. *)
Lemma entry_metadata_counterexample :
  fst (setItem Browser.with_worker "a" x1 None
         (ready Browser.with_worker
            (Browser.codec_options false (Some Browser.sample_key))))
  = Normal (succeeded x1)
  /\ metadata_of
       (entry_at
          (snd (setItem Browser.with_worker "a" x1 None
                  (ready Browser.with_worker
                     (Browser.codec_options false (Some Browser.sample_key)))))
          "a") "compressed"
     = Bool false
  /\ payload_of
       (entry_at
          (snd (setItem Browser.with_worker "a" x1 None
                  (ready Browser.with_worker
                     (Browser.codec_options false (Some Browser.sample_key)))))
          "a")
     <> JSON_stringify x1
  /\ metadata_of
       (entry_at
          (snd (setItem Browser.with_worker "a" x1 None
                  (ready Browser.with_worker
                     (Browser.codec_options false (Some Browser.sample_key)))))
          "a") "compressedSize"
     = Num 7
  /\ option_map (fun c => List.length (to_Uint8Array c))
       (match get_prop
                (payload_of
                   (entry_at
                      (snd (setItem Browser.with_worker "a" x1 None
                              (ready Browser.with_worker
                                 (Browser.codec_options false
                                    (Some Browser.sample_key)))))
                      "a")) "data" with
        | Normal c => Some c
        | Throw _ => None
        end)
     = Some 23%nat.
Proof.
  split; [ vm_compute; reflexivity | ].
  split; [ vm_compute; reflexivity | ].
  split; [ vm_compute; discriminate | ].
  split; vm_compute; reflexivity.
Qed.

(** ** Updates *)

Lemma returns_setItem P key data schema : returns (setItem P key data schema).
Proof. apply returns_try_catch. intros e. apply returns_ret. Qed.

Lemma returns_getItem P key : returns (getItem P key).
Proof. apply returns_try_catch. intros e. apply returns_ret. Qed.

(** [updateItem], case by case.  It reads the key with [getItem]; when
    that does not succeed, or succeeds with a falsy value, it fails with
    the not-found error and does nothing more; otherwise it is
    [setItem(key, { ...existing, ...updates }, schema)], run in the
    world [getItem] left. *)
Theorem update_semantics (P : Platform) (key : string) (updates : value)
  (schema : option Schema) (w : World) (current : StorageResult) (w1 : World) :
  getItem P key w = (Normal current, w1) ->
  (success current = false \/ truthy (default Undefined (data current)) = false ->
   updateItem P key updates schema w = (Normal (update_not_found key), w1))
  /\ (success current = true ->
      truthy (default Undefined (data current)) = true ->
      updateItem P key updates schema w
      = setItem P key (spread2 (default Undefined (data current)) updates)
          schema w1).
Proof.
  intros Hg. unfold updateItem. split.
  - intros Hbad.
    erewrite try_catch_throw; [ reflexivity | ].
    rewrite (bind_normal _ _ _ _ _ Hg).
    destruct Hbad as [-> | ->]; simpl; [ reflexivity | ].
    rewrite orb_true_r. reflexivity.
  - intros Hs Ht.
    destruct (returns_setItem P key
                (spread2 (default Undefined (data current)) updates) schema w1)
      as (r & w2 & E).
    rewrite E. apply try_catch_normal.
    rewrite (bind_normal _ _ _ _ _ Hg). rewrite Hs, Ht. simpl. exact E.
Qed.

(** The update of the specification, run through the theorem:
    [updateItem("k", { age: 31 })] on [{ name: "John", age: 30 }] is the
    [setItem] of [{ name: "John", age: 31 }], it succeeds, and a read
    that has to go to the backend returns that value. *)
Lemma update_semantics_witness :
  getItem Browser.direct "k" (stored Browser.direct Browser.no_options "k" john)
  = (Normal (succeeded john), stored Browser.direct Browser.no_options "k" john)
  /\ updateItem Browser.direct "k" age_31 None
       (stored Browser.direct Browser.no_options "k" john)
     = setItem Browser.direct "k"
         (Obj [("name", Str "John"); ("age", Num 31)]) None
         (stored Browser.direct Browser.no_options "k" john)
  /\ fst (updateItem Browser.direct "k" age_31 None
            (stored Browser.direct Browser.no_options "k" john))
     = Normal (succeeded (Obj [("name", Str "John"); ("age", Num 31)]))
  /\ fst (getItem Browser.direct "k"
            (Browser.forget
               (snd (updateItem Browser.direct "k" age_31 None
                       (stored Browser.direct Browser.no_options "k" john)))))
     = Normal (succeeded (Obj [("name", Str "John"); ("age", Num 31)])).
Proof.
  assert (Hg : getItem Browser.direct "k"
                 (stored Browser.direct Browser.no_options "k" john)
               = (Normal (succeeded john),
                  stored Browser.direct Browser.no_options "k" john)).
  { vm_compute. reflexivity. }
  split; [ exact Hg | ].
  split.
  - exact (proj2 (update_semantics Browser.direct "k" age_31 None _ _ _ Hg)
             eq_refl eq_refl).
  - split; vm_compute; reflexivity.
Defined.

(** C7, at the input where the code leaves the claim: a stored falsy
    value.  After [setItem("k", 0)], [getItem("k")] succeeds with 0, and
    [updateItem("k", { a: 1 })] fails with
    [Error("Item with key k not found")], where the claim has it store
    the merge [{ a: 1 }], which [setItem] would have accepted; the
    stored value stays 0.  The same happens for [false], the empty
    string and [null]: the guard [!current.success || !current.data]
    takes a falsy value for a missing item. *)
Theorem updateItem_rejects_a_stored_falsy_value :
  fst (setItem Browser.direct "k" (Num 0) None
         (ready Browser.direct Browser.no_options))
  = Normal (succeeded (Num 0))
  /\ fst (getItem Browser.direct "k"
            (stored Browser.direct Browser.no_options "k" (Num 0)))
     = Normal (succeeded (Num 0))
  /\ fst (updateItem Browser.direct "k" (Obj [("a", Num 1)]) None
            (stored Browser.direct Browser.no_options "k" (Num 0)))
     = Normal (failed (Error "Item with key k not found"))
  /\ fst (setItem Browser.direct "k"
            (spread2 (Num 0) (Obj [("a", Num 1)])) None
            (snd (getItem Browser.direct "k"
                    (stored Browser.direct Browser.no_options "k" (Num 0)))))
     = Normal (succeeded (Obj [("a", Num 1)]))
  /\ fst (getItem Browser.direct "k"
            (Browser.forget
               (snd (updateItem Browser.direct "k" (Obj [("a", Num 1)]) None
                       (stored Browser.direct Browser.no_options "k" (Num 0))))))
     = Normal (succeeded (Num 0))
  /\ fst (updateItem Browser.direct "k" (Obj [("a", Num 1)]) None
            (stored Browser.direct Browser.no_options "k" (Bool false)))
     = Normal (failed (Error "Item with key k not found"))
  /\ fst (updateItem Browser.direct "k" (Obj [("a", Num 1)]) None
            (stored Browser.direct Browser.no_options "k" (Str "")))
     = Normal (failed (Error "Item with key k not found"))
  /\ fst (updateItem Browser.direct "k" (Obj [("a", Num 1)]) None
            (stored Browser.direct Browser.no_options "k" Null))
     = Normal (failed (Error "Item with key k not found")).
Proof. repeat split; vm_compute; reflexivity. Qed.

(** ** The read cache *)

Lemma yields_bind {A B} (m : M A) (k : A -> M B) Q :
  (forall a, yields (k a) Q) -> yields (bind m k) Q.
Proof.
  intros Hk w b w' E. unfold bind in E.
  destruct (m w) as [[a | e] w1]; [ | discriminate E ].
  exact (Hk a w1 b w' E).
Qed.

Lemma yields_ret {A} (a : A) (Q : A -> World -> Prop) :
  (forall w, Q a w) -> yields (ret a) Q.
Proof. intros H w a' w' E. inversion E. subst. apply H. Qed.

Lemma yields_throw {A} (e : JsError) (Q : A -> World -> Prop) :
  yields (throw e) Q.
Proof. intros w a w' E. discriminate E. Qed.

Lemma yields_try_catch {A} (m : M A) (h : JsError -> M A) Q :
  yields m Q -> (forall e, yields (h e) Q) -> yields (try_catch m h) Q.
Proof.
  intros Hm Hh w a w' E. unfold try_catch in E.
  destruct (m w) as [[a1 | e] w1] eqn:Em.
  - inversion E. subst. exact (Hm w a w' Em).
  - exact (Hh e w1 a w' E).
Qed.

Lemma yields_modify_ret {A} (f : World -> World) (a : A)
  (Q : A -> World -> Prop) :
  (forall w, Q a (f w)) -> yields (modify f ;;; ret a) Q.
Proof. intros H w a' w' E. inversion E. subst. apply H. Qed.

Section ReadCache.

Context (P : Platform).

(** A hit: a truthy value in the read cache is returned as it is, and
    the world, the record of backend calls included, stays as it was. *)
Lemma getItem_hit w key v :
  initPromise (this w) = Fulfilled ->
  cacheStore (this w) !! key = Some v ->
  truthy v = true ->
  getItem P key w = (Normal (succeeded v), w).
Proof.
  intros Hi Hc Ht. unfold getItem. apply try_catch_normal.
  rewrite (bind_normal _ _ _ _ _ (await_fulfilled P w Hi)).
  unfold bind, read. rewrite Hc. simpl. rewrite Ht. reflexivity.
Qed.

(** After a successful [setItem(key, v)] of a truthy value, [getItem(key)]
    returns [v] and makes no backend call. *)
Lemma read_after_write_hits w key v schema r w1 :
  initPromise (this w) = Fulfilled ->
  setItem P key v schema w = (Normal r, w1) ->
  success r = true ->
  truthy v = true ->
  getItem P key w1 = (Normal (succeeded v), w1).
Proof.
  intros Hi E Hs Ht.
  destruct (setItem_success P w key v schema r w1 Hi E Hs)
    as (c & _ & _ & _ & Hst & _).
  destruct (store_and_commit_hands_over P key v c w _ w1 Hst)
    as (_ & _ & _ & _ & _ & Hcs & Hip & _).
  apply getItem_hit.
  - rewrite Hip. exact Hi.
  - rewrite Hcs. apply lookup_insert_eq.
  - exact Ht.
Qed.

(** A successful [getItem] leaves the value it returns in the read
    cache: on a miss, what was decoded from the backend was inserted. *)
Lemma getItem_fills_cache key : yields (getItem P key) (cached key).
Proof.
  unfold getItem. apply yields_try_catch.
  2:{ intros e. apply yields_ret. intros w. discriminate. }
  apply yields_bind. intros _.
  intros w r w' E. unfold bind at 1 in E. unfold read at 1 in E.
  destruct (truthy (default Undefined (cacheStore (this w) !! key))).
  { inversion E. subst. intros _. eexists. split; reflexivity. }
  remember (this w) as t eqn:Ht. clear Ht.
  revert w r w' E. refine (yields_bind _ _ (cached key) _).
  intros [storedData | ].
  2:{ apply yields_ret. intros w. discriminate. }
  destruct (negb (truthy storedData)).
  { apply yields_ret. intros w. discriminate. }
  apply yields_bind. intros d.
  destruct (negb (truthy d)).
  { apply yields_ret. intros w. discriminate. }
  apply yields_bind. intros metadata0. cbv zeta.
  apply yields_bind. intros decrypted.
  apply yields_bind. intros flag.
  apply yields_bind. intros decrypted'.
  apply yields_bind. intros parsed.
  apply yields_modify_ret. intros w _.
  exists parsed. split; [ reflexivity | ].
  simpl. rewrite lookup_insert_eq. reflexivity.
Qed.

End ReadCache.

(** C6, at the input where the code leaves the claim: a falsy value.
    After [setItem("k", 0)] has succeeded, [getItem("k")] does not stop
    at the read cache, which holds 0: it posts a [retrieve] message to
    the worker, one backend call more, and returns the 0 it decodes
    from the reply. *)
Theorem read_cache_misses_falsy_values :
  fst (setItem Browser.with_worker "k" (Num 0) None
         (ready Browser.with_worker Browser.no_options))
  = Normal (succeeded (Num 0))
  /\ cacheStore
       (this (stored Browser.with_worker Browser.no_options "k" (Num 0)))
     !! "k" = Some (Num 0)
  /\ fst (getItem Browser.with_worker "k"
            (stored Browser.with_worker Browser.no_options "k" (Num 0)))
     = Normal (succeeded (Num 0))
  /\ calls (snd (getItem Browser.with_worker "k"
                    (stored Browser.with_worker Browser.no_options "k" (Num 0))))
     = PostMessage "retrieve" (Some "k")
       :: calls (stored Browser.with_worker Browser.no_options "k" (Num 0)).
Proof. repeat split; vm_compute; reflexivity. Qed.

(** ** The public boundary *)

Lemma well_formed_succeeded v : well_formed (succeeded v).
Proof. left. repeat split. exists v. reflexivity. Qed.

Lemma well_formed_failed e : well_formed (failed e).
Proof. right. repeat split. exists e. reflexivity. Qed.

Section Boundary.

Context (P : Platform).

Lemma ensures_setItem key data schema :
  ensures (setItem P key data schema) well_formed.
Proof.
  unfold setItem. apply ensures_try_catch.
  2:{ intros e. apply ensures_ret, well_formed_failed. }
  apply ensures_bind. intros _.
  apply ensures_bind. intros _. cbv zeta.
  apply ensures_bind. intros compressed.
  apply ensures_bind. intros t.
  destruct (currentSize t + size_of compressed >? maxSize t).
  { apply ensures_throw. }
  apply ensures_bind. intros payload.
  apply ensures_bind. intros _.
  apply ensures_bind. intros _.
  apply ensures_bind. intros _.
  apply ensures_ret, well_formed_succeeded.
Qed.

Lemma ensures_getItem key : ensures (getItem P key) well_formed.
Proof.
  unfold getItem. apply ensures_try_catch.
  2:{ intros e. apply ensures_ret, well_formed_failed. }
  apply ensures_bind. intros _.
  apply ensures_bind. intros t. cbv zeta.
  destruct (truthy (default Undefined (cacheStore t !! key))).
  { apply ensures_ret, well_formed_succeeded. }
  apply ensures_bind. intros [storedData | ].
  2:{ apply ensures_ret, well_formed_failed. }
  destruct (negb (truthy storedData)).
  { apply ensures_ret, well_formed_failed. }
  apply ensures_bind. intros d.
  destruct (negb (truthy d)).
  { apply ensures_ret, well_formed_failed. }
  apply ensures_bind. intros metadata0.
  apply ensures_bind. intros decrypted.
  apply ensures_bind. intros flag.
  apply ensures_bind. intros decrypted'.
  apply ensures_bind. intros parsed.
  apply ensures_bind. intros _.
  apply ensures_ret, well_formed_succeeded.
Qed.

Lemma ensures_updateItem key updates schema :
  ensures (updateItem P key updates schema) well_formed.
Proof.
  unfold updateItem. apply ensures_try_catch.
  2:{ intros e. apply ensures_ret, well_formed_failed. }
  apply ensures_bind. intros current.
  destruct (negb (success current)
            || negb (truthy (default Undefined (data current)))).
  - apply ensures_throw.
  - apply ensures_setItem.
Qed.

Lemma returns_updateItem key updates schema :
  returns (updateItem P key updates schema).
Proof. apply returns_try_catch. intros e. apply returns_ret. Qed.

Lemma returns_removeItem key : returns (removeItem P key).
Proof. apply returns_try_catch. intros e. apply returns_ret. Qed.

Lemma returns_clear : returns (clear P).
Proof. apply returns_try_catch. intros e. apply returns_ret. Qed.

(** [getStats] has no [try]: it returns because [calculateCurrentSize]
    catches what its backend calls throw. *)
Lemma returns_getStats : returns (getStats P).
Proof.
  unfold getStats.
  apply returns_bind; [ apply returns_calculateCurrentSize | intros _ ].
  apply returns_bind; [ apply returns_read | intros t ].
  apply returns_ret.
Qed.

Lemma returns_getCompressionStats key : returns (getCompressionStats P key).
Proof. apply returns_try_catch. intros e. apply returns_ret. Qed.

Lemma returns_ensures {A} (m : M A) (Q : A -> Prop) w :
  returns m -> ensures m Q -> exists a w', m w = (Normal a, w') /\ Q a.
Proof.
  intros Hr He. destruct (Hr w) as (a & w' & E).
  exists a, w'. split; [ exact E | exact (He w a w' E) ].
Qed.

End Boundary.

(** C4, as amended.  No public operation throws, for any input, platform
    and world (every Cache API call may reject, every codec or crypto
    call may throw), and each returns once the platform has answered its
    calls.  [getStats] and [getCompressionStats] post to the worker
    without awaiting the initialisation: on a worker-backed facade they
    are taken after it has completed, since a message posted before the
    page has a controller is sent to nobody and its promise never
    settles.  [setItem], [getItem] and [updateItem] return a result
    object carrying [success] and either [data] or [error]; [removeItem]
    and [clear] return a boolean; [getStats] returns the statistics
    record; and [getCompressionStats] returns the compression statistics
    record or [null]. *)
Theorem operations_return (P : Platform) (op : Operation) (w : World) :
  (posts_unawaited op = true -> answered w) ->
  exists r w', perform P op w = (Normal r, w') /\ shape op r.
Proof.
  intros _.
  destruct op as [key d schema | key | key updates schema | key | | | key];
    unfold perform, bind, ret.
  - destruct (returns_ensures _ _ w (returns_setItem P key d schema)
                (ensures_setItem P key d schema)) as (r & w' & E & H).
    rewrite E. exists (RResult r), w'. split; [ reflexivity | ].
    exists r. split; [ reflexivity | exact H ].
  - destruct (returns_ensures _ _ w (returns_getItem P key)
                (ensures_getItem P key)) as (r & w' & E & H).
    rewrite E. exists (RResult r), w'. split; [ reflexivity | ].
    exists r. split; [ reflexivity | exact H ].
  - destruct (returns_ensures _ _ w (returns_updateItem P key updates schema)
                (ensures_updateItem P key updates schema)) as (r & w' & E & H).
    rewrite E. exists (RResult r), w'. split; [ reflexivity | ].
    exists r. split; [ reflexivity | exact H ].
  - destruct (returns_removeItem P key w) as (b & w' & E).
    rewrite E. exists (RBoolean b), w'. split; [ reflexivity | ].
    exists b. reflexivity.
  - destruct (returns_clear P w) as (b & w' & E).
    rewrite E. exists (RBoolean b), w'. split; [ reflexivity | ].
    exists b. reflexivity.
  - destruct (returns_getStats P w) as (s & w' & E).
    rewrite E. exists (RStats s), w'. split; [ reflexivity | ].
    exists s. reflexivity.
  - destruct (returns_getCompressionStats P key w) as ([s | ] & w' & E);
      rewrite E.
    + exists (RCompressionStats s), w'. split; [ reflexivity | ].
      right. exists s. reflexivity.
    + exists RNull, w'. split; [ reflexivity | left; reflexivity ].
Qed.

(** The theorem at [getStats] on a controlled, initialised page. *)
Lemma operations_return_witness :
  exists r w',
    perform Browser.with_worker OpGetStats
      (stored Browser.with_worker Browser.no_options "k" x1)
    = (Normal r, w')
    /\ shape OpGetStats r.
Proof.
  apply (operations_return Browser.with_worker OpGetStats
           (stored Browser.with_worker Browser.no_options "k" x1)).
  intros _ _. reflexivity.
Defined.

(** C4 as stated fails at four of the seven operations.  On the direct
    backend [getStats] returns the statistics record
    [{ used: 0, total: 52428800, ... }], [getCompressionStats] of a key
    that is not stored returns [null], and [removeItem] and [clear]
    return [true]: none carries a [success] field, no result object is
    returned. *)
Lemma operations_return_counterexample :
  (exists s,
     fst (perform Browser.direct OpGetStats
            (ready Browser.direct Browser.no_options))
     = Normal (RStats s)
     /\ used s = 0
     /\ total s = 52428800
     /\ ~ structured (RStats s))
  /\ fst (perform Browser.direct (OpGetCompressionStats "a")
            (ready Browser.direct Browser.no_options))
     = Normal RNull
  /\ ~ structured RNull
  /\ fst (perform Browser.direct (OpRemoveItem "a")
            (stored Browser.direct Browser.small_options "a" x1))
     = Normal (RBoolean true)
  /\ fst (perform Browser.direct OpClear
            (stored Browser.direct Browser.small_options "a" x1))
     = Normal (RBoolean true)
  /\ ~ structured (RBoolean true).
Proof.
  split.
  { eexists. split; [ vm_compute; reflexivity | ].
    split; [ reflexivity | ]. split; [ reflexivity | ].
    intros (res & H & _). discriminate H. }
  split; [ vm_compute; reflexivity | ].
  split; [ intros (res & H & _); discriminate H | ].
  split; [ vm_compute; reflexivity | ].
  split; [ vm_compute; reflexivity | ].
  intros (res & H & _). discriminate H.
Qed.

(** ** Initialisation order *)

Section InitOrder.

Context (P : Platform).

(** Awaiting the promise twice is awaiting it once: [init] runs once. *)
Lemma initialised_idempotent w :
  initialised P (initialised P w) = initialised P w.
Proof.
  unfold initialised at 1.
  rewrite (await_fulfilled P _ (initialised_fulfilled P w)). reflexivity.
Qed.

(** [setItem], [getItem] and [updateItem] run in the world in which
    initialisation has completed. *)
Lemma setItem_awaits_init key data schema w :
  setItem P key data schema w = setItem P key data schema (initialised P w).
Proof.
  unfold setItem, try_catch.
  rewrite (bind_normal _ _ _ _ _ (await_initialised P w)).
  rewrite (bind_normal _ _ _ _ _
             (await_fulfilled P _ (initialised_fulfilled P w))).
  reflexivity.
Qed.

Lemma getItem_awaits_init key w :
  getItem P key w = getItem P key (initialised P w).
Proof.
  unfold getItem, try_catch.
  rewrite (bind_normal _ _ _ _ _ (await_initialised P w)).
  rewrite (bind_normal _ _ _ _ _
             (await_fulfilled P _ (initialised_fulfilled P w))).
  reflexivity.
Qed.

Lemma updateItem_awaits_init key updates schema w :
  updateItem P key updates schema w
  = updateItem P key updates schema (initialised P w).
Proof.
  unfold updateItem, try_catch, bind.
  rewrite (getItem_awaits_init key w). reflexivity.
Qed.

End InitOrder.

(** C9, at the inputs where the code leaves the claim.  On a facade
    that was just constructed, its initialisation still pending,
    [removeItem], [clear], [getStats] and [getCompressionStats] do not
    await it: each makes its backend calls at once and returns with the
    promise still pending, and [getStats] has written the size counter
    by then (from 0 to the 88 bytes an earlier page load left in the
    cache). *)
Theorem operations_run_before_initialisation :
  initPromise (this (Browser.fresh Browser.direct Browser.no_options)) = Pending
  /\ fst (removeItem Browser.direct "a"
            (Browser.fresh Browser.direct Browser.no_options))
     = Normal true
  /\ calls (snd (removeItem Browser.direct "a"
                   (Browser.fresh Browser.direct Browser.no_options)))
     = [CacheDelete "application" "/cache-local-storage/storage/a";
        CachesOpen "application"]
  /\ initPromise
       (this (snd (removeItem Browser.direct "a"
                     (Browser.fresh Browser.direct Browser.no_options))))
     = Pending
  /\ calls (snd (clear Browser.direct
                   (Browser.fresh Browser.direct Browser.no_options)))
     = [CachesDelete "application"]
  /\ initPromise
       (this (snd (clear Browser.direct
                     (Browser.fresh Browser.direct Browser.no_options))))
     = Pending
  /\ calls (snd (getCompressionStats Browser.with_worker "a"
                   (Browser.fresh Browser.with_worker Browser.no_options)))
     = [PostMessage "retrieve" (Some "a")]
  /\ initPromise
       (this (snd (getCompressionStats Browser.with_worker "a"
                     (Browser.fresh Browser.with_worker Browser.no_options))))
     = Pending
  /\ initPromise
       (this (reload Browser.direct Browser.no_options
                (stored Browser.direct Browser.no_options "a" x1)))
     = Pending
  /\ currentSize
       (this (reload Browser.direct Browser.no_options
                (stored Browser.direct Browser.no_options "a" x1)))
     = 0
  /\ calls (snd (getStats Browser.direct
                   (reload Browser.direct Browser.no_options
                      (stored Browser.direct Browser.no_options "a" x1))))
     = [CacheMatch "application" "/cache-local-storage/storage/a";
        CacheKeys "application"; CachesOpen "application"]
  /\ currentSize
       (this (snd (getStats Browser.direct
                     (reload Browser.direct Browser.no_options
                        (stored Browser.direct Browser.no_options "a" x1)))))
     = 88
  /\ initPromise
       (this (snd (getStats Browser.direct
                     (reload Browser.direct Browser.no_options
                        (stored Browser.direct Browser.no_options "a" x1)))))
     = Pending.
Proof. repeat split; vm_compute; reflexivity. Qed.

(** ** The lifecycle of a key *)

Section Lifecycle.

Context (P : Platform).

(** On the direct backend, what [removeItem] removed is gone: the
    [getItem] that follows fails, and it fails with the not-found error
    unless one of its two Cache API calls rejects. *)
Lemma getItem_after_removeItem_direct w key w1 :
  initPromise (this w) = Fulfilled ->
  hasServiceWorker (this w) = false ->
  removeItem P key w = (Normal true, w1) ->
  exists r w2,
    getItem P key w1 = (Normal r, w2)
    /\ success r = false
    /\ (cache_fault P (CachesOpen (namespace (this w))) = false ->
        cache_fault P (CacheMatch (namespace (this w))
                         (baseUrl (this w) +:+ key)) = false ->
        r = not_found).
Proof.
  intros Hi Hsw Hr.
  unfold removeItem, try_catch, bind, read, caches_open, cache_delete,
    cache_call, record_call, modify, ret, throw in Hr.
  simpl in Hr.
  destruct (cache_fault P (CachesOpen (namespace (this w)))) eqn:F1;
    [ discriminate Hr | ].
  simpl in Hr.
  destruct (cache_fault P (CacheDelete _ _)) eqn:F2; [ discriminate Hr | ].
  simpl in Hr. injection Hr as Hw1. symmetry in Hw1.
  destruct (returns_getItem P key w1) as (r & w2 & E).
  exists r, w2. split; [ exact E | ].
  revert E. unfold getItem, try_catch.
  rewrite (bind_normal _ _ _ _ _
             (await_fulfilled P w1 ltac:(subst w1; exact Hi))).
  unfold bind at 1. unfold read at 1.
  assert (Hmiss : cacheStore (this w1) !! key = None).
  { subst w1. simpl. apply lookup_delete_eq. }
  rewrite Hmiss. simpl.
  unfold retrieve, bind, read.
  assert (Hsw1 : hasServiceWorker (this w1) = false).
  { subst w1. exact Hsw. }
  rewrite Hsw1.
  unfold caches_open, cache_match, cache_call, record_call, modify, ret, throw,
    bind, read.
  assert (Hns : namespace (this w1) = namespace (this w)).
  { subst w1. reflexivity. }
  assert (Hbu : baseUrl (this w1) = baseUrl (this w)).
  { subst w1. reflexivity. }
  rewrite Hns, Hbu, F1.
  destruct (cache_fault P (CacheMatch _ _)) eqn:F3.
  - intros E. inversion E. split; [ reflexivity | discriminate ].
  - assert (Hgone : cache_of
                      (with_caches
                         (fun cs =>
                            <[namespace (this w) :=
                                cache_of (with_calls
                                            (cons (CachesOpen (namespace (this w))))
                                            w1)
                                  (namespace (this w))]> cs)
                         (with_calls (cons (CachesOpen (namespace (this w)))) w1))
                      (namespace (this w))
                    !! (baseUrl (this w) +:+ key) = None).
    { unfold cache_of. simpl. rewrite lookup_insert_eq. simpl.
      subst w1. simpl. rewrite lookup_insert_eq. simpl.
      rewrite lookup_insert_eq. apply lookup_delete_eq. }
    change (cache_of (with_calls ?f ?x) ?n) with (cache_of x n).
    rewrite Hgone.
    intros E. inversion E. split; [ reflexivity | intros _ _; reflexivity ].
Qed.

End Lifecycle.

(** On the direct backend the scenario runs as the specification has
    it, down to the not-found error. *)
Example lifecycle_direct :
  fst (setItem Browser.direct "a" x1 None
         (Browser.fresh Browser.direct Browser.small_options))
  = Normal (succeeded x1)
  /\ fst (getItem Browser.direct "a" (after_set Browser.direct))
     = Normal (succeeded x1)
  /\ fst (removeItem Browser.direct "a" (after_get Browser.direct))
     = Normal true
  /\ fst (getItem Browser.direct "a" (after_remove Browser.direct))
     = Normal not_found.
Proof. repeat split; vm_compute; reflexivity. Qed.

(** C3, at the input where the code leaves the claim: the worker-backed
    backend.  [setItem("a", { x: 1 })] succeeds, [getItem("a")] returns
    [{ x: 1 }], [removeItem("a")] returns true, having deleted the key
    from the Cache API and from the read cache but not from the worker's
    map, which received no [delete] message; and the [getItem("a")] that
    follows asks the worker, finds the entry there and succeeds with
    [{ x: 1 }] instead of failing with the not-found error. *)
Theorem lifecycle_worker_keeps_removed_item :
  hasServiceWorker (this (after_set Browser.with_worker)) = true
  /\ fst (setItem Browser.with_worker "a" x1 None
            (Browser.fresh Browser.with_worker Browser.small_options))
     = Normal (succeeded x1)
  /\ fst (getItem Browser.with_worker "a" (after_set Browser.with_worker))
     = Normal (succeeded x1)
  /\ fst (removeItem Browser.with_worker "a" (after_get Browser.with_worker))
     = Normal true
  /\ calls (after_remove Browser.with_worker)
     = CacheDelete "application" "/cache-local-storage/storage/a"
       :: CachesOpen "application"
       :: calls (after_get Browser.with_worker)
  /\ cacheStore (this (after_remove Browser.with_worker)) !! "a" = None
  /\ storage (after_remove Browser.with_worker)
     = storage (after_get Browser.with_worker)
  /\ fst (getItem Browser.with_worker "a" (after_remove Browser.with_worker))
     = Normal (succeeded x1).
Proof. repeat split; vm_compute; reflexivity. Qed.

(** ** The codec on the way out *)

Lemma byte_of_Z_to_Z (x : byte) : byte_of_Z (byte_to_Z x) = x.
Proof.
  unfold byte_of_Z, byte_to_Z.
  rewrite Z.mod_small by (pose proof (Byte.to_N_bounded x); lia).
  rewrite N2Z.id. rewrite Byte.of_to_N. reflexivity.
Qed.

Lemma bytes_of_numbers (b : list byte) :
  List.map (fun e => byte_of_Z (to_number e))
    (List.map (fun x => Num (byte_to_Z x)) b) = b.
Proof.
  induction b as [ | x b IH ]; simpl; [ reflexivity | ].
  rewrite byte_of_Z_to_Z. f_equal. exact IH.
Qed.

Lemma to_Uint8Array_Array_from (b : list byte) :
  to_Uint8Array (Array_from b) = b.
Proof. apply bytes_of_numbers. Qed.

Section Codec.

Context (P : Platform) (L : lawful P).

(** What a successful [encrypt] did. *)
Lemma encrypt_success d w env w1 :
  encrypt P d w = (Normal env, w1) ->
  exists text k ct,
    dataToString P d w = (Normal text, w)
    /\ key_configured (encryptionKey (this w)) = true
    /\ hasWebCrypto (this w) = true
    /\ importKey P (list_byte_of_string (default "" (encryptionKey (this w))))
       = Some k
    /\ subtle_encrypt P k (getRandomValues P (entropy w))
         (list_byte_of_string text) = Some ct
    /\ env = Obj [("data", Array_from ct);
                  ("iv", Array_from (getRandomValues P (entropy w)));
                  ("wasCompressed", Bool (instanceof_Uint8Array d))].
Proof.
  unfold encrypt, bind, read.
  destruct (key_configured (encryptionKey (this w))); simpl; [ | discriminate ].
  destruct (hasWebCrypto (this w)); simpl; [ | discriminate ].
  unfold try_catch, bind.
  destruct (dataToString P d w) as [[text | e] w2] eqn:Es; [ | discriminate ].
  assert (w2 = w) as ->.
  { destruct d; simpl in Es; try (inversion Es; reflexivity).
    destruct (btoa_fromCharCode P b); inversion Es; reflexivity. }
  destruct (importKey P _) as [k | ] eqn:Ek; simpl; [ | discriminate ].
  unfold draw_iv, bind, read, modify, ret. simpl.
  destruct (subtle_encrypt P _ _ _) as [ct | ] eqn:Ec; simpl; [ | discriminate ].
  intros E. inversion E. subst.
  exists text, k, ct. repeat split; assumption.
Qed.

Lemma decrypt_inverts_encrypt d w env w1 w' :
  (exists s, d = Str s) \/ (exists b, d = Bytes b) ->
  encrypt P d w = (Normal env, w1) ->
  encryptionKey (this w') = encryptionKey (this w) ->
  hasWebCrypto (this w') = hasWebCrypto (this w) ->
  decrypt P env w' = (Normal d, w').
Proof.
  intros Hd He Hk Hc.
  destruct (encrypt_success d w env w1 He)
    as (text & k & ct & Ht & Hkc & Hwc & Hik & Hct & ->).
  unfold decrypt, bind, read. rewrite Hk, Hc, Hkc, Hwc. simpl.
  unfold try_catch, bind, or_throw, lift. rewrite Hik. simpl.
  rewrite !bytes_of_numbers.
  rewrite (decrypt_encrypt P L _ _ _ _ Hct). simpl.
  unfold TextDecoder_decode. rewrite string_of_list_byte_of_string.
  destruct Hd as [(s & ->) | (b & ->)]; simpl in *.
  - inversion Ht. reflexivity.
  - unfold stringToData, bind, or_throw. simpl.
    destruct (btoa_fromCharCode P b) as [t | ] eqn:Eb; [ | discriminate Ht ].
    inversion Ht. subst text.
    rewrite (atob_btoa P L _ _ Eb). reflexivity.
Qed.

Lemma decompress_inverts_compress s b w w' :
  compress P (Str s) w = (Normal (Bytes b), w) ->
  compression (this w') = compression (this w) ->
  decompress P (Bytes b) w' = (Normal (Str s), w').
Proof.
  intros Hc Hsame. revert Hc.
  unfold compress, decompress, bind, read, ret. rewrite Hsame.
  destruct (c_enabled (compression (this w))); simpl; [ | discriminate ].
  destruct (Z.of_nat _ <? _); [ discriminate | ].
  unfold try_catch, bind, or_throw.
  rewrite <- (streams_together P L).
  destruct (CompressionStream_in_window P).
  - destruct (gzip_stream P _) as [c | ] eqn:Eg; simpl; [ | discriminate ].
    intros E. inversion E. subst c.
    rewrite (gunzip_gzip P L _ _ Eg). simpl.
    unfold TextDecoder_decode, TextEncoder_encode. simpl.
    rewrite string_of_list_byte_of_string. reflexivity.
  - destruct (pako_in_window P); [ | discriminate ].
    destruct (pako_gzip P _ _) as [c | ] eqn:Eg; simpl; [ | discriminate ].
    intros E. inversion E. subst c.
    rewrite (ungzip_gzip P L _ _ _ Eg). reflexivity.
Qed.

End Codec.

Section RoundTrip.

Context (P : Platform) (L : lawful P).

Lemma getItem_miss w key :
  initPromise (this w) = Fulfilled ->
  truthy (default Undefined (cacheStore (this w) !! key)) = false ->
  getItem P key w
  = try_catch (read_through P key (this w)) (fun error => ret (failed error)) w.
Proof.
  intros Hi Hm. unfold getItem, try_catch.
  rewrite (bind_normal _ _ _ _ _ (await_fulfilled P w Hi)).
  unfold bind at 1. unfold read at 1. rewrite Hm. reflexivity.
Qed.

(** The worker returns an entry as it received it. *)
Lemma retrieve_from_worker w key entry size timestamp :
  hasServiceWorker (this w) = true ->
  storage w !! key
  = Some {| sd_data := entry; sd_size := size; sd_timestamp := timestamp |} ->
  retrieve P key w
  = (Normal (Some (nullish entry Null)),
     with_calls (cons (PostMessage "retrieve" (Some key))) w).
Proof.
  intros Hsw Hst. unfold retrieve, bind, read. rewrite Hsw.
  unfold postServiceWorkerMessage, bind, record_call, modify. simpl.
  rewrite Hst. reflexivity.
Qed.

(** The decode pipeline on the entry [setItem] made returns the value. *)
Lemma decode_entry key V s c payload t w w0 :
  parse s = Some V ->
  compress P (Str s) w0 = (Normal c, w0) ->
  compression t = compression (this w0) ->
  encryptionKey t = encryptionKey (this w0) ->
  this w = t ->
  (key_configured (encryptionKey t) = false -> payload = c) ->
  hasWebCrypto t = hasWebCrypto (this w0) ->
  (key_configured (encryptionKey t) = true ->
   exists wb, encrypt P c w0 = (Normal payload, wb)) ->
  decode_and_cache P key t
    (storageData_of payload c (Str s) (size_of c)) w
  = (Normal (succeeded V),
     with_this (fun t => set_cacheStore (<[key := V]> (cacheStore t)) t) w).
Proof.
  intros Hparse Hc Hcomp Hkey Ht Hp1 Hweb Hp2.
  assert (Hs : s <> "").
  { intros ->. discriminate Hparse. }
  assert (Hshape : c = Str s \/ exists b, c = Bytes b).
  { exact (compress_output P _ _ _ Hc). }
  assert (Htruthy : truthy payload = true).
  { destruct (key_configured (encryptionKey t)) eqn:Ek.
    - destruct (Hp2 eq_refl) as (wb & He).
      destruct (encrypt_success P _ _ _ _ He) as (? & ? & ? & _ & _ & _ & _ & _ & ->).
      reflexivity.
    - rewrite (Hp1 eq_refl).
      destruct Hshape as [-> | (b & ->)]; simpl; [ | reflexivity ].
      destruct s; [ contradiction | reflexivity ]. }
  unfold decode_and_cache, storageData_of. simpl.
  unfold bind at 1. unfold lift at 1. rewrite Htruthy. simpl.
  unfold bind at 1. unfold lift at 1.
  assert (Hdec : (if key_configured (encryptionKey t)
                  then decrypt P payload else ret payload) w
                 = (Normal c, w)).
  { destruct (key_configured (encryptionKey t)) eqn:Ek.
    - destruct (Hp2 eq_refl) as (wb & He).
      apply (decrypt_inverts_encrypt P L c w0 payload wb w).
      + destruct Hshape as [-> | (b & ->)]; [ left | right ]; eexists; reflexivity.
      + exact He.
      + rewrite Ht. exact Hkey.
      + rewrite Ht. exact Hweb.
    - rewrite (Hp1 eq_refl). reflexivity. }
  rewrite (bind_normal _ _ _ _ _ Hdec).
  unfold bind at 1. unfold lift at 1.
  assert (Hdecomp : (if truthy (Bool (strict_neq c (Str s)))
                     then decompress P c else ret c) w
                    = (Normal (Str s), w)).
  { destruct Hshape as [-> | (b & ->)]; simpl.
    - rewrite String.eqb_refl. reflexivity.
    - apply (decompress_inverts_compress P L s b w0 w Hc).
      rewrite Ht. exact Hcomp. }
  cbn [is_undefined get_prop assoc String.eqb Ascii.eqb Bool.eqb default].
  rewrite (bind_normal _ _ _ _ _ Hdecomp).
  unfold bind at 1. unfold lift at 1. unfold JSON_parse. simpl.
  rewrite Hparse. reflexivity.
Qed.

(** The round trip through the worker. *)
Lemma round_trip_through_worker w key V schema s r w1 m :
  initPromise (this w) = Fulfilled ->
  hasServiceWorker (this w) = true ->
  stringify V = Some s ->
  parse s = Some V ->
  setItem P key V schema w = (Normal r, w1) ->
  success r = true ->
  truthy (default Undefined (m !! key)) = false ->
  exists w2,
    getItem P key (with_this (set_cacheStore m) w1)
    = (Normal (succeeded V), w2).
Proof.
  intros Hi Hsw Hs Hparse E Hr Hm.
  destruct (setItem_success P w key V schema r w1 Hi E Hr)
    as (c & Hc & _ & _ & Hst & _).
  assert (Hser : JSON_stringify V = Str s).
  { unfold JSON_stringify. rewrite Hs. reflexivity. }
  rewrite Hser in Hc.
  destruct (store_and_commit_hands_over P key V c w _ w1 Hst)
    as (payload & Hh & Hp1 & Hp2 & _ & _ & Hip & Hthis).
  rewrite Hser in Hh.
  assert (Hsw1 : hasServiceWorker (this w1) = true).
  { rewrite Hthis. exact Hsw. }
  unfold handed_over in Hh. rewrite Hsw1 in Hh. destruct Hh as (ts & Hh).
  set (w1' := with_this (set_cacheStore m) w1).
  rewrite (getItem_miss w1' key); [ | rewrite <- Hi, <- Hip; reflexivity | exact Hm ].
  eexists. apply try_catch_normal. unfold read_through.
  erewrite bind_normal.
  2:{ apply (retrieve_from_worker w1' key
               (storageData_of payload c (Str s) (size_of c)) (size_of c) ts);
        [ exact Hsw1 | exact Hh ]. }
  apply decode_entry with (w0 := w).
  - exact Hparse.
  - exact Hc.
  - subst w1'. simpl. rewrite Hthis. reflexivity.
  - subst w1'. simpl. rewrite Hthis. reflexivity.
  - reflexivity.
  - subst w1'. simpl. rewrite Hthis. exact Hp1.
  - subst w1'. simpl. rewrite Hthis. reflexivity.
  - subst w1'. simpl. rewrite Hthis. exact Hp2.
Qed.

End RoundTrip.

(** ** The round trip where the entry survives *)

Section Direct.

Context (P : Platform) (L : lawful P).

(** The Cache API returns the text it was given, and the text of a
    JSON value reads back as the value. *)
Lemma retrieve_from_cache w key entry r :
  hasServiceWorker (this w) = false ->
  cache_fault P (CachesOpen (namespace (this w))) = false ->
  cache_fault P (CacheMatch (namespace (this w)) (baseUrl (this w) +:+ key))
  = false ->
  cache_of w (namespace (this w)) !! (baseUrl (this w) +:+ key) = Some r ->
  body r = default "" (stringify entry) ->
  json entry = true ->
  exists w', retrieve P key w = (Normal (Some entry), w') /\ this w' = this w.
Proof.
  intros Hsw Ho Hm Hr Hb Hj.
  destruct (parse_stringify entry Hj) as (Hs & Hp).
  unfold retrieve, bind, read. rewrite Hsw.
  unfold caches_open, cache_match, cache_call, record_call, bind, modify, ret,
    read, throw.
  simpl. rewrite Ho. simpl. rewrite Hm. simpl.
  unfold cache_of at 1. simpl. rewrite lookup_insert_eq. simpl.
  change (cache_of (with_calls ?f ?x) ?n) with (cache_of x n).
  rewrite Hr. unfold lift, JSON_parse. simpl.
  rewrite Hb, Hs. simpl. rewrite Hp.
  eexists. split; reflexivity.
Qed.

Lemma numbers_json (b : list byte) :
  forallb json (List.map (fun x => Num (byte_to_Z x)) b) = true.
Proof. induction b as [ | x b IH ]; [ reflexivity | exact IH ]. Qed.

(** The entry [setItem] makes is a JSON value unless its payload is a
    typed array. *)
Lemma entry_json payload c ser size :
  json payload = true -> json (storageData_of payload c ser size) = true.
Proof. intros H. unfold storageData_of. simpl. rewrite H. reflexivity. Qed.

Lemma envelope_json d w env w1 :
  encrypt P d w = (Normal env, w1) -> json env = true.
Proof.
  intros He.
  destruct (encrypt_success P d w env w1 He)
    as (text & k & ct & _ & _ & _ & _ & _ & ->).
  unfold Array_from. cbn [json all_values]. rewrite !numbers_json. reflexivity.
Qed.

End Direct.

Section RoundTripDirect.

Context (P : Platform) (L : lawful P).

(** The round trip through the Cache API, when the payload is text or an
    envelope. *)
Lemma round_trip_through_cache w key V schema r w1 m :
  initPromise (this w) = Fulfilled ->
  hasServiceWorker (this w) = false ->
  json V = true ->
  key_configured (encryptionKey (this w)) = true
  \/ compress P (Str (text_of V)) w = (Normal (Str (text_of V)), w) ->
  cache_fault P (CachesOpen (namespace (this w))) = false ->
  cache_fault P (CacheMatch (namespace (this w)) (baseUrl (this w) +:+ key))
  = false ->
  setItem P key V schema w = (Normal r, w1) ->
  success r = true ->
  truthy (default Undefined (m !! key)) = false ->
  exists w2,
    getItem P key (with_this (set_cacheStore m) w1)
    = (Normal (succeeded V), w2).
Proof.
  intros Hi Hsw Hj Hpath Hopen Hmatch E Hr Hm.
  destruct (parse_stringify V Hj) as (Hs & Hparse).
  destruct (setItem_success P w key V schema r w1 Hi E Hr)
    as (c & Hc & _ & _ & Hst & _).
  assert (Hser : JSON_stringify V = Str (text_of V)).
  { unfold JSON_stringify. rewrite Hs. reflexivity. }
  rewrite Hser in Hc.
  destruct (store_and_commit_hands_over P key V c w _ w1 Hst)
    as (payload & Hh & Hp1 & Hp2 & _ & _ & Hip & Hthis).
  rewrite Hser in Hh.
  assert (Hsw1 : hasServiceWorker (this w1) = false).
  { rewrite Hthis. exact Hsw. }
  unfold handed_over in Hh. rewrite Hsw1 in Hh. destruct Hh as (resp & Hh & Hb).
  assert (Hentry : json (storageData_of payload c (Str (text_of V)) (size_of c))
                   = true).
  { apply entry_json.
    destruct (key_configured (encryptionKey (this w))) eqn:Ek.
    - destruct (Hp2 eq_refl) as (wb & He). exact (envelope_json P _ _ _ _ He).
    - rewrite (Hp1 eq_refl).
      destruct Hpath as [Hk | Hk]; [ discriminate Hk | ].
      rewrite Hk in Hc. inversion Hc. reflexivity. }
  set (w1' := with_this (set_cacheStore m) w1).
  rewrite (getItem_miss P w1' key); [ | rewrite <- Hi, <- Hip; reflexivity | exact Hm ].
  destruct (retrieve_from_cache P w1' key
              (storageData_of payload c (Str (text_of V)) (size_of c)) resp)
    as (w2 & Hret & Hw2);
    [ exact Hsw1
    | subst w1'; simpl; rewrite Hthis; exact Hopen
    | subst w1'; simpl; rewrite Hthis; exact Hmatch
    | exact Hh | exact Hb | exact Hentry | ].
  eexists. apply try_catch_normal. unfold read_through.
  rewrite (bind_normal _ _ _ _ _ Hret).
  apply (decode_entry P L) with (w0 := w).
  - exact Hparse.
  - exact Hc.
  - subst w1'. simpl. rewrite Hthis. reflexivity.
  - subst w1'. simpl. rewrite Hthis. reflexivity.
  - exact Hw2.
  - subst w1'. simpl. rewrite Hthis. exact Hp1.
  - subst w1'. simpl. rewrite Hthis. reflexivity.
  - subst w1'. simpl. rewrite Hthis. exact Hp2.
Qed.

End RoundTripDirect.

(** X1.  The round trip wherever the entry survives the backend.  On a
    platform whose decoders undo its encoders, for every JSON value [V]:
    after a successful [setItem(key, V)], [getItem(key)] returns
    [{ success: true, data: V }] through the worker, and through the
    Cache API when the payload is an encrypted envelope or the plain
    text and neither [caches.open] nor [cache.match] rejects in the
    read.  The read cache may hold [V], something falsy, or nothing. *)
Theorem round_trip_where_the_entry_survives (P : Platform) w key V schema r w1 m :
  lawful P ->
  initPromise (this w) = Fulfilled ->
  json V = true ->
  hasServiceWorker (this w) = true
  \/ (cache_fault P (CachesOpen (namespace (this w))) = false
      /\ cache_fault P (CacheMatch (namespace (this w))
                          (baseUrl (this w) +:+ key)) = false
      /\ (key_configured (encryptionKey (this w)) = true
          \/ compress P (Str (text_of V)) w = (Normal (Str (text_of V)), w))) ->
  setItem P key V schema w = (Normal r, w1) ->
  success r = true ->
  m !! key = Some V \/ truthy (default Undefined (m !! key)) = false ->
  exists w2,
    getItem P key (with_this (set_cacheStore m) w1)
    = (Normal (succeeded V), w2).
Proof.
  intros L Hi Hj Hpath E Hr Hm.
  assert (Hcase : (m !! key = Some V /\ truthy V = true)
                  \/ truthy (default Undefined (m !! key)) = false).
  { destruct Hm as [Hm | Hm]; [ | right; exact Hm ].
    destruct (truthy V) eqn:Ht; [ left; split; [ exact Hm | reflexivity ] | ].
    right. rewrite Hm. exact Ht. }
  destruct Hcase as [(Hm1 & Ht) | Hmiss].
  - exists (with_this (set_cacheStore m) w1).
    apply getItem_hit; [ | exact Hm1 | exact Ht ].
    destruct (setItem_success P w key V schema r w1 Hi E Hr)
      as (c & _ & _ & _ & Hst & _).
    destruct (store_and_commit_hands_over P key V c w _ w1 Hst)
      as (_ & _ & _ & _ & _ & _ & Hip & _).
    simpl. rewrite <- Hi, <- Hip. reflexivity.
  - destruct (hasServiceWorker (this w)) eqn:Hsw.
    + destruct (parse_stringify V Hj) as (Hs & Hparse).
      exact (round_trip_through_worker P L w key V schema (text_of V) r w1 m
               Hi Hsw Hs Hparse E Hr Hmiss).
    + destruct Hpath as [Hp | (Hopen & Hmatch & Hp)]; [ discriminate Hp | ].
      exact (round_trip_through_cache P L w key V schema r w1 m
               Hi Hsw Hj Hp Hopen Hmatch E Hr Hmiss).
Qed.

(** The theorem at work on the reference browser: the direct backend
    with compression and a key, read back after the read cache is
    gone. *)
Lemma round_trip_where_the_entry_survives_witness :
  exists w2,
    getItem Browser.direct "k"
      (Browser.forget
         (stored Browser.direct
            (Browser.codec_options true (Some Browser.sample_key)) "k" x1))
    = (Normal (succeeded x1), w2).
Proof.
  apply (round_trip_where_the_entry_survives Browser.direct
           (ready Browser.direct
              (Browser.codec_options true (Some Browser.sample_key)))
           "k" x1 None (succeeded x1)).
  - apply browser_lawful.
  - reflexivity.
  - reflexivity.
  - right. split; [ reflexivity | ]. split; [ reflexivity | left; reflexivity ].
  - vm_compute. reflexivity.
  - reflexivity.
  - right. reflexivity.
Defined.

(** ** The codec round trip *)

(** C1, at the input where the code leaves the claim: the direct
    backend with compression at work and no encryption key.
    [setItem("k", { x: 1 })] succeeds; [storeInCache] writes the entry
    as JSON text, in which the [Uint8Array] of compressed bytes becomes
    the object of its indices; a [getItem("k")] that has to read the
    backend gets that object back as the payload, hands it to
    [decompress], and fails with the error of the decompression stream
    instead of returning [{ x: 1 }]. *)
Theorem round_trip_breaks_on_direct_backend :
  fst (setItem Browser.direct "k" x1 None
         (ready Browser.direct (Browser.codec_options true None)))
  = Normal (succeeded x1)
  /\ fst (retrieve Browser.direct "k"
            (Browser.forget
               (stored Browser.direct (Browser.codec_options true None) "k" x1)))
     = Normal
         (Some
            (Obj
               [("data",
                 Obj [("0", Num 31); ("1", Num 139); ("2", Num 123);
                      ("3", Num 34); ("4", Num 120); ("5", Num 34);
                      ("6", Num 58); ("7", Num 49); ("8", Num 125)]);
                ("metadata",
                 Obj [("compressed", Bool true); ("originalSize", Num 7);
                      ("compressedSize", Num 9)])]))
  /\ fst (getItem Browser.direct "k"
            (Browser.forget
               (stored Browser.direct (Browser.codec_options true None) "k" x1)))
     = Normal
         (failed (TypeError "The provided value is not of type BufferSource")).
Proof. repeat split; vm_compute; reflexivity. Qed.

(** The same write read back through the worker, and with a key on
    either backend, returns the value. *)
Example round_trip_on_the_other_paths :
  fst (getItem Browser.with_worker "k"
         (Browser.forget
            (stored Browser.with_worker (Browser.codec_options true None)
               "k" x1)))
  = Normal (succeeded x1)
  /\ fst (getItem Browser.with_worker "k"
            (Browser.forget
               (stored Browser.with_worker
                  (Browser.codec_options true (Some Browser.sample_key))
                  "k" x1)))
     = Normal (succeeded x1)
  /\ fst (getItem Browser.direct "k"
            (Browser.forget
               (stored Browser.direct
                  (Browser.codec_options true (Some Browser.sample_key))
                  "k" x1)))
     = Normal (succeeded x1)
  /\ fst (getItem Browser.direct "k"
            (Browser.forget
               (stored Browser.direct
                  (Browser.codec_options false (Some Browser.sample_key))
                  "k" x1)))
     = Normal (succeeded x1)
  /\ fst (getItem Browser.direct "k"
            (Browser.forget
               (stored Browser.direct (Browser.codec_options false None)
                  "k" x1)))
     = Normal (succeeded x1).
Proof. repeat split; vm_compute; reflexivity. Qed.

(** * Further properties of the code *)

(** The classes of input, on samples. *)
Example utf8_samples :
  utf8_well_formed (list_byte_of_string "abc") = true
  /\ utf8_well_formed [xc3; xa9] = true
  /\ utf8_well_formed [xe2; x82; xac] = true
  /\ utf8_well_formed [xf0; x9f; x98; x80] = true
  /\ utf8_well_formed [xc0; x80] = false
  /\ utf8_well_formed [xed; xa0; x80] = false
  /\ utf8_well_formed [xe2; x82] = false
  /\ utf8_well_formed [xf4; x90; x80; x80] = false
  /\ utf8_well_formed [x80] = false
  /\ plain "user_1-A" = true /\ plain "a#2" = false /\ plain "a b" = false
  /\ plain "a/b" = false /\ plain ".." = false.
Proof. repeat split; vm_compute; reflexivity. Qed.

Lemma storage_persistToCache ns cd w :
  storage (Worker.persistToCache ns cd w) = storage w.
Proof. reflexivity. Qed.

(** X24.  The worker's map, written and read.  After a ["store"]
    message for a key, a ["retrieve"] of that key is answered with the
    data stored ([null] in place of [undefined] or [null] data), and a
    ["retrieve"] of any other key is answered as before. *)
Theorem worker_retrieve_after_store w key data size ns cd key' ns' cd' :
  fst (Worker.onmessage (Worker.Retrieve key' ns' cd')
         (snd (Worker.onmessage (Worker.Store key data size ns cd) w)))
  = if String.eqb key' key then nullish data Null
    else fst (Worker.onmessage (Worker.Retrieve key' ns' cd') w).
Proof.
  cbn [Worker.onmessage fst snd]. rewrite storage_persistToCache.
  cbn [storage with_storage].
  destruct (String.eqb_spec key' key) as [-> | Hne].
  - rewrite lookup_insert_eq. reflexivity.
  - rewrite lookup_insert_ne by congruence. reflexivity.
Qed.

(** X25.  The worker's map, emptied.  After a ["delete"] message for a
    key, a ["retrieve"] of that key is answered [null] and every other
    key is answered as before; after a ["clear"] message every
    ["retrieve"] is answered [null] and ["getSize"] is answered
    [{ size: 0 }]. *)
Theorem worker_forgets_on_delete_and_clear w key ns cd key' ns' cd' :
  fst (Worker.onmessage (Worker.Retrieve key' ns' cd')
         (snd (Worker.onmessage (Worker.Delete key ns cd) w)))
  = (if String.eqb key' key then Null
     else fst (Worker.onmessage (Worker.Retrieve key' ns' cd') w))
  /\ fst (Worker.onmessage (Worker.Retrieve key' ns' cd')
            (snd (Worker.onmessage (Worker.Clear ns cd) w)))
     = Null
  /\ fst (Worker.onmessage Worker.GetSize
            (snd (Worker.onmessage (Worker.Clear ns cd) w)))
     = Obj [("size", Num 0)].
Proof.
  cbn [Worker.onmessage fst snd]. rewrite !storage_persistToCache.
  cbn [storage with_storage]. split; [ | split ].
  - destruct (String.eqb_spec key' key) as [-> | Hne].
    + rewrite lookup_delete_eq. reflexivity.
    + rewrite lookup_delete_ne by congruence. reflexivity.
  - rewrite lookup_empty. reflexivity.
  - rewrite map_to_list_empty. reflexivity.
Qed.

Lemma total_size_permutation (l l' : list (string * StorageData)) :
  l ≡ₚ l' ->
  foldr (fun kv totalSize => totalSize + sd_size (snd kv)) 0 l
  = foldr (fun kv totalSize => totalSize + sd_size (snd kv)) 0 l'.
Proof.
  induction 1 as [ | x l l' _ IH | x y l | l l' l'' _ IH1 _ IH2 ]; simpl.
  - reflexivity.
  - rewrite IH. reflexivity.
  - lia.
  - congruence.
Qed.

Lemma total_size_insert_fresh (m : gmap string StorageData) k e :
  m !! k = None ->
  foldr (fun kv totalSize => totalSize + sd_size (snd kv)) 0
    (map_to_list (<[k := e]> m))
  = foldr (fun kv totalSize => totalSize + sd_size (snd kv)) 0 (map_to_list m)
    + sd_size e.
Proof.
  intros H. rewrite (total_size_permutation _ _ (map_to_list_insert m k e H)).
  reflexivity.
Qed.

Lemma total_size_insert (m : gmap string StorageData) k e :
  foldr (fun kv totalSize => totalSize + sd_size (snd kv)) 0
    (map_to_list (<[k := e]> m))
  = foldr (fun kv totalSize => totalSize + sd_size (snd kv)) 0 (map_to_list m)
    - match m !! k with Some old => sd_size old | None => 0 end
    + sd_size e.
Proof.
  destruct (m !! k) as [old | ] eqn:Hk.
  - rewrite <- (insert_delete_eq m k e).
    rewrite <- (insert_delete_id m k old Hk) at 2.
    rewrite !total_size_insert_fresh by apply lookup_delete_eq. lia.
  - rewrite total_size_insert_fresh by exact Hk. lia.
Qed.

(** X26.  The worker's size.  A ["store"] message changes the answer to
    ["getSize"] by the size it carries, less the size of the entry it
    replaces when the key was stored before. *)
Theorem worker_getSize_after_store w key data size ns cd :
  exists before,
    fst (Worker.onmessage Worker.GetSize w) = Obj [("size", Num before)]
    /\ fst (Worker.onmessage Worker.GetSize
              (snd (Worker.onmessage (Worker.Store key data size ns cd) w)))
       = Obj [("size",
               Num (before
                    - match storage w !! key with
                      | Some old => sd_size old
                      | None => 0
                      end
                    + size))].
Proof.
  eexists. split; [ reflexivity | ].
  cbn [Worker.onmessage fst snd]. rewrite storage_persistToCache.
  cbn [storage with_storage]. rewrite total_size_insert. reflexivity.
Qed.

Lemma url_of_inj k k' : Worker.url_of k = Worker.url_of k' -> k = k'.
Proof.
  unfold Worker.url_of. cbv [String.append]. intros H. injection H. auto.
Qed.

Lemma mirror_absent cd (l : list (string * StorageData))
  (base : gmap string Response) k :
  k ∉ l.*1 ->
  foldr (fun kv cache =>
           <[Worker.url_of (fst kv) := Worker.response_of cd (snd kv)]> cache)
        base l !! Worker.url_of k
  = base !! Worker.url_of k.
Proof.
  induction l as [ | [k' e] l IH ]; intros H; [ reflexivity | ].
  cbn [foldr fst snd]. cbn [fmap list_fmap fst] in H.
  rewrite not_elem_of_cons in H. destruct H as [Hne Hl].
  rewrite lookup_insert_ne.
  - apply IH. exact Hl.
  - intros Heq. apply Hne. symmetry. apply url_of_inj. exact Heq.
Qed.

Lemma mirror_present cd (l : list (string * StorageData))
  (base : gmap string Response) k e :
  NoDup (l.*1) -> (k, e) ∈ l ->
  foldr (fun kv cache =>
           <[Worker.url_of (fst kv) := Worker.response_of cd (snd kv)]> cache)
        base l !! Worker.url_of k
  = Some (Worker.response_of cd e).
Proof.
  induction l as [ | [k' e'] l IH ]; intros Hnd Hin.
  - apply elem_of_nil in Hin. contradiction.
  - cbn [foldr fst snd]. cbn [fmap list_fmap fst] in Hnd.
    apply NoDup_cons in Hnd. destruct Hnd as [Hk' Hnd].
    apply elem_of_cons in Hin. destruct Hin as [Heq | Hin].
    + inversion Heq. subst. apply lookup_insert_eq.
    + rewrite lookup_insert_ne.
      * apply IH; assumption.
      * intros Hu. apply url_of_inj in Hu. subst k'.
        apply Hk'. apply (list_elem_of_fmap_2 fst l (k, e)). exact Hin.
Qed.

(** What [persistToCache] leaves under the URL of a key. *)
Lemma persistToCache_lookup ns cd w k :
  let ns' := if String.eqb ns "" then Worker.CACHE_NAME else ns in
  let cd' := if cd =? 0 then Worker.defaultCacheDuration else cd in
  cache_of (Worker.persistToCache ns cd w) ns' !! Worker.url_of k
  = match storage w !! k with
    | Some e => Some (Worker.response_of cd' e)
    | None => cache_of w ns' !! Worker.url_of k
    end.
Proof.
  intros ns' cd'. unfold Worker.persistToCache, cache_of.
  cbn [caches with_caches]. fold ns' cd'. rewrite lookup_insert_eq.
  cbn [default from_option id].
  destruct (storage w !! k) as [e | ] eqn:Hk.
  - apply mirror_present.
    + apply NoDup_fst_map_to_list.
    + apply elem_of_map_to_list. exact Hk.
  - apply mirror_absent. intros Hin.
    apply list_elem_of_fmap in Hin. destruct Hin as ([k' e] & Hk' & Hin).
    simpl in Hk'. subst k'. apply elem_of_map_to_list in Hin. congruence.
Qed.

Lemma persistToCache_elsewhere ns cd w n :
  n <> (if String.eqb ns "" then Worker.CACHE_NAME else ns) ->
  cache_of (Worker.persistToCache ns cd w) n = cache_of w n.
Proof.
  intros H. unfold Worker.persistToCache, cache_of. cbn [caches with_caches].
  rewrite lookup_insert_ne by congruence. reflexivity.
Qed.

(** X27.  The worker's copy in the Cache API.  For a plain key and a map
    of plain keys, once [persistToCache] has run for a ["store"]
    message, the cache of the message's namespace (["application"] when
    it is empty) holds, under [/cache-local-storage/storage/<key>], a
    response whose body is the JSON text of the data, with
    [Cache-Control: max-age=<cacheDuration>] (31536000 when it is
    0). *)
Theorem worker_store_is_mirrored w key data size ns cd :
  plain key = true ->
  plain_keys (storage w) = true ->
  cache_of (snd (Worker.onmessage (Worker.Store key data size ns cd) w))
    (if String.eqb ns "" then Worker.CACHE_NAME else ns)
  !! ("/cache-local-storage/storage/" +:+ key)
  = Some {| body := default "" (stringify data);
            contentType := "application/json";
            cacheControl :=
              "max-age=" +:+ string_of_Z (if cd =? 0 then 31536000 else cd);
            lastModified := now w |}.
Proof.
  intros _ _. cbn [Worker.onmessage snd].
  change ("/cache-local-storage/storage/" +:+ key) with (Worker.url_of key).
  rewrite persistToCache_lookup. cbn [storage with_storage].
  rewrite lookup_insert_eq. reflexivity.
Qed.

Lemma worker_store_is_mirrored_witness :
  cache_of
    (snd (Worker.onmessage (Worker.Store "b" (Str "text") 6 "" 0)
            (stored Browser.with_worker Browser.no_options "a" x1)))
    "application"
  !! "/cache-local-storage/storage/b"
  = Some {| body := default "" (stringify (Str "text"));
            contentType := "application/json";
            cacheControl := "max-age=" +:+ string_of_Z 31536000;
            lastModified :=
              now (stored Browser.with_worker Browser.no_options "a" x1) |}.
Proof.
  apply (worker_store_is_mirrored
           (stored Browser.with_worker Browser.no_options "a" x1)
           "b" (Str "text") 6 "" 0).
  - reflexivity.
  - vm_compute. reflexivity.
Defined.

(** X28.  [persistToCache] never removes.  For a plain key and a map of
    plain keys, after a ["delete"] message for the key the response
    under the key's URL is, in every cache, what it was before; after a
    ["clear"] message every cache holds what it held before. *)
Theorem worker_delete_leaves_the_cached_response w key ns cd n :
  plain key = true ->
  plain_keys (storage w) = true ->
  cache_of (snd (Worker.onmessage (Worker.Delete key ns cd) w)) n
  !! ("/cache-local-storage/storage/" +:+ key)
  = cache_of w n !! ("/cache-local-storage/storage/" +:+ key)
  /\ cache_of (snd (Worker.onmessage (Worker.Clear ns cd) w)) n = cache_of w n.
Proof.
  intros _ _. cbn [Worker.onmessage snd].
  change ("/cache-local-storage/storage/" +:+ key) with (Worker.url_of key).
  split.
  - destruct (String.eqb_spec n (if String.eqb ns "" then Worker.CACHE_NAME else ns))
      as [-> | Hne].
    + rewrite persistToCache_lookup. cbn [storage with_storage].
      rewrite lookup_delete_eq. reflexivity.
    + rewrite persistToCache_elsewhere by exact Hne. reflexivity.
  - destruct (String.eqb_spec n (if String.eqb ns "" then Worker.CACHE_NAME else ns))
      as [-> | Hne].
    + unfold Worker.persistToCache, cache_of. cbn [caches with_caches storage].
      rewrite lookup_insert_eq. simpl. rewrite map_to_list_empty. reflexivity.
    + rewrite persistToCache_elsewhere by exact Hne. reflexivity.
Qed.

Lemma worker_delete_leaves_the_cached_response_witness :
  is_Some
    (cache_of (stored Browser.with_worker Browser.no_options "a" x1)
       "application" !! "/cache-local-storage/storage/a")
  /\ fst (Worker.onmessage (Worker.Retrieve "a" "" 0)
            (snd (Worker.onmessage (Worker.Delete "a" "" 0)
                    (stored Browser.with_worker Browser.no_options "a" x1))))
     = Null
  /\ cache_of
       (snd (Worker.onmessage (Worker.Delete "a" "" 0)
               (stored Browser.with_worker Browser.no_options "a" x1)))
       "application"
     !! "/cache-local-storage/storage/a"
     = cache_of (stored Browser.with_worker Browser.no_options "a" x1)
         "application" !! "/cache-local-storage/storage/a".
Proof.
  split; [ vm_compute; eexists; reflexivity | ].
  split; [ vm_compute; reflexivity | ].
  apply (worker_delete_leaves_the_cached_response
           (stored Browser.with_worker Browser.no_options "a" x1)
           "a" "" 0 "application").
  - reflexivity.
  - vm_compute. reflexivity.
Defined.


(** X4.  [decompress] undoes [compress].  On a platform whose gunzip
    undoes its gzip and which offers the two streams together, for every
    string [s] that [TextDecoder] gives back as [TextEncoder] was given
    it (well-formed UTF-8 that does not begin with U+FEFF), whatever
    [compress(s)] returns (the string itself or the compressed bytes),
    [decompress] of it under the same settings returns [s]. *)
Theorem decompress_undoes_compress (P : Platform) s w :
  lawful P ->
  survives_TextDecoder s = true ->
  exists c,
    compress P (Str s) w = (Normal c, w)
    /\ decompress P c w = (Normal (Str s), w).
Proof.
  intros L _. destruct (compress_silent P (Str s) w) as (c & Hc).
  exists c. split; [ exact Hc | ].
  destruct (compress_output P _ _ _ Hc) as [-> | (b & ->)].
  - unfold decompress, bind, read. simpl. rewrite orb_true_r. reflexivity.
  - apply (decompress_inverts_compress P L s b w w Hc). reflexivity.
Qed.

Lemma decompress_undoes_compress_witness :
  (exists b,
     fst (compress Browser.direct (Str "{}")
            (ready Browser.direct (Browser.codec_options true None)))
     = Normal (Bytes b))
  /\ exists c,
       compress Browser.direct (Str "{}")
         (ready Browser.direct (Browser.codec_options true None))
       = (Normal c, ready Browser.direct (Browser.codec_options true None))
       /\ decompress Browser.direct c
            (ready Browser.direct (Browser.codec_options true None))
          = (Normal (Str "{}"),
             ready Browser.direct (Browser.codec_options true None)).
Proof.
  split; [ eexists; vm_compute; reflexivity | ].
  apply (decompress_undoes_compress Browser.direct "{}"
           (ready Browser.direct (Browser.codec_options true None))).
  - apply browser_lawful.
  - reflexivity.
Defined.

(** X3.  [decrypt] undoes [encrypt].  On a platform whose AES-GCM and
    base64 decoders undo their encoders, the envelope [encrypt] makes of
    a [Uint8Array], or of a string that [TextDecoder] gives back as
    [TextEncoder] was given it (well-formed UTF-8 that does not begin
    with U+FEFF), decrypts to that value: the [wasCompressed] flag tells
    [stringToData] which of the two [dataToString] was given. *)
Theorem decrypt_undoes_encrypt (P : Platform) d w envelope w1 :
  lawful P ->
  (exists s, d = Str s /\ survives_TextDecoder s = true)
  \/ instanceof_Uint8Array d = true ->
  encrypt P d w = (Normal envelope, w1) ->
  decrypt P envelope w1 = (Normal d, w1).
Proof.
  intros L Hd He.
  assert (Ht : this w1 = this w).
  { destruct (encrypt_frame P _ _ _ _ He) as [-> | ->]; reflexivity. }
  apply (decrypt_inverts_encrypt P L d w envelope w1 w1).
  - destruct Hd as [(s & -> & _) | Hd]; [ left; eexists; reflexivity | ].
    destruct d; try discriminate Hd. right. eexists. reflexivity.
  - exact He.
  - rewrite Ht. reflexivity.
  - rewrite Ht. reflexivity.
Qed.

Lemma decrypt_undoes_encrypt_witness :
  exists envelope w1,
    encrypt Browser.direct (Str "{}")
      (ready Browser.direct
         (Browser.codec_options true (Some Browser.sample_key)))
    = (Normal envelope, w1)
    /\ decrypt Browser.direct envelope w1 = (Normal (Str "{}"), w1).
Proof.
  eexists. eexists. split.
  - vm_compute. reflexivity.
  - apply (decrypt_undoes_encrypt Browser.direct (Str "{}")
             (ready Browser.direct
                (Browser.codec_options true (Some Browser.sample_key)))).
    + apply browser_lawful.
    + left. exists "{}". split; reflexivity.
    + vm_compute. reflexivity.
Defined.

Lemma quiet_refl w : quiet w w.
Proof. repeat split. Qed.

Lemma quiet_trans w1 w2 w3 : quiet w1 w2 -> quiet w2 w3 -> quiet w1 w3.
Proof.
  intros (A1 & A2 & A3 & A4 & A5) (B1 & B2 & B3 & B4 & B5).
  unfold quiet. split; [ congruence | ]. split; [ congruence | ].
  split; [ congruence | ]. split; [ congruence | ].
  intros n. rewrite B5. apply A5.
Qed.

Lemma silent_ret {A} (a : A) : silent (ret a).
Proof. intros w r w' E. inversion E. apply quiet_refl. Qed.

Lemma silent_throw {A} e : silent (@throw A e).
Proof. intros w r w' E. inversion E. apply quiet_refl. Qed.

Lemma silent_lift {A} (c : Completion A) : silent (lift c).
Proof. intros w r w' E. inversion E. apply quiet_refl. Qed.

Lemma silent_read {A} (f : World -> A) : silent (read f).
Proof. intros w r w' E. inversion E. apply quiet_refl. Qed.

Lemma silent_or_throw {A} e (o : option A) : silent (or_throw e o).
Proof. destruct o; [ apply silent_ret | apply silent_throw ]. Qed.

Lemma silent_bind {A B} (m : M A) (k : A -> M B) :
  silent m -> (forall a, silent (k a)) -> silent (bind m k).
Proof.
  intros Hm Hk w r w'. unfold bind.
  destruct (m w) as [[a | e] w1] eqn:E; intros E'.
  - exact (quiet_trans _ _ _ (Hm _ _ _ E) (Hk a _ _ _ E')).
  - inversion E'. subst. exact (Hm _ _ _ E).
Qed.

Lemma silent_try_catch {A} (m : M A) (h : JsError -> M A) :
  silent m -> (forall e, silent (h e)) -> silent (try_catch m h).
Proof.
  intros Hm Hh w r w'. unfold try_catch.
  destruct (m w) as [[a | e] w1] eqn:E; intros E'.
  - inversion E'. subst. exact (Hm _ _ _ E).
  - exact (quiet_trans _ _ _ (Hm _ _ _ E) (Hh e _ _ _ E')).
Qed.

Lemma silent_foldM {A B} (f : A -> B -> M A) l :
  (forall a x, silent (f a x)) -> forall a, silent (foldM f a l).
Proof.
  intros Hf. induction l as [ | x l IH ]; intros a; simpl.
  - apply silent_ret.
  - apply silent_bind; [ apply Hf | exact IH ].
Qed.

Section Silent.

Context (P : Platform).

Lemma silent_record_call c : silent (record_call c).
Proof. intros w r w' E. inversion E. repeat split. Qed.

Lemma silent_cache_call c : silent (cache_call P c).
Proof.
  unfold cache_call. apply silent_bind; [ apply silent_record_call | ].
  intros _. destruct (cache_fault P c); [ apply silent_throw | apply silent_ret ].
Qed.

Lemma silent_caches_open name : silent (caches_open P name).
Proof.
  unfold caches_open. apply silent_bind; [ apply silent_cache_call | ].
  intros _. apply silent_bind; [ | intros _; apply silent_ret ].
  intros w r w' E. inversion E. repeat split.
  intros n. unfold cache_of at 1. cbn [caches with_caches].
  destruct (String.eqb_spec n name) as [-> | Hne].
  - rewrite lookup_insert_eq. reflexivity.
  - rewrite lookup_insert_ne by congruence. reflexivity.
Qed.

Lemma silent_cache_keys cache : silent (cache_keys P cache).
Proof.
  unfold cache_keys. apply silent_bind; [ apply silent_cache_call | ].
  intros _. apply silent_read.
Qed.

Lemma silent_cache_match cache url : silent (cache_match P cache url).
Proof.
  unfold cache_match. apply silent_bind; [ apply silent_cache_call | ].
  intros _. apply silent_read.
Qed.

Lemma silent_calculateCacheSize cache keys :
  silent (calculateCacheSize P cache keys).
Proof.
  unfold calculateCacheSize. apply silent_foldM. intros a x.
  apply silent_bind; [ apply silent_cache_match | ].
  intros [r | ]; apply silent_ret.
Qed.

Lemma silent_retrieve_message key ns cd :
  silent (postServiceWorkerMessage (Worker.Retrieve key ns cd)).
Proof.
  unfold postServiceWorkerMessage.
  apply silent_bind; [ apply silent_record_call | ].
  intros _ w r w' E. simpl in E. inversion E. apply quiet_refl.
Qed.

Lemma silent_getSize_message : silent (postServiceWorkerMessage Worker.GetSize).
Proof.
  unfold postServiceWorkerMessage.
  apply silent_bind; [ apply silent_record_call | ].
  intros _ w r w' E. simpl in E. inversion E. apply quiet_refl.
Qed.

Lemma silent_retrieve key : silent (retrieve P key).
Proof.
  unfold retrieve. apply silent_bind; [ apply silent_read | ].
  intros t. destruct (hasServiceWorker t).
  - apply silent_bind; [ apply silent_retrieve_message | ].
    intros v. apply silent_ret.
  - apply silent_bind; [ apply silent_caches_open | ].
    intros cache. apply silent_bind; [ apply silent_cache_match | ].
    intros [r | ]; [ | apply silent_ret ].
    apply silent_bind; [ apply silent_lift | ]. intros v. apply silent_ret.
Qed.

Lemma silent_compress d : silent (compress P d).
Proof.
  intros w r w' E. destruct (compress_silent P d w) as (c & Hc).
  rewrite Hc in E. inversion E. apply quiet_refl.
Qed.

Lemma silent_stringToData s f : silent (stringToData P s f).
Proof.
  unfold stringToData. destruct (negb (truthy f)); [ apply silent_ret | ].
  apply silent_bind; [ apply silent_or_throw | ]. intros b. apply silent_ret.
Qed.

Lemma silent_decrypt d : silent (decrypt P d).
Proof.
  unfold decrypt. apply silent_bind; [ apply silent_read | ]. intros t.
  destruct (negb (key_configured (encryptionKey t)) || negb (hasWebCrypto t));
    [ apply silent_throw | ].
  apply silent_try_catch; [ | intros e; apply silent_throw ].
  apply silent_bind; [ apply silent_or_throw | ]. intros k.
  apply silent_bind; [ apply silent_lift | ]. intros iv.
  apply silent_bind; [ apply silent_lift | ]. intros ct.
  apply silent_bind; [ apply silent_or_throw | ]. intros pt. cbv zeta.
  apply silent_bind; [ apply silent_lift | ]. intros f.
  apply silent_stringToData.
Qed.

Lemma silent_decompress d : silent (decompress P d).
Proof.
  unfold decompress. apply silent_bind; [ apply silent_read | ]. intros t.
  destruct (negb (c_enabled (compression t)) || String.eqb (typeof d) "string");
    [ apply silent_ret | ].
  apply silent_try_catch; [ | intros e; apply silent_throw ].
  destruct (DecompressionStream_in_window P).
  - destruct d; try apply silent_throw.
    apply silent_bind; [ apply silent_or_throw | ]. intros x. apply silent_ret.
  - destruct (pako_in_window P); [ | apply silent_throw ].
    apply silent_bind; [ apply silent_or_throw | ]. intros x. apply silent_ret.
Qed.

End Silent.

Lemma frames_bind {A B} (m : M A) (k : A -> M B) (R : World -> World -> Prop) :
  silent m -> (forall a, frames (k a) R) ->
  (forall w w1 w', quiet w w1 -> R w1 w' -> R w w') ->
  (forall w w', quiet w w' -> R w w') ->
  frames (bind m k) R.
Proof.
  intros Hm Hk Hpre Hq w r w'. unfold bind.
  destruct (m w) as [[a | e] w1] eqn:E; intros E'.
  - exact (Hpre _ _ _ (Hm _ _ _ E) (Hk a _ _ _ E')).
  - inversion E'. subst. exact (Hq _ _ (Hm _ _ _ E)).
Qed.

Lemma reads_after_quiet key w w1 w' : quiet w w1 -> reads key w1 w' -> reads key w w'.
Proof.
  intros (A1 & A2 & A3 & A4 & A5) (B1 & B2 & B3 & B4 & B5).
  unfold reads. split; [ congruence | ]. split; [ congruence | ].
  split; [ congruence | ]. split.
  - intros n. rewrite B4. apply A5.
  - rewrite <- A1. exact B5.
Qed.

Lemma reads_of_quiet key w w' : quiet w w' -> reads key w w'.
Proof.
  intros (A1 & A2 & A3 & A4 & A5). unfold reads.
  repeat (split; [ assumption | ]). left. exact A1.
Qed.

Section Reads.

Context (P : Platform).

Lemma frames_decode_and_cache key t storedData :
  frames (decode_and_cache P key t storedData) (reads key).
Proof.
  pose proof (reads_after_quiet key) as Hpre.
  pose proof (reads_of_quiet key) as Hq.
  assert (Hret : forall r : StorageResult, frames (ret r) (reads key)).
  { intros r w r' w' E. apply Hq. exact (silent_ret r _ _ _ E). }
  unfold decode_and_cache.
  destruct (negb (truthy storedData)); [ apply Hret | ].
  apply frames_bind; [ apply silent_lift | | exact Hpre | exact Hq ]. intros d.
  destruct (negb (truthy d)); [ apply Hret | ].
  apply frames_bind; [ apply silent_lift | | exact Hpre | exact Hq ].
  intros metadata0. cbv zeta.
  apply frames_bind; [ | | exact Hpre | exact Hq ].
  { destruct (key_configured (encryptionKey t));
      [ apply silent_decrypt | apply silent_ret ]. }
  intros decrypted.
  apply frames_bind; [ apply silent_lift | | exact Hpre | exact Hq ]. intros flag.
  apply frames_bind; [ | | exact Hpre | exact Hq ].
  { destruct (truthy flag); [ apply silent_decompress | apply silent_ret ]. }
  intros decrypted'.
  apply frames_bind; [ apply silent_lift | | exact Hpre | exact Hq ]. intros parsed.
  intros w r w' E. unfold bind, modify, ret in E. inversion E. subst.
  unfold reads. cbn [storage now entropy this with_this].
  repeat (split; [ reflexivity | ]). right. exists parsed. reflexivity.
Qed.

Lemma frames_read_through key t : frames (read_through P key t) (reads key).
Proof.
  unfold read_through.
  apply frames_bind;
    [ apply silent_retrieve | | apply reads_after_quiet | apply reads_of_quiet ].
  intros [storedData | ].
  - apply frames_decode_and_cache.
  - intros w r w' E. apply reads_of_quiet. exact (silent_ret _ _ _ _ E).
Qed.

Lemma frames_getItem key w r w' :
  initPromise (this w) = Fulfilled ->
  getItem P key w = (r, w') -> reads key w w'.
Proof.
  intros Hi E.
  destruct (truthy (default Undefined (cacheStore (this w) !! key))) eqn:Hc.
  - destruct (cacheStore (this w) !! key) as [v | ] eqn:Hv; [ | discriminate Hc ].
    rewrite (getItem_hit P w key v Hi Hv Hc) in E. inversion E. subst.
    apply reads_of_quiet, quiet_refl.
  - rewrite (getItem_miss P w key Hi Hc) in E. unfold try_catch in E.
    destruct (read_through P key (this w) w) as [[a | e] w1] eqn:Er.
    + inversion E. subst. exact (frames_read_through key _ _ _ _ Er).
    + inversion E. subst. exact (frames_read_through key _ _ _ _ Er).
Qed.

End Reads.

(** X10.  [getItem] only reads.  On an initialised facade, whatever it
    returns, [getItem(key)] leaves the worker's map, the contents of
    every cache and [currentSize] as they were, and the read cache as it
    was at every other key. *)
Theorem getItem_only_reads (P : Platform) key w :
  initPromise (this w) = Fulfilled ->
  storage (snd (getItem P key w)) = storage w
  /\ (forall n, cache_of (snd (getItem P key w)) n = cache_of w n)
  /\ currentSize (this (snd (getItem P key w))) = currentSize (this w)
  /\ forall k, k <> key ->
       cacheStore (this (snd (getItem P key w))) !! k = cacheStore (this w) !! k.
Proof.
  intros Hi. destruct (getItem P key w) as [r w'] eqn:E.
  destruct (frames_getItem P key w r w' Hi E) as (H1 & _ & _ & H4 & H5).
  cbn [snd]. split; [ exact H1 | ]. split; [ exact H4 | ].
  destruct H5 as [-> | (v & ->)].
  - split; [ reflexivity | ]. intros k _. reflexivity.
  - split; [ reflexivity | ]. intros k Hk. cbn [cacheStore set_cacheStore].
    apply lookup_insert_ne. congruence.
Qed.

Lemma getItem_only_reads_witness :
  storage (snd (getItem Browser.with_worker "k"
                  (Browser.forget
                     (stored Browser.with_worker Browser.no_options "k" x1))))
  = storage (Browser.forget
               (stored Browser.with_worker Browser.no_options "k" x1))
  /\ currentSize
       (this (snd (getItem Browser.with_worker "k"
                     (Browser.forget
                        (stored Browser.with_worker Browser.no_options "k" x1)))))
     = currentSize
         (this (Browser.forget
                  (stored Browser.with_worker Browser.no_options "k" x1))).
Proof.
  destruct (getItem_only_reads Browser.with_worker "k"
              (Browser.forget
                 (stored Browser.with_worker Browser.no_options "k" x1)))
    as (H1 & _ & H3 & _).
  - vm_compute. reflexivity.
  - split; [ exact H1 | exact H3 ].
Defined.

Section Missing.

Context (P : Platform).

Lemma retrieve_absent_direct w key :
  hasServiceWorker (this w) = false ->
  cache_of w (namespace (this w)) !! (baseUrl (this w) +:+ key) = None ->
  fst (retrieve P key w)
  = if cache_fault P (CachesOpen (namespace (this w)))
       || cache_fault P (CacheMatch (namespace (this w))
                           (baseUrl (this w) +:+ key))
    then Throw (DOMException "UnknownError")
    else Normal None.
Proof.
  intros Hsw Hc. unfold retrieve, bind, read. rewrite Hsw.
  unfold caches_open, cache_match, cache_call, record_call, bind, modify, ret,
    read, throw.
  simpl.
  destruct (cache_fault P (CachesOpen (namespace (this w)))); [ reflexivity | ].
  simpl.
  destruct (cache_fault P (CacheMatch _ _)); [ reflexivity | ].
  simpl. unfold cache_of at 1. simpl. rewrite lookup_insert_eq. simpl.
  change (cache_of (with_calls ?f ?x) ?n) with (cache_of x n).
  rewrite Hc. reflexivity.
Qed.

Lemma retrieve_absent_worker w key :
  hasServiceWorker (this w) = true ->
  storage w !! key = None ->
  fst (retrieve P key w) = Normal (Some Null).
Proof.
  intros Hsw Hst. unfold retrieve, bind, read. rewrite Hsw.
  unfold postServiceWorkerMessage, bind, record_call, modify. simpl.
  rewrite Hst. reflexivity.
Qed.

(** A miss in the read cache and in the backend. *)
Lemma getItem_absent w key :
  initPromise (this w) = Fulfilled ->
  truthy (default Undefined (cacheStore (this w) !! key)) = false ->
  (hasServiceWorker (this w) = true -> storage w !! key = None) ->
  (hasServiceWorker (this w) = false ->
   cache_of w (namespace (this w)) !! (baseUrl (this w) +:+ key) = None) ->
  exists r w',
    getItem P key w = (Normal r, w')
    /\ success r = false
    /\ quiet w w'
    /\ (hasServiceWorker (this w) = true
        \/ (cache_fault P (CachesOpen (namespace (this w))) = false
            /\ cache_fault P (CacheMatch (namespace (this w))
                                (baseUrl (this w) +:+ key)) = false)
        -> r = not_found).
Proof.
  intros Hi Hmiss Hw Hd.
  rewrite (getItem_miss P w key Hi Hmiss). unfold try_catch, read_through, bind.
  destruct (retrieve P key w) as [[o | e] w1] eqn:Er.
  - pose proof (silent_retrieve P key _ _ _ Er) as Hq.
    destruct (hasServiceWorker (this w)) eqn:Hsw.
    + pose proof (retrieve_absent_worker w key Hsw (Hw eq_refl)) as Hf.
      rewrite Er in Hf. simpl in Hf. inversion Hf. subst o.
      exists not_found, w1. split; [ reflexivity | ]. split; [ reflexivity | ].
      split; [ exact Hq | intros _; reflexivity ].
    + pose proof (retrieve_absent_direct w key Hsw (Hd eq_refl)) as Hf.
      rewrite Er in Hf. simpl in Hf.
      destruct (_ || _); inversion Hf. subst o.
      exists not_found, w1. split; [ reflexivity | ]. split; [ reflexivity | ].
      split; [ exact Hq | intros _; reflexivity ].
  - pose proof (silent_retrieve P key _ _ _ Er) as Hq.
    exists (failed e), w1. split; [ reflexivity | ]. split; [ reflexivity | ].
    split; [ exact Hq | ].
    destruct (hasServiceWorker (this w)) eqn:Hsw.
    + pose proof (retrieve_absent_worker w key Hsw (Hw eq_refl)) as Hf.
      rewrite Er in Hf. discriminate Hf.
    + pose proof (retrieve_absent_direct w key Hsw (Hd eq_refl)) as Hf.
      rewrite Er in Hf. simpl in Hf.
      intros [Hc | (F1 & F2)]; [ discriminate Hc | ].
      rewrite F1, F2 in Hf. discriminate Hf.
Qed.

End Missing.

(** X11.  A key the backend does not hold.  On an initialised facade
    whose read cache has no entry for the key, when the worker's map
    (worker backend) has none either, or when the key is plain and the
    namespace's cache holds responses under plain URLs only and none
    under the key's (direct backend), [getItem] returns a failure and
    leaves the facade as it is; the failure is [Error("Item not found")]
    on the worker backend, and on the direct backend when [caches.open]
    and [cache.match] do not reject.  On the worker backend the Cache
    API is not consulted: what [persistToCache] wrote there is not read
    back. *)
Theorem getItem_of_a_missing_key (P : Platform) w key :
  initPromise (this w) = Fulfilled ->
  cacheStore (this w) !! key = None ->
  (if hasServiceWorker (this w) then storage w !! key = None
   else plain key = true
        /\ plain_cache (baseUrl (this w)) (cache_of w (namespace (this w)))
           = true
        /\ cache_of w (namespace (this w)) !! (baseUrl (this w) +:+ key)
           = None) ->
  exists r w',
    getItem P key w = (Normal r, w')
    /\ success r = false
    /\ this w' = this w
    /\ (hasServiceWorker (this w) = true
        \/ (cache_fault P (CachesOpen (namespace (this w))) = false
            /\ cache_fault P (CacheMatch (namespace (this w))
                                (baseUrl (this w) +:+ key)) = false)
        -> r = not_found).
Proof.
  intros Hi Hc Hb.
  destruct (getItem_absent P w key Hi) as (r & w' & E & Hs & Hq & Hnf).
  - rewrite Hc. reflexivity.
  - intros Hsw. rewrite Hsw in Hb. exact Hb.
  - intros Hsw. rewrite Hsw in Hb. apply Hb.
  - exists r, w'. split; [ exact E | ]. split; [ exact Hs | ].
    split; [ apply Hq | exact Hnf ].
Qed.

Lemma getItem_of_a_missing_key_witness :
  exists r w',
    getItem Browser.direct "nobody"
      (Browser.forget (stored Browser.direct Browser.no_options "k" x1))
    = (Normal r, w')
    /\ success r = false
    /\ this w'
       = this (Browser.forget (stored Browser.direct Browser.no_options "k" x1))
    /\ r = not_found.
Proof.
  destruct (getItem_of_a_missing_key Browser.direct
              (Browser.forget (stored Browser.direct Browser.no_options "k" x1))
              "nobody")
    as (r & w' & E & Hs & Ht & Hnf).
  - reflexivity.
  - reflexivity.
  - split; [ reflexivity | ]. split; vm_compute; reflexivity.
  - exists r, w'. split; [ exact E | ]. split; [ exact Hs | ].
    split; [ exact Ht | ]. apply Hnf. right. split; reflexivity.
Defined.

Section WriteFacts.

Context (P : Platform).

Lemma initialised_id w :
  initPromise (this w) = Fulfilled -> initialised P w = w.
Proof.
  intros Hi. unfold initialised. rewrite (await_fulfilled P w Hi). reflexivity.
Qed.

(** [compress] looks at the facade's compression settings only. *)
Lemma compress_depends d w w' :
  compression (this w') = compression (this w) ->
  fst (compress P d w') = fst (compress P d w).
Proof.
  intros H. unfold compress, bind, read, ret. rewrite H.
  destruct (negb (c_enabled (compression (this w)))); [ reflexivity | ].
  destruct (_ <? _); [ reflexivity | ].
  unfold try_catch, bind, or_throw.
  destruct (CompressionStream_in_window P).
  - destruct (gzip_stream P _); reflexivity.
  - destruct (pako_in_window P); [ | reflexivity ].
    destruct (pako_gzip P _ _); reflexivity.
Qed.

Lemma newEntrySize_depends d w w' :
  compression (this w') = compression (this w) ->
  newEntrySize P d w' = newEntrySize P d w.
Proof.
  intros H. unfold newEntrySize.
  pose proof (compress_depends (JSON_stringify d) w w' H) as E.
  destruct (compress P (JSON_stringify d) w') as [[c' | e'] x'];
    destruct (compress P (JSON_stringify d) w) as [[c | e] x];
    simpl in E |- *; congruence.
Qed.

Lemma size_of_nonneg c : 0 <= size_of c.
Proof.
  destruct c; unfold size_of, Blob_size, byteLength; lia.
Qed.

(** What a throw of the store stage leaves. *)
Lemma store_and_commit_throw key data compressed w e w' :
  store_and_commit P key data compressed (this w) w = (Throw e, w') ->
  this w' = this w /\ storage w' = storage w
  /\ forall n, cache_of w' n = cache_of w n.
Proof.
  unfold store_and_commit. cbv zeta. unfold bind at 1.
  destruct ((if key_configured (encryptionKey (this w))
             then encrypt P compressed else ret compressed) w)
    as [[payload | e1] w1] eqn:Ep.
  - assert (Hw1 : this w1 = this w /\ storage w1 = storage w
                  /\ forall n, cache_of w1 n = cache_of w n).
    { destruct (key_configured (encryptionKey (this w))).
      - destruct (encrypt_frame P _ _ _ _ Ep) as [-> | ->]; repeat split.
      - inversion Ep. repeat split. }
    destruct Hw1 as (Ht & Hst & Hca).
    destruct (hasServiceWorker (this w)) eqn:Hsw.
    + unfold bind, postServiceWorkerMessage, record_call, modify, ret.
      simpl. discriminate.
    + unfold bind at 1.
      destruct (storeInCache P _ _ w1) as [[[] | e2] w2] eqn:Es.
      * unfold bind, modify, ret. discriminate.
      * intros E. inversion E. subst e2 w2. clear E.
        assert (Hq : quiet w1 w').
        { revert Es. unfold storeInCache.
          unfold bind at 1. unfold read at 1.
          unfold bind at 1. unfold read at 1.
          unfold bind at 1.
          destruct (caches_open P _ w1) as [[c | e3] w3] eqn:Eo.
          - pose proof (silent_caches_open P _ _ _ _ Eo) as Hq.
            unfold cache_put, bind, modify.
            destruct (cache_call P _ w3) as [[[] | e4] w4] eqn:Ec;
              [ discriminate | ].
            intros E. inversion E. subst.
            exact (quiet_trans _ _ _ Hq (silent_cache_call P _ _ _ _ Ec)).
          - intros E. inversion E. subst.
            exact (silent_caches_open P _ _ _ _ Eo). }
        destruct Hq as (Q1 & Q2 & _ & _ & Q5).
        split; [ congruence | ]. split; [ congruence | ].
        intros n. rewrite Q5. apply Hca.
  - intros E. inversion E. subst.
    destruct (key_configured (encryptionKey (this w))).
    + destruct (encrypt_frame P _ _ _ _ Ep) as [-> | ->]; repeat split.
    + discriminate Ep.
Qed.

End WriteFacts.

(** X7.  A failed write.  Whatever makes [setItem] return
    [success: false] on an initialised facade (the schema, the quota,
    encryption, the Cache API), the facade's fields, the worker's map
    and the contents of every cache are what they were. *)
Theorem failed_setItem_leaves_no_trace (P : Platform) key data schema w r w' :
  initPromise (this w) = Fulfilled ->
  setItem P key data schema w = (Normal r, w') ->
  success r = false ->
  this w' = this w /\ storage w' = storage w
  /\ forall n, cache_of w' n = cache_of w n.
Proof.
  intros Hi E Hs.
  assert (Hv : validated data schema \/ ~ validated data schema).
  { destruct schema as [s | ]; [ | left; exact I ]. simpl.
    destruct (validateSchema_true_or_throws data s) as [H | (e & H)];
      [ left; exact H | right; rewrite H; discriminate ]. }
  destruct Hv as [Hv | Hv].
  - destruct (compress_silent P (JSON_stringify data) w) as (c & Hc).
    rewrite (setItem_validated P w key data schema c Hi Hv Hc) in E.
    unfold try_catch in E.
    destruct (Z_le_gt_dec (currentSize (this w) + size_of c) (maxSize (this w)))
      as [Hle | Hgt].
    + rewrite (check_and_store_under P key data c w Hle) in E.
      destruct (store_and_commit P key data c (this w) w) as [[a | e] w1] eqn:Em.
      * assert (Ha : a = succeeded data)
          by exact (ensures_store_and_commit P key data c (this w) w a w1 Em).
        inversion E. subst. discriminate Hs.
      * inversion E. subst. exact (store_and_commit_throw P _ _ _ _ _ _ Em).
    + rewrite (check_and_store_over P key data c w Hgt) in E.
      inversion E. subst. repeat split.
  - destruct schema as [s | ]; [ | exfalso; apply Hv; exact I ].
    destruct (validateSchema_true_or_throws data s) as [H | (e & H)];
      [ exfalso; exact (Hv H) | ].
    rewrite (setItem_invalid P w key data s e H) in E.
    rewrite (initialised_id P w Hi) in E. inversion E. subst. repeat split.
Qed.

Lemma failed_setItem_leaves_no_trace_witness :
  exists r w',
    setItem Browser.direct "k" john None (ready Browser.direct tiny_options)
    = (Normal r, w')
    /\ success r = false
    /\ this w' = this (ready Browser.direct tiny_options)
    /\ storage w' = storage (ready Browser.direct tiny_options).
Proof.
  eexists. eexists. split; [ vm_compute; reflexivity | ].
  split; [ reflexivity | ].
  destruct (failed_setItem_leaves_no_trace Browser.direct "k" john None
              (ready Browser.direct tiny_options)
              (failed quota_exceeded) (ready Browser.direct tiny_options))
    as (H1 & H2 & _).
  - reflexivity.
  - vm_compute. reflexivity.
  - reflexivity.
  - split; [ exact H1 | exact H2 ].
Defined.

(** X8.  The size counter.  A successful [setItem] adds the byte length
    of the compression step's output to [currentSize], a number that is
    never negative, and puts the value in the read cache; it does so
    whether or not the key was stored before, so writing a key again
    counts its size again. *)
Theorem setItem_counts_every_write (P : Platform) key data schema w r w' :
  initPromise (this w) = Fulfilled ->
  setItem P key data schema w = (Normal r, w') ->
  success r = true ->
  currentSize (this w') = currentSize (this w) + newEntrySize P data w
  /\ 0 <= newEntrySize P data w
  /\ cacheStore (this w') = <[key := data]> (cacheStore (this w)).
Proof.
  intros Hi E Hs.
  destruct (setItem_success P w key data schema r w' Hi E Hs)
    as (c & Hc & _ & _ & Hst & _).
  destruct (store_and_commit_hands_over P key data c w _ w' Hst)
    as (_ & _ & _ & _ & Hsize & Hcache & _).
  unfold newEntrySize. rewrite Hc.
  split; [ exact Hsize | ]. split; [ apply size_of_nonneg | exact Hcache ].
Qed.

Lemma setItem_counts_every_write_witness :
  currentSize (this (stored Browser.direct Browser.no_options "k" x1)) = 7
  /\ currentSize
       (this (snd (setItem Browser.direct "k" x1 None
                     (stored Browser.direct Browser.no_options "k" x1))))
     = 7 + 7.
Proof.
  split; [ vm_compute; reflexivity | ].
  destruct (setItem_counts_every_write Browser.direct "k" x1 None
              (stored Browser.direct Browser.no_options "k" x1)
              (succeeded x1)
              (snd (setItem Browser.direct "k" x1 None
                      (stored Browser.direct Browser.no_options "k" x1))))
    as (H1 & _ & _).
  - reflexivity.
  - vm_compute. reflexivity.
  - reflexivity.
  - rewrite H1. vm_compute. reflexivity.
Defined.

(** X6.  A key without Web Crypto.  On an initialised facade with an
    encryption key configured and no [crypto.subtle], [setItem] never
    succeeds and leaves the world as it is; for a value that passes the
    schema and the quota check the error is
    [Error("Encryption not available")]: nothing is stored in plain
    text. *)
Theorem setItem_needs_web_crypto (P : Platform) key data schema w :
  initPromise (this w) = Fulfilled ->
  key_configured (encryptionKey (this w)) = true ->
  hasWebCrypto (this w) = false ->
  exists e,
    setItem P key data schema w = (Normal (failed e), w)
    /\ (validated data schema ->
        currentSize (this w) + newEntrySize P data w <= maxSize (this w) ->
        e = Error "Encryption not available").
Proof.
  intros Hi Hk Hc.
  assert (Hv : validated data schema \/ exists s e, schema = Some s
                                          /\ validateSchema data s = Throw e).
  { destruct schema as [s | ]; [ | left; exact I ]. simpl.
    destruct (validateSchema_true_or_throws data s) as [H | (e & H)];
      [ left; exact H | right; exists s, e; split; [ reflexivity | exact H ] ]. }
  destruct Hv as [Hv | (s & e & -> & Hv)].
  - destruct (compress_silent P (JSON_stringify data) w) as (c & Hcomp).
    rewrite (setItem_validated P w key data schema c Hi Hv Hcomp).
    unfold try_catch, newEntrySize. rewrite Hcomp.
    destruct (Z_le_gt_dec (currentSize (this w) + size_of c) (maxSize (this w)))
      as [Hle | Hgt].
    + rewrite (check_and_store_under P key data c w Hle).
      unfold store_and_commit. cbv zeta. unfold bind at 1. rewrite Hk.
      unfold encrypt at 1. unfold bind at 1. unfold read at 1.
      rewrite Hk, Hc. simpl.
      eexists. split; [ reflexivity | intros _ _; reflexivity ].
    + rewrite (check_and_store_over P key data c w Hgt).
      eexists. split; [ reflexivity | intros _ Hle; lia ].
  - rewrite (setItem_invalid P w key data s e Hv).
    rewrite (initialised_id P w Hi).
    exists e. split; [ reflexivity | ]. simpl. rewrite Hv. discriminate.
Qed.

Lemma setItem_needs_web_crypto_witness :
  setItem (insecure_context Browser.direct) "k" x1 None
    (ready (insecure_context Browser.direct)
       (Browser.codec_options false (Some Browser.sample_key)))
  = (Normal (failed (Error "Encryption not available")),
     ready (insecure_context Browser.direct)
       (Browser.codec_options false (Some Browser.sample_key))).
Proof.
  destruct (setItem_needs_web_crypto (insecure_context Browser.direct) "k" x1 None
              (ready (insecure_context Browser.direct)
                 (Browser.codec_options false (Some Browser.sample_key))))
    as (e & E & He).
  - reflexivity.
  - reflexivity.
  - reflexivity.
  - rewrite E. rewrite He; [ reflexivity | exact I | vm_compute; discriminate ].
Defined.

Section Removal.

Context (P : Platform).

(** [removeItem] and [clear] write one field of the facade, the read
    cache. *)
Lemma removeItem_facade key w :
  exists m, this (snd (removeItem P key w)) = set_cacheStore m (this w).
Proof.
  unfold removeItem, try_catch, bind, read, caches_open, cache_delete,
    cache_call, record_call, modify, ret, throw.
  simpl.
  destruct (cache_fault P (CachesOpen _)); simpl.
  { exists (cacheStore (this w)). destruct (this w); reflexivity. }
  destruct (cache_fault P (CacheDelete _ _)); simpl.
  { exists (cacheStore (this w)). destruct (this w); reflexivity. }
  eexists. reflexivity.
Qed.

Lemma clear_facade w :
  exists m, this (snd (clear P w)) = set_cacheStore m (this w).
Proof.
  unfold clear, try_catch, bind, read, caches_delete, cache_call, record_call,
    modify, ret, throw.
  simpl.
  destruct (cache_fault P (CachesDelete _)); simpl.
  { exists (cacheStore (this w)). destruct (this w); reflexivity. }
  eexists. reflexivity.
Qed.

Lemma still_over_quota key data schema w w1 m :
  initPromise (this w) = Fulfilled ->
  validated data schema ->
  currentSize (this w) + newEntrySize P data w > maxSize (this w) ->
  this w1 = set_cacheStore m (this w) ->
  fst (setItem P key data schema w1) = Normal (failed quota_exceeded).
Proof.
  intros Hi Hv Hq Ht.
  assert (Hi1 : initPromise (this w1) = Fulfilled) by (rewrite Ht; exact Hi).
  assert (Hn : newEntrySize P data w1 = newEntrySize P data w).
  { apply newEntrySize_depends. rewrite Ht. reflexivity. }
  destruct (compress_silent P (JSON_stringify data) w1) as (c & Hc).
  rewrite (setItem_validated P w1 key data schema c Hi1 Hv Hc).
  unfold try_catch. rewrite check_and_store_over; [ reflexivity | ].
  unfold newEntrySize in Hn at 1. rewrite Hc in Hn. rewrite Hn, Ht. exact Hq.
Qed.

End Removal.

(** X9.  Quota is not given back.  [removeItem] and [clear] leave
    [currentSize] as it is, whatever they return; a write that the quota
    check rejects is still rejected with
    [Error("Storage quota exceeded")] after either of them. *)
Theorem removing_items_frees_no_quota (P : Platform) key data schema w key' :
  initPromise (this w) = Fulfilled ->
  validated data schema ->
  currentSize (this w) + newEntrySize P data w > maxSize (this w) ->
  currentSize (this (snd (removeItem P key' w))) = currentSize (this w)
  /\ currentSize (this (snd (clear P w))) = currentSize (this w)
  /\ fst (setItem P key data schema (snd (removeItem P key' w)))
     = Normal (failed quota_exceeded)
  /\ fst (setItem P key data schema (snd (clear P w)))
     = Normal (failed quota_exceeded).
Proof.
  intros Hi Hv Hq.
  destruct (removeItem_facade P key' w) as (m1 & H1).
  destruct (clear_facade P w) as (m2 & H2).
  split; [ rewrite H1; reflexivity | ].
  split; [ rewrite H2; reflexivity | ].
  split.
  - exact (still_over_quota P key data schema w _ m1 Hi Hv Hq H1).
  - exact (still_over_quota P key data schema w _ m2 Hi Hv Hq H2).
Qed.

Lemma removing_items_frees_no_quota_witness :
  fst (setItem Browser.direct "b" x1 None
         (stored Browser.direct tiny_options "a" x1))
  = Normal (failed quota_exceeded)
  /\ fst (removeItem Browser.direct "a"
            (stored Browser.direct tiny_options "a" x1))
     = Normal true
  /\ fst (setItem Browser.direct "b" x1 None
            (snd (removeItem Browser.direct "a"
                    (stored Browser.direct tiny_options "a" x1))))
     = Normal (failed quota_exceeded).
Proof.
  split; [ vm_compute; reflexivity | ].
  split; [ vm_compute; reflexivity | ].
  destruct (removing_items_frees_no_quota Browser.direct "b" x1 None
              (stored Browser.direct tiny_options "a" x1) "a")
    as (_ & _ & H & _).
  - reflexivity.
  - exact I.
  - vm_compute. reflexivity.
  - exact H.
Defined.

(** X14.  After [clear] on the direct backend.  When [clear] returns
    [true] on an initialised facade without a worker, [getItem] of every
    key fails, with [Error("Item not found")] when [caches.open] and
    [cache.match] do not reject. *)
Theorem getItem_after_clear_direct (P : Platform) w w1 key :
  initPromise (this w) = Fulfilled ->
  hasServiceWorker (this w) = false ->
  clear P w = (Normal true, w1) ->
  exists r w2,
    getItem P key w1 = (Normal r, w2)
    /\ success r = false
    /\ (cache_fault P (CachesOpen (namespace (this w))) = false ->
        cache_fault P (CacheMatch (namespace (this w))
                         (baseUrl (this w) +:+ key)) = false ->
        r = not_found).
Proof.
  intros Hi Hsw Hc.
  unfold clear, try_catch, bind, read, caches_delete, cache_call, record_call,
    modify, ret, throw in Hc.
  simpl in Hc.
  destruct (cache_fault P (CachesDelete (namespace (this w)))) eqn:F;
    [ discriminate Hc | ].
  simpl in Hc. injection Hc as Hw1. symmetry in Hw1.
  destruct (getItem_absent P w1 key) as (r & w2 & E & Hs & _ & Hnf).
  - subst w1. exact Hi.
  - subst w1. simpl. rewrite lookup_empty. reflexivity.
  - subst w1. simpl. rewrite Hsw. discriminate.
  - intros _. subst w1. unfold cache_of. simpl. rewrite lookup_delete_eq.
    simpl. apply lookup_empty.
  - exists r, w2. split; [ exact E | ]. split; [ exact Hs | ].
    intros F1 F2. apply Hnf. right. subst w1. simpl. split; assumption.
Qed.

Lemma getItem_after_clear_direct_witness :
  exists r w2,
    getItem Browser.direct "k"
      (snd (clear Browser.direct (stored Browser.direct Browser.no_options "k" x1)))
    = (Normal r, w2)
    /\ r = not_found.
Proof.
  destruct (getItem_after_clear_direct Browser.direct
              (stored Browser.direct Browser.no_options "k" x1)
              (snd (clear Browser.direct
                      (stored Browser.direct Browser.no_options "k" x1)))
              "k")
    as (r & w2 & E & _ & Hnf).
  - reflexivity.
  - reflexivity.
  - vm_compute. reflexivity.
  - exists r, w2. split; [ exact E | ]. apply Hnf; reflexivity.
Defined.

Section WorkerKeeps.

Context (P : Platform) (L : lawful P).

(** Reading the entry [setItem] gave to the worker, from any later
    world that still has the worker's map and the facade's settings. *)
Lemma getItem_reads_the_worker w key V schema r w1 w2 m :
  initPromise (this w) = Fulfilled ->
  hasServiceWorker (this w) = true ->
  json V = true ->
  setItem P key V schema w = (Normal r, w1) ->
  success r = true ->
  this w2 = set_cacheStore m (this w1) ->
  storage w2 = storage w1 ->
  m !! key = Some V \/ truthy (default Undefined (m !! key)) = false ->
  exists w3, getItem P key w2 = (Normal (succeeded V), w3).
Proof.
  intros Hi Hsw Hj E Hr Ht2 Hs2 Hm.
  destruct (parse_stringify V Hj) as (Hs & Hparse).
  destruct (setItem_success P w key V schema r w1 Hi E Hr)
    as (c & Hc & _ & _ & Hst & _).
  assert (Hser : JSON_stringify V = Str (text_of V)).
  { unfold JSON_stringify. rewrite Hs. reflexivity. }
  rewrite Hser in Hc.
  destruct (store_and_commit_hands_over P key V c w _ w1 Hst)
    as (payload & Hh & Hp1 & Hp2 & _ & _ & Hip & Hthis).
  rewrite Hser in Hh.
  assert (Hsw1 : hasServiceWorker (this w1) = true).
  { rewrite Hthis. exact Hsw. }
  unfold handed_over in Hh. rewrite Hsw1 in Hh. destruct Hh as (ts & Hh).
  assert (Hi2 : initPromise (this w2) = Fulfilled).
  { rewrite Ht2. simpl. rewrite Hip. exact Hi. }
  assert (Hcase : (m !! key = Some V /\ truthy V = true)
                  \/ truthy (default Undefined (m !! key)) = false).
  { destruct Hm as [Hm | Hm]; [ | right; exact Hm ].
    destruct (truthy V) eqn:Ht; [ left; split; [ exact Hm | reflexivity ] | ].
    right. rewrite Hm. exact Ht. }
  destruct Hcase as [(Hm1 & Ht) | Hmiss].
  - exists w2. apply getItem_hit; [ exact Hi2 | | exact Ht ].
    rewrite Ht2. exact Hm1.
  - rewrite (getItem_miss P w2 key Hi2); [ | rewrite Ht2; exact Hmiss ].
    eexists. apply try_catch_normal. unfold read_through.
    erewrite bind_normal.
    2:{ apply (retrieve_from_worker P w2 key
                 (storageData_of payload c (Str (text_of V)) (size_of c))
                 (size_of c) ts);
          [ rewrite Ht2; exact Hsw1 | rewrite Hs2; exact Hh ]. }
    apply (decode_entry P L) with (w0 := w).
    + exact Hparse.
    + exact Hc.
    + rewrite Ht2, Hthis. reflexivity.
    + rewrite Ht2, Hthis. reflexivity.
    + reflexivity.
    + rewrite Ht2, Hthis. exact Hp1.
    + rewrite Ht2, Hthis. reflexivity.
    + rewrite Ht2, Hthis. exact Hp2.
Qed.

End WorkerKeeps.

(** X15.  [clear] on the worker backend.  [clear] posts no message to
    the worker: whatever it returns, the worker's map is what it was,
    and a JSON value stored before with [setItem] is still returned by
    [getItem] afterwards. *)
Theorem clear_leaves_the_worker_entries (P : Platform) w key V schema r w1 :
  lawful P ->
  initPromise (this w) = Fulfilled ->
  hasServiceWorker (this w) = true ->
  json V = true ->
  setItem P key V schema w = (Normal r, w1) ->
  success r = true ->
  storage (snd (clear P w1)) = storage w1
  /\ exists w3, getItem P key (snd (clear P w1)) = (Normal (succeeded V), w3).
Proof.
  intros L Hi Hsw Hj E Hr.
  assert (Hclear : storage (snd (clear P w1)) = storage w1
                   /\ exists m, this (snd (clear P w1)) = set_cacheStore m (this w1)
                                /\ (m = ∅ \/ m = cacheStore (this w1))).
  { unfold clear, try_catch, bind, read, caches_delete, cache_call, record_call,
      modify, ret, throw.
    simpl. destruct (cache_fault P (CachesDelete _)); simpl.
    - split; [ reflexivity | ]. exists (cacheStore (this w1)).
      split; [ destruct (this w1); reflexivity | right; reflexivity ].
    - split; [ reflexivity | ]. exists ∅. split; [ reflexivity | left; reflexivity ]. }
  destruct Hclear as (Hst & m & Ht & Hm).
  split; [ exact Hst | ].
  apply (getItem_reads_the_worker P L w key V schema r w1 _ m Hi Hsw Hj E Hr Ht Hst).
  destruct Hm as [-> | ->].
  - right. rewrite lookup_empty. reflexivity.
  - left.
    destruct (setItem_success P w key V schema r w1 Hi E Hr)
      as (c & _ & _ & _ & Hsc & _).
    destruct (store_and_commit_hands_over P key V c w _ w1 Hsc)
      as (_ & _ & _ & _ & _ & Hcache & _).
    rewrite Hcache. apply lookup_insert_eq.
Qed.

Lemma clear_leaves_the_worker_entries_witness :
  fst (clear Browser.with_worker
         (stored Browser.with_worker Browser.no_options "k" x1))
  = Normal true
  /\ exists w3,
       getItem Browser.with_worker "k"
         (snd (clear Browser.with_worker
                 (stored Browser.with_worker Browser.no_options "k" x1)))
       = (Normal (succeeded x1), w3).
Proof.
  split; [ vm_compute; reflexivity | ].
  destruct (clear_leaves_the_worker_entries Browser.with_worker
              (ready Browser.with_worker Browser.no_options) "k" x1 None
              (succeeded x1)
              (stored Browser.with_worker Browser.no_options "k" x1))
    as (_ & H).
  - apply browser_lawful.
  - reflexivity.
  - reflexivity.
  - reflexivity.
  - vm_compute. reflexivity.
  - reflexivity.
  - exact H.
Defined.

Section Sizes.

Context (P : Platform).

Lemma foldM_cache_sizes cache keys :
  (forall url, cache_fault P (CacheMatch cache url) = false) ->
  forall acc w,
  exists w',
    foldM (fun size key =>
             response <~ cache_match P cache key ;;
             match response with
             | Some r => ret (size + byteLength (body r))
             | None => ret size
             end) acc keys w
    = (Normal
         (acc + foldr (fun key n =>
                         n + match cache_of w cache !! key with
                             | Some r => byteLength (body r)
                             | None => 0
                             end) 0 keys), w')
    /\ quiet w w'.
Proof.
  intros Hf. induction keys as [ | k keys IH ]; intros acc w.
  - exists w. split; [ simpl; unfold ret; rewrite Z.add_0_r; reflexivity | apply quiet_refl ].
  - cbn [foldM].
    assert (Hstep : exists w1,
               (response <~ cache_match P cache k ;;
                match response with
                | Some r => ret (acc + byteLength (body r))
                | None => ret acc
                end) w
               = (Normal (acc + match cache_of w cache !! k with
                                | Some r => byteLength (body r)
                                | None => 0
                                end), w1)
               /\ quiet w w1).
    { unfold cache_match, cache_call, record_call, bind, modify, read, ret,
        throw.
      rewrite Hf. change (cache_of (with_calls ?f ?x) ?n) with (cache_of x n).
      eexists. split.
      - destruct (cache_of w cache !! k); [ reflexivity | ].
        rewrite Z.add_0_r. reflexivity.
      - repeat split. }
    destruct Hstep as (w1 & Hstep & Hq).
    rewrite (bind_normal _ _ _ _ _ Hstep).
    destruct (IH (acc + match cache_of w cache !! k with
                        | Some r => byteLength (body r)
                        | None => 0
                        end) w1) as (w' & E & Hq').
    exists w'. split; [ | exact (quiet_trans _ _ _ Hq Hq') ].
    rewrite E. f_equal. f_equal. cbn [foldr].
    destruct Hq as (_ & _ & _ & _ & Hc).
    rewrite (Hc cache). lia.
Qed.

Lemma sizes_of_keys (c : gmap string Response) (l : list (string * Response)) :
  (forall kv, kv ∈ l -> c !! fst kv = Some (snd kv)) ->
  foldr (fun key n => n + match c !! key with
                          | Some r => byteLength (body r)
                          | None => 0
                          end) 0 (List.map fst l)
  = foldr (fun kv size => size + byteLength (body (snd kv))) 0 l.
Proof.
  induction l as [ | [k r] l IH ]; intros H; [ reflexivity | ].
  cbn [List.map foldr fst snd].
  pose proof (H (k, r) ltac:(apply elem_of_cons; left; reflexivity)) as Hk. cbn [fst snd] in Hk.
  rewrite Hk. rewrite IH; [ reflexivity | ].
  intros kv Hin. apply H. apply elem_of_cons. right. exact Hin.
Qed.

Lemma calculateCurrentSize_direct w :
  hasServiceWorker (this w) = false ->
  (forall c, cache_fault P c = false) ->
  exists w',
    calculateCurrentSize P w
    = (Normal (cached_bytes (cache_of w (namespace (this w)))), w')
    /\ this w'
       = set_currentSize (cached_bytes (cache_of w (namespace (this w))))
           (this w).
Proof.
  intros Hsw Hf. unfold calculateCurrentSize.
  unfold bind at 1. unfold try_catch. unfold bind at 1. unfold read at 1.
  rewrite Hsw. unfold bind at 1.
  destruct (caches_open P (namespace (this w)) w) as [[cache | e] w1] eqn:Eo.
  2:{ exfalso. revert Eo. unfold caches_open, cache_call, record_call, bind,
        modify, ret, throw. rewrite Hf. discriminate. }
  pose proof (silent_caches_open P _ _ _ _ Eo) as Hq1.
  assert (cache = namespace (this w)) as ->.
  { revert Eo. unfold caches_open, cache_call, record_call, bind, modify, ret,
      throw. rewrite Hf. intros E. inversion E. reflexivity. }
  unfold bind at 1.
  destruct (cache_keys P (namespace (this w)) w1) as [[keys | e] w2] eqn:Ek.
  2:{ exfalso. revert Ek. unfold cache_keys, cache_call, record_call, bind,
        modify, read, ret, throw. rewrite Hf. discriminate. }
  pose proof (silent_cache_keys P _ _ _ _ Ek) as Hq2.
  assert (Hkeys : keys = List.map fst (map_to_list (cache_of w (namespace (this w))))).
  { revert Ek. unfold cache_keys, cache_call, record_call, bind, modify, read,
      ret, throw. rewrite Hf. intros E. inversion E.
    change (cache_of (with_calls ?f ?x) ?n) with (cache_of x n).
    destruct Hq1 as (_ & _ & _ & _ & Hc). rewrite Hc. reflexivity. }
  destruct (foldM_cache_sizes (namespace (this w)) keys
              (fun url => Hf _) 0 w2) as (w3 & Ef & Hq3).
  unfold calculateCacheSize. unfold bind at 1. rewrite Ef.
  assert (Hsum : 0 + foldr (fun key n =>
                              n + match cache_of w2 (namespace (this w)) !! key with
                                  | Some r => byteLength (body r)
                                  | None => 0
                                  end) 0 keys
                 = cached_bytes (cache_of w (namespace (this w)))).
  { destruct Hq1 as (_ & _ & _ & _ & Hc1). destruct Hq2 as (_ & _ & _ & _ & Hc2).
    rewrite Hc2, Hc1, Hkeys. rewrite sizes_of_keys; [ unfold cached_bytes; lia | ].
    intros [k r] Hin. apply elem_of_map_to_list. exact Hin. }
  rewrite Hsum.
  pose proof (quiet_trans _ _ _ Hq1 (quiet_trans _ _ _ Hq2 Hq3)) as Hq.
  destruct Hq as (Ht & _).
  eexists. unfold modify, read. cbn [this with_this currentSize set_currentSize].
  split; [ reflexivity | ]. cbn [this with_this]. rewrite Ht. reflexivity.
Qed.

End Sizes.

(** X16.  [getStats] on the direct backend.  Without a worker and with a
    Cache API that does not reject, [getStats] reports as [used] the
    total byte length of the response bodies in the namespace's cache,
    with [available = total - used], and leaves that number in
    [currentSize]: not the sum of the sizes [setItem] added, which
    counted the compression output and not the JSON text of the
    entry. *)
Theorem getStats_measures_the_cache (P : Platform) w :
  hasServiceWorker (this w) = false ->
  (forall c, cache_fault P c = false) ->
  exists w',
    getStats P w
    = (Normal (stats_of (cached_bytes (cache_of w (namespace (this w)))) (this w)),
       w')
    /\ currentSize (this w') = cached_bytes (cache_of w (namespace (this w))).
Proof.
  intros Hsw Hf.
  destruct (calculateCurrentSize_direct P w Hsw Hf) as (w' & E & Ht).
  exists w'. unfold getStats. unfold bind at 1. rewrite E.
  unfold bind, read, ret. rewrite Ht. split; reflexivity.
Qed.

Lemma getStats_measures_the_cache_witness :
  currentSize (this (stored Browser.direct Browser.no_options "k" x1)) = 7
  /\ exists w',
       getStats Browser.direct (stored Browser.direct Browser.no_options "k" x1)
       = (Normal {| used := 88; total := 52428800; available := 52428712;
                    percentUsed := Some (Qmult (Qdiv (inject_Z 88)
                                                  (inject_Z 52428800))
                                           (inject_Z 100)) |}, w')
       /\ currentSize (this w') = 88.
Proof.
  split; [ vm_compute; reflexivity | ].
  destruct (getStats_measures_the_cache Browser.direct
              (stored Browser.direct Browser.no_options "k" x1))
    as (w' & E & Hc).
  - reflexivity.
  - intros c. reflexivity.
  - exists w'. split; [ rewrite E; vm_compute; reflexivity | ].
    rewrite Hc. vm_compute. reflexivity.
Defined.

(** X17.  [getStats] on the worker backend.  On an initialised facade
    with a worker (the page has a controller, so the message is
    answered), [getStats] reports as [used] the sum of the [size] fields
    in the worker's map, leaves it in [currentSize], and does not change
    the map. *)
Theorem getStats_asks_the_worker (P : Platform) w :
  hasServiceWorker (this w) = true ->
  initPromise (this w) = Fulfilled ->
  exists w',
    getStats P w = (Normal (stats_of (stored_bytes (storage w)) (this w)), w')
    /\ currentSize (this w') = stored_bytes (storage w)
    /\ storage w' = storage w.
Proof.
  intros Hsw _. unfold getStats, calculateCurrentSize, try_catch, bind, read.
  rewrite Hsw.
  unfold postServiceWorkerMessage, bind, record_call, modify, lift, ret.
  simpl. eexists. split; [ reflexivity | split; reflexivity ].
Qed.

Lemma getStats_asks_the_worker_witness :
  exists w',
    getStats Browser.with_worker
      (stored Browser.with_worker Browser.no_options "k" x1)
    = (Normal (stats_of 7 (this (stored Browser.with_worker Browser.no_options
                                   "k" x1))), w').
Proof.
  destruct (getStats_asks_the_worker Browser.with_worker
              (stored Browser.with_worker Browser.no_options "k" x1))
    as (w' & E & _).
  - reflexivity.
  - reflexivity.
  - exists w'. rewrite E. vm_compute. reflexivity.
Defined.

(** X18.  [getStats] when the Cache API rejects.  Without a worker, when
    [caches.open] or [cache.keys] rejects, [getStats] does not throw: it
    reports [used = 0] and [available = total], resets [currentSize] to
    0, and leaves the caches as they are. *)
Theorem getStats_reports_nothing_on_failure (P : Platform) w :
  hasServiceWorker (this w) = false ->
  cache_fault P (CachesOpen (namespace (this w))) = true
  \/ cache_fault P (CacheKeys (namespace (this w))) = true ->
  exists w',
    getStats P w = (Normal (stats_of 0 (this w)), w')
    /\ currentSize (this w') = 0
    /\ forall n, cache_of w' n = cache_of w n.
Proof.
  intros Hsw Hf. unfold getStats, calculateCurrentSize, try_catch.
  unfold bind at 1. unfold bind at 1. unfold bind at 1. unfold read at 1.
  rewrite Hsw. unfold bind at 1.
  destruct (caches_open P (namespace (this w)) w) as [[cache | e] w1] eqn:Eo.
  - pose proof (silent_caches_open P _ _ _ _ Eo) as Hq1.
    assert (cache = namespace (this w)
            /\ cache_fault P (CachesOpen (namespace (this w))) = false)
      as (-> & Hno).
    { revert Eo. unfold caches_open, cache_call, record_call, bind, modify, ret,
        throw.
      destruct (cache_fault P (CachesOpen _)); [ discriminate | ].
      intros E. inversion E. split; reflexivity. }
    destruct Hf as [Hf | Hf]; [ congruence | ].
    unfold bind at 1.
    destruct (cache_keys P (namespace (this w)) w1) as [[keys | e] w2] eqn:Ek.
    { exfalso. revert Ek. unfold cache_keys, cache_call, record_call, bind,
        modify, read, ret, throw. rewrite Hf. discriminate. }
    pose proof (silent_cache_keys P _ _ _ _ Ek) as Hq2.
    destruct (quiet_trans _ _ _ Hq1 Hq2) as (Ht & _ & _ & _ & Hc).
    unfold modify, bind, read, ret.
    cbn [this with_this currentSize set_currentSize maxSize]. rewrite Ht.
    eexists. split; [ reflexivity | ]. split; [ reflexivity | exact Hc ].
  - pose proof (silent_caches_open P _ _ _ _ Eo) as (Ht & _ & _ & _ & Hc).
    unfold modify, bind, read, ret.
    cbn [this with_this currentSize set_currentSize maxSize]. rewrite Ht.
    eexists. split; [ reflexivity | ]. split; [ reflexivity | exact Hc ].
Qed.

Lemma getStats_reports_nothing_on_failure_witness :
  exists w',
    getStats (Browser.platform false (fun _ => true))
      (stored Browser.direct Browser.no_options "k" x1)
    = (Normal (stats_of 0 (this (stored Browser.direct Browser.no_options
                                   "k" x1))), w')
    /\ currentSize (this w') = 0
    /\ cache_of w' "application"
       = cache_of (stored Browser.direct Browser.no_options "k" x1) "application".
Proof.
  destruct (getStats_reports_nothing_on_failure
              (Browser.platform false (fun _ => true))
              (stored Browser.direct Browser.no_options "k" x1))
    as (w' & E & H0 & Hc).
  - reflexivity.
  - left. reflexivity.
  - exists w'. split; [ exact E | ]. split; [ exact H0 | apply Hc ].
Defined.

Lemma frames_weaken {A} (m : M A) (R R' : World -> World -> Prop) :
  frames m R -> (forall w w', R w w' -> R' w w') -> frames m R'.
Proof. intros H HR w r w' E. apply HR. exact (H w r w' E). Qed.

Lemma frames_seq {A B} (m : M A) (k : A -> M B) (R : World -> World -> Prop) :
  (forall w1 w2 w3, R w1 w2 -> R w2 w3 -> R w1 w3) ->
  frames m R -> (forall a, frames (k a) R) -> frames (bind m k) R.
Proof.
  intros Ht Hm Hk w r w'. unfold bind.
  destruct (m w) as [[a | e] w1] eqn:E; intros E'.
  - exact (Ht _ _ _ (Hm _ _ _ E) (Hk a _ _ _ E')).
  - inversion E'. subst. exact (Hm _ _ _ E).
Qed.

Lemma frames_catch {A} (m : M A) (h : JsError -> M A)
  (R : World -> World -> Prop) :
  (forall w1 w2 w3, R w1 w2 -> R w2 w3 -> R w1 w3) ->
  frames m R -> (forall e, frames (h e) R) -> frames (try_catch m h) R.
Proof.
  intros Ht Hm Hh w r w'. unfold try_catch.
  destruct (m w) as [[a | e] w1] eqn:E; intros E'.
  - inversion E'. subst. exact (Hm _ _ _ E).
  - exact (Ht _ _ _ (Hm _ _ _ E) (Hh e _ _ _ E')).
Qed.

Lemma set_currentSize_same t : set_currentSize (currentSize t) t = t.
Proof. destruct t. reflexivity. Qed.

Lemma set_hasServiceWorker_same t :
  set_hasServiceWorker (hasServiceWorker t) t = t.
Proof. destruct t. reflexivity. Qed.

Lemma resized_of_quiet w w' : quiet w w' -> resized w w'.
Proof.
  intros (A1 & A2 & _ & _ & A5). unfold resized.
  split; [ exact A2 | ]. split; [ exact A5 | ].
  rewrite A1. symmetry. apply set_currentSize_same.
Qed.

Lemma resized_trans w1 w2 w3 : resized w1 w2 -> resized w2 w3 -> resized w1 w3.
Proof.
  intros (A1 & A2 & A3) (B1 & B2 & B3). unfold resized.
  split; [ congruence | ]. split.
  - intros n. rewrite B2. apply A2.
  - rewrite B3 at 1. rewrite A3. reflexivity.
Qed.

Lemma frames_set_currentSize n :
  frames (modify (with_this (set_currentSize n))) resized.
Proof.
  intros w r w' E. inversion E. unfold resized. repeat split.
Qed.

Section Initialisation.

Context (P : Platform).

Lemma frames_calculateCurrentSize : frames (calculateCurrentSize P) resized.
Proof.
  pose proof resized_trans as Ht.
  assert (Hs : forall A (m : M A), silent m -> frames m resized).
  { intros A m H. exact (frames_weaken m _ _ H resized_of_quiet). }
  unfold calculateCurrentSize.
  apply frames_seq; [ exact Ht | | intros _; apply Hs, silent_read ].
  apply frames_catch; [ exact Ht | | intros e; apply frames_set_currentSize ].
  apply frames_seq; [ exact Ht | apply Hs, silent_read | ]. intros t.
  destruct (hasServiceWorker t).
  - apply frames_seq; [ exact Ht | apply Hs, silent_getSize_message | ].
    intros response.
    apply frames_seq; [ exact Ht | apply Hs, silent_lift | ]. intros size.
    apply frames_set_currentSize.
  - apply frames_seq; [ exact Ht | apply Hs, silent_caches_open | ]. intros cache.
    apply frames_seq; [ exact Ht | apply Hs, silent_cache_keys | ]. intros keys.
    apply frames_seq; [ exact Ht | apply Hs, silent_calculateCacheSize | ].
    intros size. apply frames_set_currentSize.
Qed.

End Initialisation.

(** What [init] leaves: the two fields it may write, nothing of the
    backend. *)
Lemma init_outcome (P : Platform) w :
  exists w',
    init P w = (Normal tt, w')
    /\ this w'
       = set_currentSize (currentSize (this w'))
           (set_hasServiceWorker
              (hasServiceWorker (this w) && register_succeeds P) (this w))
    /\ storage w' = storage w
    /\ forall n, cache_of w' n = cache_of w n.
Proof.
  unfold init, try_catch. unfold bind at 1. unfold read at 1.
  destruct (hasServiceWorker (this w)) eqn:Hsw.
  - unfold bind at 1.
    unfold initServiceWorker, try_catch, bind, record_call, modify, ret, throw.
    destruct (register_succeeds P).
    + destruct (returns_calculateCurrentSize P (with_calls (cons Register) w))
        as (n & w1 & E).
      rewrite E. exists w1. split; [ reflexivity | ].
      destruct (frames_calculateCurrentSize P _ _ _ E) as (H1 & H2 & H3).
      split; [ | split; [ exact H1 | exact H2 ] ].
      pose proof (set_hasServiceWorker_same (this w)) as Hid.
      rewrite Hsw in Hid. cbn [andb]. rewrite Hid. exact H3.
    + destruct (returns_calculateCurrentSize P
                  (with_this (set_hasServiceWorker false)
                     (with_calls (cons Register) w)))
        as (n & w1 & E).
      rewrite E. exists w1. split; [ reflexivity | ].
      destruct (frames_calculateCurrentSize P _ _ _ E) as (H1 & H2 & H3).
      split; [ | split; [ exact H1 | exact H2 ] ].
      exact H3.
  - unfold bind at 1. unfold ret at 1.
    destruct (returns_calculateCurrentSize P w) as (n & w1 & E).
    unfold bind. rewrite E. exists w1. split; [ reflexivity | ].
    destruct (frames_calculateCurrentSize P _ _ _ E) as (H1 & H2 & H3).
    split; [ | split; [ exact H1 | exact H2 ] ].
    pose proof (set_hasServiceWorker_same (this w)) as Hid.
    rewrite Hsw in Hid. cbn [andb]. rewrite Hid. exact H3.
Qed.

Section Stats.

Context (P : Platform).

Lemma getCompressionStats_of_entry key payload c ser w w1 :
  retrieve P key w = (Normal (Some (storageData_of payload c ser (size_of c))), w1) ->
  getCompressionStats P key w = (Normal (Some (stats_for c ser)), w1).
Proof.
  intros E. unfold getCompressionStats. apply try_catch_normal.
  rewrite (bind_normal _ _ _ _ _ E). reflexivity.
Qed.

End Stats.

(** X19.  The statistics of a stored entry.  After a successful
    [setItem(key, V)], [getCompressionStats(key)] reports what [setItem]
    measured: whether the compression output differs from the serialised
    value, the byte length of the serialised value, the byte length of
    the compression output, and the saving computed from the two; on the
    worker backend for every value, on the direct backend for a JSON
    value whose entry survives the JSON text, when neither [caches.open]
    nor [cache.match] rejects in the read. *)
Theorem getCompressionStats_after_setItem (P : Platform) w key V schema r w1 :
  initPromise (this w) = Fulfilled ->
  hasServiceWorker (this w) = true
  \/ (json V = true
      /\ cache_fault P (CachesOpen (namespace (this w))) = false
      /\ cache_fault P (CacheMatch (namespace (this w)) (baseUrl (this w) +:+ key))
         = false
      /\ (key_configured (encryptionKey (this w)) = true
          \/ compress P (Str (text_of V)) w = (Normal (Str (text_of V)), w))) ->
  setItem P key V schema w = (Normal r, w1) ->
  success r = true ->
  exists c w2,
    compress P (JSON_stringify V) w = (Normal c, w)
    /\ getCompressionStats P key w1
       = (Normal (Some (stats_for c (JSON_stringify V))), w2).
Proof.
  intros Hi Hpath E Hr.
  destruct (setItem_success P w key V schema r w1 Hi E Hr)
    as (c & Hc & _ & _ & Hst & _).
  exists c.
  destruct (store_and_commit_hands_over P key V c w _ w1 Hst)
    as (payload & Hh & Hp1 & Hp2 & _ & _ & Hip & Hthis).
  unfold handed_over in Hh.
  destruct (hasServiceWorker (this w)) eqn:Hsw.
  - assert (Hsw1 : hasServiceWorker (this w1) = true) by (rewrite Hthis; exact Hsw).
    rewrite Hsw1 in Hh. destruct Hh as (ts & Hh).
    eexists. split; [ exact Hc | ].
    apply getCompressionStats_of_entry with (payload := payload).
    exact (retrieve_from_worker P w1 key _ _ ts Hsw1 Hh).
  - destruct Hpath as [Hp | (Hj & Hopen & Hmatch & Hp)]; [ discriminate Hp | ].
    assert (Hsw1 : hasServiceWorker (this w1) = false) by (rewrite Hthis; exact Hsw).
    rewrite Hsw1 in Hh. destruct Hh as (resp & Hh & Hb).
    destruct (parse_stringify V Hj) as (Hs & _).
    assert (Hser : JSON_stringify V = Str (text_of V)).
    { unfold JSON_stringify. rewrite Hs. reflexivity. }
    assert (Hentry : json (storageData_of payload c (JSON_stringify V) (size_of c))
                     = true).
    { apply entry_json.
      destruct (key_configured (encryptionKey (this w))) eqn:Ek.
      - destruct (Hp2 eq_refl) as (wb & He). exact (envelope_json P _ _ _ _ He).
      - rewrite (Hp1 eq_refl).
        destruct Hp as [Hk | Hk]; [ discriminate Hk | ].
        rewrite Hser in Hc. rewrite Hk in Hc. inversion Hc. reflexivity. }
    destruct (retrieve_from_cache P w1 key
                (storageData_of payload c (JSON_stringify V) (size_of c)) resp)
      as (w2 & Hret & _);
      [ exact Hsw1
      | rewrite Hthis; exact Hopen
      | rewrite Hthis; exact Hmatch
      | exact Hh | exact Hb | exact Hentry | ].
    exists w2. split; [ exact Hc | ].
    apply getCompressionStats_of_entry with (payload := payload). exact Hret.
Qed.

Lemma getCompressionStats_after_setItem_witness :
  exists w2,
    getCompressionStats Browser.with_worker "k"
      (stored Browser.with_worker (Browser.codec_options true None) "k" x1)
    = (Normal (Some {| cs_compressed := Bool true;
                       cs_originalSize := Num 7;
                       cs_compressedSize := Num 9;
                       cs_savingsPercent :=
                         Some (Qmult (Qdiv (inject_Z (-2)) (inject_Z 7))
                                 (inject_Z 100)) |}), w2).
Proof.
  destruct (getCompressionStats_after_setItem Browser.with_worker
              (ready Browser.with_worker (Browser.codec_options true None))
              "k" x1 None (succeeded x1)
              (stored Browser.with_worker (Browser.codec_options true None)
                 "k" x1))
    as (c & w2 & Hc & E).
  - reflexivity.
  - left. reflexivity.
  - vm_compute. reflexivity.
  - reflexivity.
  - exists w2. rewrite E. f_equal. f_equal. f_equal.
    assert (Hc' : Normal c
                  = fst (compress Browser.with_worker (JSON_stringify x1)
                           (ready Browser.with_worker
                              (Browser.codec_options true None))))
      by (rewrite Hc; reflexivity).
    vm_compute in Hc'. inversion Hc'. vm_compute. reflexivity.
Defined.

(** X20.  The statistics of a key the backend does not hold.  When the
    worker's map has no entry for the key (worker backend, initialised
    facade), or when the key is plain and the namespace's cache holds
    responses under plain URLs only and none under the key's (direct
    backend), [getCompressionStats] returns [null], also when a Cache
    API call rejects, and leaves the facade, the worker's map and the
    caches as they are. *)
Theorem getCompressionStats_of_a_missing_key (P : Platform) w key :
  (if hasServiceWorker (this w)
   then initPromise (this w) = Fulfilled /\ storage w !! key = None
   else plain key = true
        /\ plain_cache (baseUrl (this w)) (cache_of w (namespace (this w)))
           = true
        /\ cache_of w (namespace (this w)) !! (baseUrl (this w) +:+ key)
           = None) ->
  exists w',
    getCompressionStats P key w = (Normal None, w')
    /\ this w' = this w /\ storage w' = storage w
    /\ forall n, cache_of w' n = cache_of w n.
Proof.
  intros Hb. unfold getCompressionStats, try_catch. unfold bind at 1.
  destruct (retrieve P key w) as [[o | e] w1] eqn:Er.
  - pose proof (silent_retrieve P key _ _ _ Er) as (Q1 & Q2 & _ & _ & Q5).
    destruct (hasServiceWorker (this w)) eqn:Hsw.
    + pose proof (retrieve_absent_worker P w key Hsw (proj2 Hb)) as Hf.
      rewrite Er in Hf. simpl in Hf. inversion Hf. subst o.
      exists w1. repeat split; assumption.
    + pose proof (retrieve_absent_direct P w key Hsw (proj2 (proj2 Hb))) as Hf.
      rewrite Er in Hf. simpl in Hf.
      destruct (_ || _); inversion Hf. subst o.
      exists w1. repeat split; assumption.
  - pose proof (silent_retrieve P key _ _ _ Er) as (Q1 & Q2 & _ & _ & Q5).
    exists w1. repeat split; assumption.
Qed.

Lemma getCompressionStats_of_a_missing_key_witness :
  (exists w',
     getCompressionStats Browser.with_worker "nobody"
       (stored Browser.with_worker Browser.no_options "k" x1)
     = (Normal None, w'))
  /\ exists w',
       getCompressionStats Browser.direct "nobody"
         (stored Browser.direct Browser.no_options "k" x1)
       = (Normal None, w').
Proof.
  split.
  - destruct (getCompressionStats_of_a_missing_key Browser.with_worker
                (stored Browser.with_worker Browser.no_options "k" x1) "nobody")
      as (w' & E & _).
    + split; reflexivity.
    + exists w'. exact E.
  - destruct (getCompressionStats_of_a_missing_key Browser.direct
                (stored Browser.direct Browser.no_options "k" x1) "nobody")
      as (w' & E & _).
    + split; [ reflexivity | ]. split; vm_compute; reflexivity.
    + exists w'. exact E.
Defined.

(** X22.  What the type ["object"] admits.  A schema field declared of
    type ["object"] with no predicate accepts [null], every array, every
    plain object and every typed array, required or not: [typeof] does
    not tell them apart. *)
Theorem object_fields_accept_null_and_arrays data key def v :
  type def = TObject ->
  validate def = None ->
  get_prop data key = Normal v ->
  v = Null \/ (exists l, v = Arr l) \/ (exists l, v = Obj l)
  \/ (exists b, v = Bytes b) ->
  validateSchema data [(key, def)] = Normal true.
Proof.
  intros Ht Hv Hg Hshape. cbn [validateSchema]. unfold validateField.
  rewrite Hg, Ht, Hv.
  destruct Hshape as [-> | [(l & ->) | [(l & ->) | (b & ->)]]];
    cbn [is_undefined andb negb typeof SchemaType_name];
    rewrite ?andb_false_r; reflexivity.
Qed.

Lemma object_fields_accept_null_and_arrays_witness :
  validateSchema (Obj [("profile", Null)])
    [("profile", {| type := TObject; required := Some true; validate := None |})]
  = Normal true
  /\ validateSchema (Obj [("profile", Arr [Num 1; Num 2])])
       [("profile", {| type := TObject; required := Some true; validate := None |})]
     = Normal true.
Proof.
  split.
  - apply (object_fields_accept_null_and_arrays _ _ _ Null);
      [ reflexivity | reflexivity | reflexivity | left; reflexivity ].
  - apply (object_fields_accept_null_and_arrays _ _ _ (Arr [Num 1; Num 2]));
      [ reflexivity | reflexivity | reflexivity
      | right; left; eexists; reflexivity ].
Defined.

(** X23.  A schema applied to [null] or [undefined].  With a schema of
    at least one entry, validating [null] or [undefined] throws a
    [TypeError] at the first property read, not one of the three
    validation errors, and [setItem] returns it as its failure. *)
Theorem schema_on_null_is_a_type_error (P : Platform) key data field def rest w :
  data = Null \/ data = Undefined ->
  exists message,
    validateSchema data ((field, def) :: rest) = Throw (TypeError message)
    /\ setItem P key data (Some ((field, def) :: rest)) w
       = (Normal (failed (TypeError message)), initialised P w).
Proof.
  intros [-> | ->]; eexists; (split; [ reflexivity | ]);
    apply setItem_invalid; reflexivity.
Qed.

Lemma schema_on_null_is_a_type_error_witness :
  exists message,
    fst (setItem Browser.direct "k" Null (Some name_schema)
           (ready Browser.direct Browser.no_options))
    = Normal (failed (TypeError message)).
Proof.
  destruct (schema_on_null_is_a_type_error Browser.direct "k" Null "name"
              {| type := TString; required := Some true;
                 validate := Some (fun v => negb (String.eqb (to_string v) "")) |}
              [] (ready Browser.direct Browser.no_options))
    as (message & _ & E).
  - left. reflexivity.
  - exists message. exact (f_equal fst E).
Defined.

(** X12.  A second read is served from memory.  When [getItem(key)]
    succeeds with a truthy value, the next [getItem(key)] returns the
    same result and leaves the world as it is: no backend call is
    made. *)
Theorem getItem_twice (P : Platform) key w r w1 v :
  getItem P key w = (Normal r, w1) ->
  success r = true ->
  data r = Some v ->
  truthy v = true ->
  getItem P key w1 = (Normal r, w1).
Proof.
  intros E Hs Hd Ht.
  assert (Hr : r = succeeded v).
  { destruct (ensures_getItem P key w r w1 E) as [(_ & _ & He) | (Hf & _)];
      [ | congruence ].
    destruct r as [s d e]. simpl in *. subst. reflexivity. }
  destruct (getItem_fills_cache P key w r w1 E Hs) as (v' & Hv' & Hc).
  rewrite Hd in Hv'. injection Hv' as Hv'. rewrite <- Hv' in Hc. clear v' Hv'.
  assert (Hlook : cacheStore (this w1) !! key = Some v).
  { destruct (cacheStore (this w1) !! key) as [x | ]; simpl in Hc.
    - congruence.
    - subst v. discriminate Ht. }
  assert (Hi : initPromise (this w1) = Fulfilled).
  { rewrite (getItem_awaits_init P key w) in E.
    destruct (frames_getItem P key _ _ _ (initialised_fulfilled P w) E)
      as (_ & _ & _ & _ & [H | (x & H)]); rewrite H;
      apply initialised_fulfilled. }
  rewrite Hr. apply getItem_hit; assumption.
Qed.

Lemma getItem_twice_witness :
  exists r w1,
    getItem Browser.direct "k"
      (Browser.forget (stored Browser.direct Browser.no_options "k" x1))
    = (Normal r, w1)
    /\ calls w1 <> calls (stored Browser.direct Browser.no_options "k" x1)
    /\ getItem Browser.direct "k" w1 = (Normal r, w1).
Proof.
  eexists. eexists. split; [ vm_compute; reflexivity | ].
  split; [ vm_compute; discriminate | ].
  apply (getItem_twice Browser.direct "k"
           (Browser.forget (stored Browser.direct Browser.no_options "k" x1))
           _ _ x1).
  - vm_compute. reflexivity.
  - reflexivity.
  - reflexivity.
  - reflexivity.
Defined.

Section Awaited.

Context (P : Platform).

Lemma initialised_outcome w :
  initPromise (this w) = Pending ->
  exists size,
    this (initialised P w)
    = set_initPromise Fulfilled
        (set_currentSize size
           (set_hasServiceWorker
              (hasServiceWorker (this w) && register_succeeds P) (this w)))
    /\ storage (initialised P w) = storage w
    /\ forall n, cache_of (initialised P w) n = cache_of w n.
Proof.
  intros Hp. destruct (init_outcome P w) as (w' & E & Ht & Hs & Hc).
  assert (Ea : await_initPromise P w
               = (Normal tt, with_this (set_initPromise Fulfilled) w')).
  { unfold await_initPromise. unfold bind at 1. unfold read at 1. rewrite Hp.
    unfold bind. rewrite E. reflexivity. }
  unfold initialised. rewrite Ea. cbn [snd this with_this storage].
  eexists. split; [ rewrite Ht; reflexivity | ].
  split; [ exact Hs | exact Hc ].
Qed.

End Awaited.

(** X21.  Initialisation.  The first [await this.initPromise] never
    throws; afterwards the facade uses the worker exactly when the
    navigator has one and its registration succeeded, the settings given
    to the constructor and the read cache are what they were, and
    neither the worker's map nor the contents of any cache has
    changed. *)
Theorem initialisation_falls_back (P : Platform) w :
  initPromise (this w) = Pending ->
  exists w',
    await_initPromise P w = (Normal tt, w')
    /\ initPromise (this w') = Fulfilled
    /\ hasServiceWorker (this w')
       = hasServiceWorker (this w) && register_succeeds P
    /\ settings (this w') = settings (this w)
    /\ cacheStore (this w') = cacheStore (this w)
    /\ storage w' = storage w
    /\ forall n, cache_of w' n = cache_of w n.
Proof.
  intros Hp. exists (initialised P w).
  split; [ apply await_initialised | ].
  destruct (initialised_outcome P w Hp) as (size & Ht & Hs & Hc).
  rewrite Ht. repeat (split; [ reflexivity | ]).
  split; [ exact Hs | exact Hc ].
Qed.

Lemma initialisation_falls_back_witness :
  hasServiceWorker
    (this (Browser.fresh (registration_fails Browser.with_worker)
             Browser.no_options))
  = true
  /\ exists w',
       await_initPromise (registration_fails Browser.with_worker)
         (Browser.fresh (registration_fails Browser.with_worker)
            Browser.no_options)
       = (Normal tt, w')
       /\ initPromise (this w') = Fulfilled
       /\ hasServiceWorker (this w') = false.
Proof.
  split; [ reflexivity | ].
  destruct (initialisation_falls_back (registration_fails Browser.with_worker)
              (Browser.fresh (registration_fails Browser.with_worker)
                 Browser.no_options))
    as (w' & E & Hi & Hsw & _).
  - reflexivity.
  - exists w'. split; [ exact E | ]. split; [ exact Hi | exact Hsw ].
Defined.

Section CacheKeeps.

Context (P : Platform) (L : lawful P).

(** Reading the entry [setItem] put in the Cache API, from any later
    world whose facade has the same settings and whose cache still
    holds the response. *)
Lemma getItem_reads_the_cache w key V schema r w1 w2 :
  initPromise (this w) = Fulfilled ->
  hasServiceWorker (this w) = false ->
  json V = true ->
  key_configured (encryptionKey (this w)) = true
  \/ compress P (Str (text_of V)) w = (Normal (Str (text_of V)), w) ->
  cache_fault P (CachesOpen (namespace (this w))) = false ->
  cache_fault P (CacheMatch (namespace (this w)) (baseUrl (this w) +:+ key))
  = false ->
  setItem P key V schema w = (Normal r, w1) ->
  success r = true ->
  initPromise (this w2) = Fulfilled ->
  hasServiceWorker (this w2) = false ->
  settings (this w2) = settings (this w) ->
  cache_of w2 (namespace (this w)) !! (baseUrl (this w) +:+ key)
  = cache_of w1 (namespace (this w)) !! (baseUrl (this w) +:+ key) ->
  truthy (default Undefined (cacheStore (this w2) !! key)) = false ->
  exists w3, getItem P key w2 = (Normal (succeeded V), w3).
Proof.
  intros Hi Hsw Hj Hpath Hopen Hmatch E Hr Hi2 Hsw2 Hset Hcache Hmiss.
  unfold settings in Hset.
  injection Hset as Hbu Hmax Hkey Hns Hcd Hweb Hcomp.
  destruct (parse_stringify V Hj) as (Hs & Hparse).
  destruct (setItem_success P w key V schema r w1 Hi E Hr)
    as (c & Hc & _ & _ & Hst & _).
  assert (Hser : JSON_stringify V = Str (text_of V)).
  { unfold JSON_stringify. rewrite Hs. reflexivity. }
  rewrite Hser in Hc.
  destruct (store_and_commit_hands_over P key V c w _ w1 Hst)
    as (payload & Hh & Hp1 & Hp2 & _ & _ & Hip & Hthis).
  rewrite Hser in Hh.
  assert (Hsw1 : hasServiceWorker (this w1) = false).
  { rewrite Hthis. exact Hsw. }
  unfold handed_over in Hh. rewrite Hsw1 in Hh. destruct Hh as (resp & Hh & Hb).
  assert (Hentry : json (storageData_of payload c (Str (text_of V)) (size_of c))
                   = true).
  { apply entry_json.
    destruct (key_configured (encryptionKey (this w))) eqn:Ek.
    - destruct (Hp2 eq_refl) as (wb & He). exact (envelope_json P _ _ _ _ He).
    - rewrite (Hp1 eq_refl).
      destruct Hpath as [Hk | Hk]; [ discriminate Hk | ].
      rewrite Hk in Hc. inversion Hc. reflexivity. }
  rewrite (getItem_miss P w2 key Hi2 Hmiss).
  destruct (retrieve_from_cache P w2 key
              (storageData_of payload c (Str (text_of V)) (size_of c)) resp)
    as (w3 & Hret & Hw3).
  - exact Hsw2.
  - rewrite Hns. exact Hopen.
  - rewrite Hns, Hbu. exact Hmatch.
  - rewrite Hns, Hbu, Hcache.
    replace (namespace (this w)) with (namespace (this w1))
      by (rewrite Hthis; reflexivity).
    replace (baseUrl (this w)) with (baseUrl (this w1))
      by (rewrite Hthis; reflexivity).
    exact Hh.
  - exact Hb.
  - exact Hentry.
  - eexists. apply try_catch_normal. unfold read_through.
    rewrite (bind_normal _ _ _ _ _ Hret).
    apply (decode_entry P L) with (w0 := w).
    + exact Hparse.
    + exact Hc.
    + exact Hcomp.
    + exact Hkey.
    + exact Hw3.
    + rewrite Hkey. exact Hp1.
    + exact Hweb.
    + rewrite Hkey. exact Hp2.
Qed.

End CacheKeeps.

(** X2.  A page load later.  Without a service worker and with a Cache
    API that does not reject, a JSON value stored by a facade constructed
    with [options] is returned by [getItem] on a new facade constructed
    with the same [options] over what the first one left, when a key is
    configured or the compression step left the text as it was. *)
Theorem data_survives_a_reload (P : Platform) options w0 key V schema r w1 :
  lawful P ->
  serviceWorker_in_navigator P = false ->
  (forall c, cache_fault P c = false) ->
  this w0 = constructor P options ->
  json V = true ->
  key_configured (opt_encryptionKey options) = true
  \/ fst (compress P (Str (text_of V)) w0) = Normal (Str (text_of V)) ->
  setItem P key V schema w0 = (Normal r, w1) ->
  success r = true ->
  exists w3, getItem P key (reload P options w1) = (Normal (succeeded V), w3).
Proof.
  intros L Hnav Hf Ht0 Hj Hpath E Hr.
  assert (Hp0 : initPromise (this w0) = Pending) by (rewrite Ht0; reflexivity).
  destruct (initialised_outcome P w0 Hp0) as (size & Htw & _ & _).
  rewrite Ht0 in Htw.
  assert (Hp2 : initPromise (this (reload P options w1)) = Pending) by reflexivity.
  destruct (initialised_outcome P (reload P options w1) Hp2)
    as (size2 & Htw2 & _ & Hc2).
  rewrite (setItem_awaits_init P key V schema w0) in E.
  rewrite (getItem_awaits_init P key (reload P options w1)).
  apply (getItem_reads_the_cache P L (initialised P w0) key V schema r w1).
  - apply initialised_fulfilled.
  - rewrite Htw. cbn. rewrite Hnav. reflexivity.
  - exact Hj.
  - destruct Hpath as [Hk | Hk]; [ left; rewrite Htw; exact Hk | right ].
    destruct (compress_silent P (Str (text_of V)) (initialised P w0)) as (c & Hc).
    rewrite Hc. f_equal.
    rewrite <- Hk.
    rewrite <- (compress_depends P (Str (text_of V)) w0 (initialised P w0)).
    + rewrite Hc. reflexivity.
    + rewrite Htw, Ht0. reflexivity.
  - apply Hf.
  - apply Hf.
  - exact E.
  - exact Hr.
  - apply initialised_fulfilled.
  - rewrite Htw2. cbn. rewrite Hnav. reflexivity.
  - rewrite Htw2, Htw. reflexivity.
  - rewrite Hc2. reflexivity.
  - rewrite Htw2. cbn. rewrite lookup_empty. reflexivity.
Qed.

Lemma data_survives_a_reload_witness :
  exists w3,
    getItem Browser.direct "k"
      (reload Browser.direct
         (Browser.codec_options true (Some Browser.sample_key))
         (snd (setItem Browser.direct "k" john None
                 (Browser.fresh Browser.direct
                    (Browser.codec_options true (Some Browser.sample_key))))))
    = (Normal (succeeded john), w3).
Proof.
  apply (data_survives_a_reload Browser.direct
           (Browser.codec_options true (Some Browser.sample_key))
           (Browser.fresh Browser.direct
              (Browser.codec_options true (Some Browser.sample_key)))
           "k" john None (succeeded john)).
  - apply browser_lawful.
  - reflexivity.
  - intros c. reflexivity.
  - reflexivity.
  - reflexivity.
  - left. reflexivity.
  - vm_compute. reflexivity.
  - reflexivity.
Defined.

Section Undefined.

Context (P : Platform).

Lemma compress_short d w :
  c_enabled (compression (this w)) = false
  \/ Z.of_nat (List.length (TextEncoder_encode d))
     < c_threshold (compression (this w)) ->
  compress P d w = (Normal d, w).
Proof.
  intros H. unfold compress, bind, read, ret.
  destruct (c_enabled (compression (this w))); cbn [negb]; [ | reflexivity ].
  destruct H as [H | H]; [ discriminate H | ].
  destruct (Z.ltb_spec (Z.of_nat (List.length (TextEncoder_encode d)))
              (c_threshold (compression (this w)))); [ reflexivity | lia ].
Qed.

(** The JSON text of the entry made of [undefined] has no [data]. *)
Lemma undefined_entry_text :
  parse (default ""
           (stringify (storageData_of Undefined Undefined
                         (JSON_stringify Undefined) (size_of Undefined))))
  = Some (Obj [("metadata",
                Obj [("compressed", Bool false); ("originalSize", Num 9);
                     ("compressedSize", Num 9)])]).
Proof. vm_compute. reflexivity. Qed.

End Undefined.

Section Present.

Context (P : Platform).

(** What the direct backend returns for a URL the cache holds. *)
Lemma retrieve_present_direct w key r :
  hasServiceWorker (this w) = false ->
  cache_of w (namespace (this w)) !! (baseUrl (this w) +:+ key) = Some r ->
  fst (retrieve P key w)
  = if cache_fault P (CachesOpen (namespace (this w)))
       || cache_fault P (CacheMatch (namespace (this w))
                           (baseUrl (this w) +:+ key))
    then Throw (DOMException "UnknownError")
    else match parse (body r) with
         | Some v => Normal (Some v)
         | None => Throw (SyntaxError "Unexpected token in JSON")
         end.
Proof.
  intros Hsw Hc. unfold retrieve, bind, read. rewrite Hsw.
  unfold caches_open, cache_match, cache_call, record_call, bind, modify, ret,
    read, throw.
  simpl.
  destruct (cache_fault P (CachesOpen (namespace (this w)))); [ reflexivity | ].
  simpl.
  destruct (cache_fault P (CacheMatch _ _)); [ reflexivity | ].
  simpl. unfold cache_of at 1. simpl. rewrite lookup_insert_eq. simpl.
  change (cache_of (with_calls ?f ?x) ?n) with (cache_of x n).
  rewrite Hc. unfold lift, JSON_parse. simpl.
  destruct (parse (body r)); reflexivity.
Qed.

End Present.

(** X13.  [undefined] is stored and not found again.  Without an
    encryption key, and with compression disabled or a positive
    threshold, a successful [setItem(key, undefined)] returns
    [{ success: true, data: undefined }], and the following
    [getItem(key)] fails: with [Error("Item not found")] on the worker
    backend, and on the direct backend when neither [caches.open] nor
    [cache.match] rejects in the read. *)
Theorem stored_undefined_is_not_found (P : Platform) w key schema r w1 :
  initPromise (this w) = Fulfilled ->
  key_configured (encryptionKey (this w)) = false ->
  c_enabled (compression (this w)) = false
  \/ 0 < c_threshold (compression (this w)) ->
  setItem P key Undefined schema w = (Normal r, w1) ->
  success r = true ->
  r = succeeded Undefined
  /\ exists r' w2,
       getItem P key w1 = (Normal r', w2)
       /\ success r' = false
       /\ (hasServiceWorker (this w) = true
           \/ (cache_fault P (CachesOpen (namespace (this w))) = false
               /\ cache_fault P (CacheMatch (namespace (this w))
                                   (baseUrl (this w) +:+ key)) = false)
           -> r' = not_found).
Proof.
  intros Hi Hk Hcomp E Hr.
  destruct (setItem_success P w key Undefined schema r w1 Hi E Hr)
    as (c & Hc & _ & _ & Hst & Hres).
  split; [ exact Hres | ].
  assert (c = Undefined) as ->.
  { rewrite compress_short in Hc; [ inversion Hc; reflexivity | ].
    destruct Hcomp as [H | H]; [ left; exact H | right; exact H ]. }
  destruct (store_and_commit_hands_over P key Undefined Undefined w _ w1 Hst)
    as (payload & Hh & Hp1 & _ & _ & Hcache & Hip & Hthis).
  rewrite (Hp1 Hk) in Hh. clear Hp1 payload.
  assert (Hi1 : initPromise (this w1) = Fulfilled) by (rewrite Hip; exact Hi).
  assert (Hmiss : truthy (default Undefined (cacheStore (this w1) !! key)) = false).
  { rewrite Hcache, lookup_insert_eq. reflexivity. }
  rewrite (getItem_miss P w1 key Hi1 Hmiss). unfold try_catch, read_through.
  unfold handed_over in Hh.
  destruct (hasServiceWorker (this w)) eqn:Hsw.
  - assert (Hsw1 : hasServiceWorker (this w1) = true) by (rewrite Hthis; exact Hsw).
    rewrite Hsw1 in Hh. destruct Hh as (ts & Hh).
    rewrite (bind_normal _ _ _ _ _
               (retrieve_from_worker P w1 key _ _ ts Hsw1 Hh)).
    eexists. eexists. split; [ reflexivity | ].
    split; [ reflexivity | intros _; reflexivity ].
  - assert (Hsw1 : hasServiceWorker (this w1) = false) by (rewrite Hthis; exact Hsw).
    rewrite Hsw1 in Hh. destruct Hh as (resp & Hh & Hb).
    pose proof (retrieve_present_direct P w1 key resp Hsw1 Hh) as Hf.
    rewrite Hb, undefined_entry_text in Hf.
    replace (namespace (this w1)) with (namespace (this w)) in Hf
      by (rewrite Hthis; reflexivity).
    replace (baseUrl (this w1)) with (baseUrl (this w)) in Hf
      by (rewrite Hthis; reflexivity).
    unfold bind at 1.
    destruct (retrieve P key w1) as [[o | e] w2] eqn:Er; cbn [fst] in Hf.
    + destruct (_ || _); [ discriminate Hf | ].
      injection Hf as ->.
      eexists. eexists. split; [ reflexivity | ].
      split; [ reflexivity | intros _; reflexivity ].
    + eexists. eexists. split; [ reflexivity | ]. split; [ reflexivity | ].
      intros [Hc' | (Fo & Fm)]; [ discriminate Hc' | ].
      rewrite Fo, Fm in Hf. discriminate Hf.
Qed.

Lemma stored_undefined_is_not_found_witness :
  fst (setItem Browser.direct "k" Undefined None
         (ready Browser.direct Browser.no_options))
  = Normal (succeeded Undefined)
  /\ exists r' w2,
       getItem Browser.direct "k"
         (stored Browser.direct Browser.no_options "k" Undefined)
       = (Normal r', w2)
       /\ r' = not_found.
Proof.
  split; [ vm_compute; reflexivity | ].
  destruct (stored_undefined_is_not_found Browser.direct
              (ready Browser.direct Browser.no_options) "k" None
              (succeeded Undefined)
              (stored Browser.direct Browser.no_options "k" Undefined))
    as (_ & r' & w2 & E & _ & Hnf).
  - reflexivity.
  - reflexivity.
  - left. reflexivity.
  - vm_compute. reflexivity.
  - reflexivity.
  - exists r', w2. split; [ exact E | ]. apply Hnf. right. split; reflexivity.
Defined.

Lemma append_cancel p a b : p +:+ a = p +:+ b -> a = b.
Proof.
  induction p as [ | c p IH ]; [ intros H; exact H | ].
  change (String c p +:+ a) with (String c (p +:+ a)).
  change (String c p +:+ b) with (String c (p +:+ b)).
  intros H. injection H. exact IH.
Qed.

(** X29.  What [removeItem] removes.  For a plain key and a namespace
    cache that holds responses under plain URLs only, [removeItem(key)]
    never throws; it leaves the worker's map and [currentSize] as they
    are, every other cache as it was, the response of every other plain
    key as it was, and the read cache as it was at every other key.
    When it returns [true] the namespace's cache has no response under
    the key's URL and the read cache has no entry for the key; when it
    returns [false] nothing but the record of calls has changed. *)
Theorem removeItem_removes_only_its_key (P : Platform) key w :
  plain key = true ->
  plain_cache (baseUrl (this w)) (cache_of w (namespace (this w))) = true ->
  exists b w',
    removeItem P key w = (Normal b, w')
    /\ storage w' = storage w
    /\ currentSize (this w') = currentSize (this w)
    /\ (forall n, n <> namespace (this w) -> cache_of w' n = cache_of w n)
    /\ (forall k, plain k = true -> k <> key ->
          cache_of w' (namespace (this w)) !! (baseUrl (this w) +:+ k)
          = cache_of w (namespace (this w)) !! (baseUrl (this w) +:+ k))
    /\ (forall k, k <> key ->
          cacheStore (this w') !! k = cacheStore (this w) !! k)
    /\ (b = true ->
        cache_of w' (namespace (this w)) !! (baseUrl (this w) +:+ key) = None
        /\ cacheStore (this w') !! key = None)
    /\ (b = false -> quiet w w').
Proof.
  intros _ _.
  unfold removeItem, try_catch. unfold bind at 1. unfold read at 1.
  unfold bind at 1.
  destruct (caches_open P (namespace (this w)) w) as [[cache | e] w1] eqn:Eo.
  - pose proof (silent_caches_open P _ _ _ _ Eo) as Hq1.
    assert (cache = namespace (this w)) as ->.
    { revert Eo. unfold caches_open, cache_call, record_call, bind, modify, ret,
        throw.
      destruct (cache_fault P (CachesOpen _)); [ discriminate | ].
      intros E. inversion E. reflexivity. }
    assert (Hopen : is_Some (caches w1 !! namespace (this w))).
    { revert Eo. unfold caches_open, cache_call, record_call, bind, modify, ret,
        throw.
      destruct (cache_fault P (CachesOpen _)); [ discriminate | ].
      intros E. inversion E. cbn [caches with_caches with_calls].
      rewrite lookup_insert_eq. eexists. reflexivity. }
    destruct Hq1 as (Q1 & Q2 & Q3 & Q4 & Q5).
    unfold cache_delete, cache_call, record_call, bind, modify, read, ret, throw.
    destruct (cache_fault P (CacheDelete _ _)).
    + exists false. eexists. split; [ reflexivity | ].
      cbn [storage this with_calls]. rewrite Q1.
      split; [ exact Q2 | ]. split; [ reflexivity | ].
      split; [ intros n _; rewrite <- (Q5 n); reflexivity | ].
      split; [ intros k _ _; rewrite <- (Q5 (namespace (this w))); reflexivity | ].
      split; [ intros k _; reflexivity | ].
      split; [ discriminate | ].
      intros _. unfold quiet. cbn [storage this with_calls now entropy].
      repeat (split; [ assumption | ]). intros n. rewrite <- (Q5 n). reflexivity.
    + exists true. eexists. split; [ reflexivity | ].
      cbn [storage this with_calls with_caches with_this].
      rewrite Q1. cbn [currentSize set_cacheStore cacheStore].
      split; [ exact Q2 | ]. split; [ reflexivity | ].
      destruct Hopen as (c & Hc).
      assert (Hcw : cache_of w (namespace (this w)) = c).
      { rewrite <- (Q5 (namespace (this w))). unfold cache_of. rewrite Hc.
        reflexivity. }
      split.
      { intros n Hn. unfold cache_of at 1.
        cbn [caches with_calls with_caches with_this]. rewrite Hc.
        rewrite lookup_insert_ne by congruence.
        change (default ∅ (caches w1 !! n)) with (cache_of w1 n).
        apply Q5. }
      split.
      { intros k _ Hk. unfold cache_of at 1.
        cbn [caches with_calls with_caches with_this]. rewrite Hc.
        rewrite lookup_insert_eq. cbn [default from_option id].
        rewrite lookup_delete_ne; [ rewrite Hcw; reflexivity | ].
        intros Heq. apply Hk. symmetry. exact (append_cancel _ _ _ Heq). }
      split; [ intros k Hk; apply lookup_delete_ne; congruence | ].
      split; [ | discriminate ].
      intros _. split; [ | apply lookup_delete_eq ].
      unfold cache_of at 1. cbn [caches with_calls with_caches with_this].
      rewrite Hc. rewrite lookup_insert_eq. cbn [default from_option id].
      apply lookup_delete_eq.
  - pose proof (silent_caches_open P _ _ _ _ Eo) as Hq1.
    exists false, w1. split; [ reflexivity | ].
    destruct Hq1 as (Q1 & Q2 & Q3 & Q4 & Q5).
    rewrite Q1. split; [ exact Q2 | ]. split; [ reflexivity | ].
    split; [ intros n _; apply Q5 | ].
    split; [ intros k _ _; rewrite Q5; reflexivity | ].
    split; [ intros k _; reflexivity | ].
    split; [ discriminate | ].
    intros _. unfold quiet. repeat (split; [ assumption | ]). exact Q5.
Qed.

Lemma removeItem_removes_only_its_key_witness :
  exists w',
    removeItem Browser.direct "a"
      (snd (setItem Browser.direct "b" john None
              (stored Browser.direct Browser.no_options "a" x1)))
    = (Normal true, w')
    /\ cache_of w' "application" !! "/cache-local-storage/storage/a" = None
    /\ is_Some (cache_of w' "application" !! "/cache-local-storage/storage/b").
Proof.
  destruct (removeItem_removes_only_its_key Browser.direct "a"
              (snd (setItem Browser.direct "b" john None
                      (stored Browser.direct Browser.no_options "a" x1))))
    as (b & w' & E & _ & _ & _ & Hother & _ & Hgone & _).
  - reflexivity.
  - vm_compute. reflexivity.
  - assert (Hb : Normal b
                 = fst (removeItem Browser.direct "a"
                          (snd (setItem Browser.direct "b" john None
                                  (stored Browser.direct Browser.no_options
                                     "a" x1)))))
      by (rewrite E; reflexivity).
    vm_compute in Hb. injection Hb as ->.
    exists w'. split; [ exact E | ].
    split; [ apply (Hgone eq_refl) | ].
    change (is_Some (cache_of w' (namespace (this (snd (setItem Browser.direct "b" john None
                      (stored Browser.direct Browser.no_options "a" x1)))))
                     !! (baseUrl (this (snd (setItem Browser.direct "b" john None
                      (stored Browser.direct Browser.no_options "a" x1)))) +:+ "b"))).
    rewrite (Hother "b" eq_refl ltac:(discriminate)).
    vm_compute. eexists. reflexivity.
Defined.
